(** * sphinx-tags: a shallow embedding of [sphinx_tags/__init__.py]

    The development follows the module: the directive's colour lookup,
    the classes [Tag] and [Entry], the overview page, the registry
    construction and the orchestrator [update_tags], then the directive
    [TagLinks.run] with its node builders, which use the file names of
    [Tag.create_file].  The definitions come first, then their
    properties.

    Conventions.
    - A Python [str] is a [string]; a character is a code point below 256,
      compared by its code, as Python compares strings.
    - A Python [dict] keeps insertion order, which [dict.values()] and
      [dict.items()] expose: it is an association list with unique keys.
    - Exceptions are values of [exn]; effectful code lives in a state and
      exception monad over the file system, and the state survives a raise,
      as it does in Python.  The operating system raises what Linux
      raises: [os.remove] on a directory gives [IsADirectoryError].

    What the module takes from the standard library and from the
    operating system is modelled as far as the module uses it.
    - [re]: the constructs of the three patterns, with a backtracking
      matcher.
    - [pathlib] and [os.path]: POSIX paths; a path with exactly two leading
      slashes is read as an absolute path.
    - The file system is a finite map from absolute, normalised paths (lists
      of components) to files and directories, without symbolic links,
      permissions or encoding errors.  Resolving a path looks every
      component up, as the kernel does; the working directory is the root.
      The order in which a directory is scanned is the order of
      [map_to_list]: some order fixed by the set of names, as on a real
      file system.
    - The limits of Linux on names: a directory holds no name of more
      than 255 bytes (in UTF-8) and none with a NUL character, and a path
      of 4096 bytes or more is refused.  [open] for writing and
      [os.mkdir] fail as Python and Linux do where such a name would be
      made; a name that is too long and is looked up is never there, and
      the error is the kernel's.  The file system at hand is taken to
      hold only names that a directory can hold, and what is there is
      found under the path that leads to it, whatever the length of that
      path.
    - [glob]: directory by directory, as the library does it, the
      directory itself first and then the directories below it in the
      order of their scans, each followed by what lies below it.  The
      source directory and the configured extensions hold no glob
      metacharacter.
    - [fnmatch] is a parameter of the colour lookup; [fnmatch_plain] is its
      behaviour on patterns without brackets.
    - [docutils]: the inline text, the reference and the paragraph that
      the directive builds; the role of sphinx-design is a parameter.
    - [app.srcdir] is absolute, as Sphinx makes it.  The two calls of the
      logger leave no trace in the model.  [setup] registers the options
      with the host and is not modelled beyond their defaults. *)

From Stdlib Require Import Ascii DecimalString.
From stdpp Require Import gmap strings list fin_maps sorting.


(** ** Python string methods *)

(** [str.isspace] on one character: the ASCII white space, the four
    separators 0x1c-0x1f, NEL and the no-break space. *)
Definition is_space (c : ascii) : bool :=
  let n := nat_of_ascii c in
  ((9 <=? n) && (n <=? 13)) || ((28 <=? n) && (n <=? 32))
  || (n =? 133) || (n =? 160).

(** [s.lstrip()] *)
Fixpoint str_lstrip (s : string) : string :=
  match s with
  | String c s' => if is_space c then str_lstrip s' else s
  | EmptyString => EmptyString
  end.

(** [s.rstrip()] *)
Fixpoint str_rstrip (s : string) : string :=
  match s with
  | String c s' =>
      match str_rstrip s' with
      | EmptyString => if is_space c then EmptyString else String c EmptyString
      | r => String c r
      end
  | EmptyString => EmptyString
  end.

(** [s.strip()] *)
Definition str_strip (s : string) : string := str_rstrip (str_lstrip s).

(** [s.split(sep)] for a one-character separator: never the empty list,
    empty pieces are kept. *)
Fixpoint str_split (sep : ascii) (s : string) : list string :=
  match s with
  | EmptyString => [EmptyString]
  | String c s' =>
      if decide (c = sep) then EmptyString :: str_split sep s'
      else match str_split sep s' with
           | h :: t => String c h :: t
           | [] => [String c EmptyString]
           end
  end.

(** [sep.join(l)] *)
Fixpoint str_join (sep : string) (l : list string) : string :=
  match l with
  | [] => EmptyString
  | [x] => x
  | x :: l' => x +:+ sep +:+ str_join sep l'
  end.

(** [s.replace(a, b)] for one-character [a] and [b]. *)
Fixpoint str_replace (a b : ascii) (s : string) : string :=
  match s with
  | EmptyString => EmptyString
  | String c s' => String (if decide (c = a) then b else c) (str_replace a b s')
  end.

(** [s.startswith(p)] *)
Fixpoint str_startswith (s p : string) : bool :=
  match p, s with
  | EmptyString, _ => true
  | String a p', String c s' => bool_decide (a = c) && str_startswith s' p'
  | String _ _, EmptyString => false
  end.

(** [s[n:]] *)
Fixpoint str_drop (n : nat) (s : string) : string :=
  match n, s with
  | S n', String _ s' => str_drop n' s'
  | _, _ => s
  end.

(** [s.endswith(p)] *)
Definition str_endswith (s p : string) : bool :=
  (String.length p <=? String.length s)
  && bool_decide (str_drop (String.length s - String.length p) s = p).

(** [c * n] *)
Fixpoint str_repeat (c : ascii) (n : nat) : string :=
  match n with
  | O => EmptyString
  | S n' => String c (str_repeat c n')
  end.

(** [str(n)] for a non-negative integer. *)
Definition str_of_nat (n : nat) : string := NilZero.string_of_uint (Nat.to_uint n).

(** [c in s] for a character *)
Fixpoint str_mem (c : ascii) (s : string) : bool :=
  match s with
  | EmptyString => false
  | String d s' => bool_decide (c = d) || str_mem c s'
  end.

Definition nl : ascii := ascii_of_nat 10.
Definition cr : ascii := ascii_of_nat 13.
Definition NL : string := String nl EmptyString.

(** The comparison [a < b] of two Python strings: lexicographic on code
    points. *)
Definition str_ltb (a b : string) : bool := String.ltb a b.

(** ** [sorted(l, key=...)]

    Python's sort is stable: it is the unique sorted permutation in which
    elements with equal keys keep their order.  Insertion from the right,
    each element placed before the first one that is not smaller, computes
    it. *)
Section Sorted.
Context {A K : Type} (key : A → K) (ltb : K → K → bool).

Fixpoint sorted_insert (x : A) (l : list A) : list A :=
  match l with
  | [] => [x]
  | y :: l' => if ltb (key y) (key x) then y :: sorted_insert x l' else x :: l
  end.

Definition sorted (l : list A) : list A := foldr sorted_insert [] l.
End Sorted.

(** ** [pathlib.Path] and [os.path] on POSIX *)

(** A pure path: whether it has the root, and its components.  Parsing
    drops empty and ["."] components and keeps [".."], as pathlib does. *)
Record Path := mkPath { absolute : bool; parts : list string }.

Global Instance Path_eq_dec : EqDecision Path.
Proof. solve_decision. Defined.

Definition slash : ascii := "/"%char.

Definition path_component (c : string) : bool :=
  negb (bool_decide (c = EmptyString)) && negb (bool_decide (c = ".")).

(** [Path(s)] *)
Definition Path_of (s : string) : Path :=
  {| absolute := str_startswith s "/";
     parts := List.filter path_component (str_split slash s) |}.

(** [str(p)], which is also [p.as_posix()] and [os.fspath(p)] on POSIX. *)
Definition as_posix (p : Path) : string :=
  match absolute p, parts p with
  | false, [] => "."
  | false, l => str_join "/" l
  | true, l => "/" +:+ str_join "/" l
  end.

(** [p.name] *)
Definition Path_name (p : Path) : string := List.last (parts p) EmptyString.

(** Lexicographic order on lists of strings. *)
Fixpoint parts_ltb (a b : list string) : bool :=
  match a, b with
  | [], [] => false
  | [], _ :: _ => true
  | _ :: _, [] => false
  | x :: a', y :: b' =>
      if str_ltb x y then true
      else if str_ltb y x then false
      else parts_ltb a' b'
  end.

(** [p < q] on paths compares the component lists, the root counting as a
    first component ["/"]. *)
Definition cparts (p : Path) : list string :=
  (if absolute p then ["/"] else []) ++ parts p.

Definition Path_ltb (p q : Path) : bool := parts_ltb (cparts p) (cparts q).

(** [os.path.join(a, b)] *)
Definition os_path_join (a b : string) : string :=
  if str_startswith b "/" then b
  else if bool_decide (a = EmptyString) || str_endswith a "/" then a +:+ b
  else a +:+ "/" +:+ b.

(** [os.path.normpath] on the components of an absolute path: empty and
    ["."] components go, [".."] pops a component and is dropped at the
    root. *)
Definition normpath_step (acc : list string) (c : string) : list string :=
  if bool_decide (c = EmptyString) || bool_decide (c = ".") then acc
  else if bool_decide (c = "..") then removelast acc
  else acc ++ [c].

Definition abs_components (s : string) : list string :=
  foldl normpath_step [] (str_split slash s).

Fixpoint common_prefix_len (a b : list string) : nat :=
  match a, b with
  | x :: a', y :: b' => if decide (x = y) then S (common_prefix_len a' b') else 0
  | _, _ => 0
  end.

(** [os.path.relpath(path, start)] for absolute arguments. *)
Definition os_path_relpath (path start : string) : string :=
  let start_list := abs_components start in
  let path_list := abs_components path in
  let i := common_prefix_len start_list path_list in
  let rel_list := replicate (length start_list - i) ".." ++ drop i path_list in
  match rel_list with
  | [] => "."
  | _ => str_join "/" rel_list
  end.

(** ** The fragment of [re] the module uses

    Literal text, the anchors [^] and [$] (without [re.MULTILINE]),
    alternation, sequence, the dot under a lazy or greedy star (with or
    without [re.DOTALL]), one capturing group and a positive lookahead. *)
Inductive regex :=
| Lit (s : string)
| Bos
| Eos
| Alt (r1 r2 : regex)
| Seq (r1 r2 : regex)
| Dots (greedy dotall : bool)
| Group (r : regex)
| Ahead (r : regex).

(** The state of a match attempt: the position in the text, the text from
    there on, and what group 1 captured.  Every pattern of the module goes
    through its group on every path, so the capture is a plain string. *)
Record mstate := mkMstate { m_pos : nat; m_rest : string; m_cap : string }.

(** [s[:n]] *)
Fixpoint str_take (n : nat) (s : string) : string :=
  match n, s with
  | S n', String c s' => String c (str_take n' s')
  | _, _ => EmptyString
  end.

(** The dot: any character, or any character but a newline. *)
Definition dot_ok (dotall : bool) (c : ascii) : bool :=
  dotall || negb (bool_decide (c = nl)).

(** [.*?] tries the continuation first and takes one more character when
    it fails; [.*] takes all it can and gives back one at a time. *)
Fixpoint dots {R : Type} (greedy dotall : bool) (pos : nat) (s cap : string)
    (k : mstate → option R) : option R :=
  let here := k (mkMstate pos s cap) in
  match s with
  | String c s' =>
      if dot_ok dotall c then
        if greedy then
          match dots greedy dotall (S pos) s' cap k with
          | Some x => Some x
          | None => here
          end
        else
          match here with
          | Some x => Some x
          | None => dots greedy dotall (S pos) s' cap k
          end
      else here
  | EmptyString => here
  end.

(** A backtracking matcher in continuation-passing style: [k] is the rest
    of the pattern, and the first way to succeed wins. *)
Fixpoint rmatch (r : regex) {R : Type} (st : mstate) (k : mstate → option R)
    : option R :=
  match r with
  | Lit s =>
      if str_startswith (m_rest st) s
      then k (mkMstate (m_pos st + String.length s)
                       (str_drop (String.length s) (m_rest st)) (m_cap st))
      else None
  | Bos => if m_pos st =? 0 then k st else None
  | Eos =>
      if bool_decide (m_rest st = EmptyString) || bool_decide (m_rest st = NL)
      then k st else None
  | Alt r1 r2 =>
      match rmatch r1 st k with
      | Some x => Some x
      | None => rmatch r2 st k
      end
  | Seq r1 r2 => rmatch r1 st (λ st', rmatch r2 st' k)
  | Dots greedy dotall => dots greedy dotall (m_pos st) (m_rest st) (m_cap st) k
  | Group r1 =>
      rmatch r1 st (λ st',
        k (mkMstate (m_pos st') (m_rest st')
                    (str_take (m_pos st' - m_pos st) (m_rest st))))
  | Ahead r1 =>
      match rmatch r1 st (λ _, Some tt) with
      | Some _ => k st
      | None => None
      end
  end.

(** A match object: its span and [match.group(1)]. *)
Record Match := mkMatch { m_start : nat; m_end : nat; group1 : string }.

(** [pattern.finditer(text)]: scan from the left; after a match the search
    resumes where the match ended ([skip] counts the characters of the
    match still to pass), otherwise one character further. *)
Fixpoint scan (r : regex) (skip pos : nat) (s : string) {struct s} : list Match :=
  match skip with
  | S n =>
      match s with
      | String _ s' => scan r n (S pos) s'
      | EmptyString => []
      end
  | O =>
      match rmatch r (mkMstate pos s EmptyString) Some with
      | Some st' =>
          let m := mkMatch pos (m_pos st') (m_cap st') in
          match s with
          | String _ s' => m :: scan r (m_pos st' - pos - 1) (S pos) s'
          | EmptyString => [m]
          end
      | None =>
          match s with
          | String _ s' => scan r 0 (S pos) s'
          | EmptyString => []
          end
      end
  end.

Definition finditer (r : regex) (text : string) : list Match := scan r 0 0 text.

Definition dquote : ascii := ascii_of_nat 34.
Definition DQ : string := String dquote EmptyString.

(** [re.compile(r"(?:^|\n)\.\. tags::(.*?)(?=\n\n|$)", re.DOTALL)] *)
Definition _rst_regex : regex :=
  Seq (Alt Bos (Lit NL))
      (Seq (Lit ".. tags::")
           (Seq (Group (Dots false true)) (Ahead (Alt (Lit (NL +:+ NL)) Eos)))).

(** [re.compile(r"```{tags}(.*?)```", re.DOTALL)] *)
Definition _md_regex : regex :=
  Seq (Lit "```{tags}") (Seq (Group (Dots false true)) (Lit "```")).

(** [_nb_regex]: a double quote and the directive, a greedy group, then a
    backslash, [n] and a double quote.  No flag: the group stays on its
    line and ends at the last such closing sequence of that line. *)
Definition _nb_regex : regex :=
  Seq (Lit (DQ +:+ ".. tags::")) (Seq (Group (Dots true false)) (Lit ("\n" +:+ DQ))).


(** ** The file system and the exceptions *)

Inductive node := File (content : string) | Dir.

Abbreviation FS := (gmap (list string) node).

Inductive exn :=
| ValueError (msg : string)
| OSError (errno : nat)
| FileNotFoundError
| FileExistsError
| IsADirectoryError
| NotADirectoryError.

Definition ENAMETOOLONG : nat := 36.

Inductive result (A : Type) := Ok (a : A) | Raise (e : exn).
Arguments Ok {A} a.
Arguments Raise {A} e.

(** The node at a path; the root is a directory. *)
Definition node_at (fs : FS) (p : list string) : option node :=
  match p with
  | [] => Some Dir
  | _ => fs !! p
  end.

(** The limits of Linux on names, in bytes of the UTF-8 encoding: a code
    point below 128 takes one byte, the others here take two. *)
Definition NAME_MAX : nat := 255.
Definition PATH_MAX : nat := 4096.

Fixpoint byte_length (s : string) : nat :=
  match s with
  | EmptyString => 0
  | String c s' => (if nat_of_ascii c <? 128 then 1 else 2) + byte_length s'
  end.

Definition NUL : ascii := ascii_of_nat 0.

(** No directory holds a name of more than [NAME_MAX] bytes. *)
Definition too_long (n : string) : bool := NAME_MAX <? byte_length n.

(** What looking up a node that is not there raises: the kernel refuses
    a name that is too long before it finds it missing. *)
Definition absent (p : list string) : exn :=
  if too_long (List.last p EmptyString) then OSError ENAMETOOLONG else FileNotFoundError.

(** What is refused before anything is looked up: Python raises on a
    path with a NUL character, the kernel on one that, with its closing
    NUL, takes more than [PATH_MAX] bytes. *)
Definition path_error (path : string) : option exn :=
  if str_mem NUL path then Some (ValueError "embedded null byte")
  else if PATH_MAX <=? byte_length path then Some (OSError ENAMETOOLONG)
  else None.

(** Path resolution as the kernel does it: every component is looked up
    in a directory that must exist.  A relative path starts from the root
    (Sphinx makes [app.srcdir] absolute, so none occurs). *)
Fixpoint walk (fs : FS) (cur : list string) (comps : list string)
    : result (list string) :=
  match comps with
  | [] => Ok cur
  | c :: rest =>
      match node_at fs cur with
      | Some Dir =>
          if bool_decide (c = EmptyString) || bool_decide (c = ".") then walk fs cur rest
          else if bool_decide (c = "..") then walk fs (removelast cur) rest
          else walk fs (cur ++ [c]) rest
      | Some (File _) => Raise NotADirectoryError
      | None => Raise (absent cur)
      end
  end.

Definition resolve (fs : FS) (path : string) : result (list string) :=
  walk fs [] (str_split slash path).

(** Effectful code: a state and exception monad over the file system. *)
Definition M (A : Type) : Type := FS → FS * result A.

Definition ret {A} (a : A) : M A := λ fs, (fs, Ok a).
Definition raise {A} (e : exn) : M A := λ fs, (fs, Raise e).
Definition bind {A B} (c : M A) (k : A → M B) : M B :=
  λ fs, match c fs with
        | (fs', Ok a) => k a fs'
        | (fs', Raise e) => (fs', Raise e)
        end.

Notation "'let*' x ':=' c 'in' k" := (bind c (λ x, k))
  (at level 10, x pattern, c at level 100, k at level 200).

(** [for x in l: body] *)
Fixpoint mfor {A} (l : list A) (body : A → M unit) : M unit :=
  match l with
  | [] => ret tt
  | x :: l' => let* _ := body x in mfor l' body
  end.

(** A loop that threads a local value through its iterations. *)
Fixpoint mfold {A S} (l : list A) (body : S → A → M S) (s : S) : M S :=
  match l with
  | [] => ret s
  | x :: l' => let* s' := body s x in mfold l' body s'
  end.

(** Text mode reading translates [\r\n] and a lone [\r] to [\n]. *)
Fixpoint universal_newlines (s : string) : string :=
  match s with
  | EmptyString => EmptyString
  | String c s' =>
      if decide (c = cr) then
        match s' with
        | String d s'' =>
            if decide (d = nl) then String nl (universal_newlines s'')
            else String nl (universal_newlines s')
        | EmptyString => NL
        end
      else String c (universal_newlines s')
  end.

(** [os.path.exists(path)] *)
Definition os_path_exists (path : string) : M bool :=
  λ fs, (fs, Ok match resolve fs path with
                | Ok p => bool_decide (is_Some (node_at fs p))
                | Raise _ => false
                end).

(** [os.mkdir(path)] *)
Definition os_mkdir (path : string) : M unit :=
  λ fs, match path_error path with
        | Some e => (fs, Raise e)
        | None =>
            match resolve fs path with
            | Ok p =>
                match node_at fs p with
                | Some _ => (fs, Raise FileExistsError)
                | None =>
                    if too_long (List.last p EmptyString)
                    then (fs, Raise (OSError ENAMETOOLONG))
                    else (<[p := Dir]> fs, Ok tt)
                end
            | Raise e => (fs, Raise e)
            end
        end.

(** [os.makedirs(path)]: the missing directories on the way to [path] are
    made from the root down; [path] itself must not exist yet. *)
Fixpoint makedirs_from (pre : string) (comps : list string) : M unit :=
  match comps with
  | [] => ret tt
  | c :: rest =>
      let p := pre +:+ c in
      let* ex := os_path_exists p in
      let* _ :=
        if ex then
          match rest with
          | [] => raise FileExistsError
          | _ => ret tt
          end
        else os_mkdir p in
      makedirs_from (p +:+ "/") rest
  end.

Definition os_makedirs (path : string) : M unit :=
  makedirs_from EmptyString (str_split slash path).

(** The names in directory [d], in scan order. *)
Definition child_name (d : list string) (e : list string * node) : option string :=
  match decide (take (length d) e.1 = d), drop (length d) e.1 with
  | left _, [n] => Some n
  | _, _ => None
  end.

Definition dir_names (fs : FS) (d : list string) : list string :=
  omap (child_name d) (map_to_list fs).

(** [os.listdir(path)] *)
Definition os_listdir (path : string) : M (list string) :=
  λ fs, match resolve fs path with
        | Ok d =>
            match node_at fs d with
            | Some Dir => (fs, Ok (dir_names fs d))
            | Some (File _) => (fs, Raise NotADirectoryError)
            | None => (fs, Raise (absent d))
            end
        | Raise e => (fs, Raise e)
        end.

(** [os.remove(path)] *)
Definition os_remove (path : string) : M unit :=
  λ fs, match resolve fs path with
        | Ok p =>
            match node_at fs p with
            | Some (File _) => (delete p fs, Ok tt)
            | Some Dir => (fs, Raise IsADirectoryError)
            | None => (fs, Raise (absent p))
            end
        | Raise e => (fs, Raise e)
        end.

(** [with open(path, "r", encoding="utf8") as f: f.read()] *)
Definition open_read (path : string) : M string :=
  λ fs, match resolve fs path with
        | Ok p =>
            match node_at fs p with
            | Some (File c) => (fs, Ok (universal_newlines c))
            | Some Dir => (fs, Raise IsADirectoryError)
            | None => (fs, Raise (absent p))
            end
        | Raise e => (fs, Raise e)
        end.

(** [with open(path, "w", encoding="utf8") as f: f.write(content)]: a
    file that is there is written over, one that is not is created, if
    its name is one that a directory can hold. *)
Definition open_write (path content : string) : M unit :=
  λ fs, match path_error path with
        | Some e => (fs, Raise e)
        | None =>
            match resolve fs path with
            | Ok p =>
                match node_at fs p with
                | Some Dir => (fs, Raise IsADirectoryError)
                | Some (File _) => (<[p := File content]> fs, Ok tt)
                | None =>
                    if too_long (List.last p EmptyString)
                    then (fs, Raise (OSError ENAMETOOLONG))
                    else (<[p := File content]> fs, Ok tt)
                end
            | Raise e => (fs, Raise e)
            end
        end.

(** [glob(f"{dir}/**/*.{extension}", recursive=True)].  The pattern
    [**] stands for [dir] itself and then for the directories below it:
    those of a directory in the order of its scan, each followed by what
    lies below it, hidden names (a leading dot) left out and not entered.
    In each of these directories, one after the other, [*.extension]
    picks from the scan the names that are not hidden and end in
    [.extension], files and directories alike.  [dir] and [extension] are
    taken to hold no glob metacharacter. *)
Definition hidden (n : string) : bool := str_startswith n ".".

Definition is_dir (fs : FS) (p : list string) : bool :=
  match node_at fs p with
  | Some Dir => true
  | _ => false
  end.

(** The length of the longest path of the file system: no directory lies
    deeper. *)
Definition fs_depth (fs : FS) : nat :=
  foldr (λ e n, length e.1 `max` n) 0 (map_to_list fs).

(** [_rlistdir]: the directories below [d], as paths relative to [d].
    The recursion ends where a directory holds no directory, at the
    latest [fs_depth fs] levels down, which is what [depth] counts. *)
Fixpoint _rlistdir (depth : nat) (fs : FS) (d : list string) : list (list string) :=
  match depth with
  | O => []
  | S depth' =>
      x ← List.filter (λ x, negb (hidden x) && is_dir fs (d ++ [x])) (dir_names fs d);
      [x] :: ((λ y, x :: y) <$> _rlistdir depth' fs (d ++ [x]))
  end.

(** [_glob1] with the pattern [*.extension] *)
Definition _glob1 (fs : FS) (d : list string) (extension : string) : list string :=
  List.filter (λ x, negb (hidden x) && str_endswith x ("." +:+ extension))
              (dir_names fs d).

Definition glob_recursive (dir extension : string) : M (list string) :=
  λ fs, match resolve fs dir with
        | Ok d =>
            if is_dir fs d then
              (fs, Ok (rel ← [] :: _rlistdir (fs_depth fs) fs d;
                       (λ x, dir +:+ "/" +:+ str_join "/" (rel ++ [x]))
                         <$> _glob1 fs (d ++ rel) extension))
            else (fs, Ok [])
        | Raise _ => (fs, Ok [])
        end.

(** ** Python dictionaries: insertion-ordered, unique keys *)

Fixpoint dict_get {V} (k : string) (d : list (string * V)) : option V :=
  match d with
  | [] => None
  | (k', v) :: d' => if decide (k = k') then Some v else dict_get k d'
  end.

(** [k in d] *)
Definition dict_mem {V} (k : string) (d : list (string * V)) : bool :=
  match dict_get k d with Some _ => true | None => false end.

(** [d[k] = v]: an existing key keeps its place, a new one goes last. *)
Fixpoint dict_set {V} (k : string) (v : V) (d : list (string * V)) : list (string * V) :=
  match d with
  | [] => [(k, v)]
  | (k', v') :: d' =>
      if decide (k = k') then (k', v) :: d' else (k', v') :: dict_set k v d'
  end.

(** An in-place update of the object stored under [k]. *)
Fixpoint dict_update {V} (f : V → V) (k : string) (d : list (string * V)) : list (string * V) :=
  match d with
  | [] => []
  | (k', v) :: d' =>
      if decide (k = k') then (k', f v) :: d' else (k', v) :: dict_update f k d'
  end.

(** [d.values()] *)
Definition dict_values {V} (d : list (string * V)) : list V := d.*2.

(** ** The configuration and the application object *)

Record Config := mkConfig {
  tags_create_tags : bool;
  tags_output_dir : string;
  tags_overview_title : string;
  tags_extension : list string;
  tags_intro_text : string;
  tags_page_title : string;
  tags_page_header : string;
  tags_index_head : string;
  tags_create_badges : bool;
  tags_badge_colors : option (list (string * string))
}.

Record App := mkApp { srcdir : string; config : Config }.

(** The defaults that [setup] registers. *)
Definition default_config : Config :=
  {| tags_create_tags := false;
     tags_output_dir := "_tags";
     tags_overview_title := "Tags overview";
     tags_extension := ["rst"];
     tags_intro_text := "Tags:";
     tags_page_title := "My tags";
     tags_page_header := "With this tag";
     tags_index_head := "Tags";
     tags_create_badges := false;
     tags_badge_colors := Some [] |}.

(** ** [TagLinks._get_tag_color]

    [fnmatch] is the standard library's; the lookup is stated for any
    matcher. *)
Section TagLinks.
Variable fnmatch : string → string → bool.

(** [for pattern, color in tag_colors.items(): ...; return "primary"] *)
Fixpoint _get_tag_color_loop (tag : string) (items : list (string * string)) : string :=
  match items with
  | [] => "primary"
  | (pattern, color) :: rest =>
      if fnmatch tag pattern then color else _get_tag_color_loop tag rest
  end.

Definition _get_tag_color (cfg : Config) (tag : string) : string :=
  let tag_colors :=
    match tags_badge_colors cfg with
    | Some (x :: l) => x :: l
    | _ => []              (* [... or {}]: None and the empty dict are falsy *)
    end in
  _get_tag_color_loop tag tag_colors.
End TagLinks.

(** [fnmatch] on patterns without a bracket: [*] is any run of characters,
    [?] any one character, everything else stands for itself. *)
Fixpoint fnmatch_plain (name pattern : string) {struct pattern} : bool :=
  match pattern with
  | EmptyString => bool_decide (name = EmptyString)
  | String p pattern' =>
      if decide (p = "*"%char) then
        (fix star (n : string) : bool :=
           fnmatch_plain n pattern' ||
           match n with
           | String _ n' => star n'
           | EmptyString => false
           end) name
      else
        match name with
        | String c name' =>
            (bool_decide (p = "?"%char) || bool_decide (p = c))
            && fnmatch_plain name' pattern'
        | EmptyString => false
        end
  end.

(** ** The classes [Entry] and [Tag] *)

Record Entry := mkEntry {
  filepath : Path;
  lines : list string;
  tags : list string
}.

Record Tag := mkTag { name : string; items : list Entry }.

Global Instance Entry_eq_dec : EqDecision Entry.
Proof. solve_decision. Defined.

(** [Tag.__init__] *)
Definition Tag_init (name : string) : Tag := {| name := name; items := [] |}.

Definition unknown_extension : string :=
  "Unknown file extension. Currently, only .rst, .md .ipynb are supported.".

(** The loop of [Entry.__init__] over the matches. *)
Definition extract_tags (tag_regex : regex) (text : string) : list string :=
  foldl (λ tags m, tags ++ (str_strip <$> str_split ","%char (group1 m)))
        [] (finditer tag_regex text).

(** [Entry.__init__] *)
Definition Entry_init (entrypath : string) : M Entry :=
  let filepath := Path_of entrypath in
  let* text := open_read (as_posix filepath) in
  let lines := str_split nl text in
  let* tag_regex :=
    if str_endswith (Path_name filepath) ".rst" then ret _rst_regex
    else if str_endswith (Path_name filepath) ".md" then ret _md_regex
    else if str_endswith (Path_name filepath) ".ipynb" then ret _nb_regex
    else raise (ValueError unknown_extension) in
  ret {| filepath := filepath;
         lines := lines;
         tags := extract_tags tag_regex (str_join NL lines) |}.

(** One turn of the loop of [Entry.assign_to_tags]. *)
Definition assign_to_tag (self : Entry) (tag_dict : list (string * Tag)) (tag : string)
    : list (string * Tag) :=
  let tag_dict :=
    if dict_mem tag tag_dict then tag_dict else dict_set tag (Tag_init tag) tag_dict in
  dict_update (λ t, {| name := name t; items := items t ++ [self] |}) tag tag_dict.

(** [Entry.assign_to_tags] *)
Definition assign_to_tags (self : Entry) (tag_dict : list (string * Tag))
    : list (string * Tag) :=
  foldl (assign_to_tag self) tag_dict (tags self).

(** ** [Tag.create_file] *)

(** The reference to a document in a tag page. *)
Definition relpath_of (srcdir : string) (item : Entry) : string :=
  as_posix (Path_of (os_path_relpath (as_posix (filepath item)) srcdir)).

Definition tag_file_stem (name : string) : string := str_replace " "%char "_"%char name.

(** The file name and the lines that [create_file] builds. *)
Definition create_file_content (self : Tag) (items : list Entry)
    (extension : list string) (srcdir tags_page_title tags_page_header : string)
    : string * list string :=
  if bool_decide ("md" ∈ extension) then
    (tag_file_stem (name self) +:+ ".md",
     [ "# " +:+ tags_page_title +:+ ": " +:+ name self;
       EmptyString;
       "```{toctree}";
       "---";
       "maxdepth: 1";
       "caption: " +:+ tags_page_header;
       "---" ]
     ++ ((λ item, "../" +:+ relpath_of srcdir item) <$> items)
     ++ [ "```" ]
     ++ [ EmptyString ])
  else
    (tag_file_stem (name self) +:+ ".rst",
     [ tags_page_title +:+ ": " +:+ name self;
       str_repeat "#"%char (String.length (name self) + String.length tags_page_title + 2);
       EmptyString;
       ".. toctree::";
       "    :maxdepth: 1";
       "    :caption: " +:+ tags_page_header;
       EmptyString ]
     ++ ((λ item, "    ../" +:+ relpath_of srcdir item)
           <$> sorted filepath Path_ltb items)
     ++ [ EmptyString ]).

(** The path [os.path.join(srcdir, tags_output_dir, filename)]. *)
Definition join3 (srcdir : string) (tags_output_dir : Path) (filename : string) : string :=
  os_path_join (os_path_join srcdir (as_posix tags_output_dir)) filename.

Definition create_file (self : Tag) (items : list Entry) (extension : list string)
    (tags_output_dir : Path) (srcdir tags_page_title tags_page_header : string)
    : M unit :=
  let '(filename, content) :=
    create_file_content self items extension srcdir tags_page_title tags_page_header in
  open_write (join3 srcdir tags_output_dir filename) (str_join NL content).

(** ** [tagpage] *)

Definition tagpage_content (tags : list (string * Tag)) (outdir title : string)
    (extension : list string) (tags_index_head : string) : string * list string :=
  let tags := dict_values tags in
  if bool_decide ("md" ∈ extension) then
    (os_path_join outdir "tagsindex.md",
     [ "(tagoverview)=";
       EmptyString;
       "# " +:+ title;
       EmptyString;
       "```{toctree}";
       "---";
       "caption: " +:+ tags_index_head;
       "maxdepth: 1";
       "---" ]
     ++ ((λ tag, let link := tag_file_stem (name tag) in
                 name tag +:+ " (" +:+ str_of_nat (length (items tag)) +:+ ") <"
                 +:+ link +:+ ">")
           <$> sorted name str_ltb tags)
     ++ [ "```"; EmptyString ])
  else
    (os_path_join outdir "tagsindex.rst",
     [ ":orphan:";
       EmptyString;
       ".. _tagoverview:";
       EmptyString;
       title;
       str_repeat "#"%char (String.length title);
       EmptyString;
       ".. toctree::";
       "    :caption: " +:+ tags_index_head;
       "    :maxdepth: 1";
       EmptyString ]
     ++ ((λ tag, let link := tag_file_stem (name tag) in
                 "    " +:+ name tag +:+ " (" +:+ str_of_nat (length (items tag))
                 +:+ ") <" +:+ link +:+ ".rst>")
           <$> sorted name str_ltb tags)
     ++ [ EmptyString ]).

Definition tagpage (tags : list (string * Tag)) (outdir title : string)
    (extension : list string) (tags_index_head : string) : M unit :=
  let '(filename, content) := tagpage_content tags outdir title extension tags_index_head in
  open_write filename (str_join NL content).

(** ** [assign_entries] and [update_tags] *)

(** The body of the second loop of [assign_entries]. *)
Definition assign_entry (acc : list (string * Tag) * list Entry) (entrypath : string)
    : M (list (string * Tag) * list Entry) :=
  let* entry := Entry_init entrypath in
  ret (assign_to_tags entry acc.1, acc.2 ++ [entry]).

(** The first loop of [assign_entries]: what the globs find, extension
    after extension. *)
Definition discover (app : App) : M (list string) :=
  mfold (tags_extension (config app))
        (λ result extension,
           let* found := glob_recursive (srcdir app) extension in
           ret (result ++ found))
        [].

Definition assign_entries (app : App) : M (list (string * Tag) * list Entry) :=
  let* result := discover app in
  mfold result assign_entry ([], []).

(** The pages for the tags, then the overview: the part of [update_tags]
    that follows the clean-up. *)
Definition generate (app : App) (tags_output_dir : Path) : M unit :=
  let* (all_tags, pages) := assign_entries app in
  let* _ :=
    mfor (dict_values all_tags) (λ tag,
      create_file tag
        (filter (λ item, name tag ∈ tags item) pages)
        (tags_extension (config app))
        tags_output_dir
        (srcdir app)
        (tags_page_title (config app))
        (tags_page_header (config app))) in
  tagpage all_tags
    (os_path_join (srcdir app) (as_posix tags_output_dir))
    (tags_overview_title (config app))
    (tags_extension (config app))
    (tags_index_head (config app)).

(** The clean-up: make the output directory if it is missing and remove
    what a previous run left there. *)
Definition clean (app : App) (tags_output_dir : Path) : M unit :=
  let outdir := os_path_join (srcdir app) (as_posix tags_output_dir) in
  let* ex := os_path_exists outdir in
  let* _ := if negb ex then os_makedirs outdir else ret tt in
  let* files := os_listdir outdir in
  mfor files (λ file,
    if str_endswith file "md" || str_endswith file "rst"
    then os_remove (join3 (srcdir app) tags_output_dir file)
    else ret tt).

(** [update_tags]; the two log lines leave no trace in the file system. *)
Definition update_tags (app : App) : M unit :=
  if tags_create_tags (config app) then
    let tags_output_dir := Path_of (tags_output_dir (config app)) in
    let* _ := clean app tags_output_dir in
    generate app tags_output_dir
  else ret tt.

(** ** [TagLinks.run] and its two node builders

    The directive hands docutils nodes to the host.  Of docutils the model
    keeps the three node classes that [run] builds itself: the inline
    text, the reference and the paragraph that holds them.  The nodes of a
    badge are those that sphinx-design's [XRefBadgeRole] returns, a
    parameter like [fnmatch].  The line number and the inliner that the
    role also receives belong to the host's parser and are not modelled. *)
Inductive doc_node :=
| nodes_inline (text : string)
| nodes_reference (refuri text : string).

Record paragraph := nodes_paragraph { classes : list string; children : list doc_node }.

(** [p / s] *)
Definition Path_div (p : Path) (s : string) : Path :=
  let q := Path_of s in
  if absolute q then q
  else {| absolute := absolute p; parts := parts p ++ parts q |}.

(** [p.parent] *)
Definition Path_parent (p : Path) : Path :=
  {| absolute := absolute p; parts := removelast (parts p) |}.

(** The class attribute [separator]. *)
Definition separator : ascii := ","%char.

Section TagLinksRun.
Variable fnmatch : string → string → bool.
(** [XRefBadgeRole(color)(name=..., rawtext=..., text=..., ...)[0]] *)
Variable XRefBadgeRole : string → string → string → string → list doc_node.

(** [TagLinks._get_plaintext_node] *)
Definition _get_plaintext_node (tag : string) (relative_tag_dir : Path) : doc_node :=
  let link := Path_div relative_tag_dir (tag_file_stem tag +:+ ".html") in
  nodes_reference (as_posix link) tag.

(** [TagLinks._get_badge_node] *)
Definition _get_badge_node (cfg : Config) (tag : string) (relative_tag_dir : Path)
    : list doc_node :=
  let tag_ref :=
    tag +:+ " <" +:+ as_posix relative_tag_dir +:+ "/" +:+ tag_file_stem tag +:+ ">" in
  let tag_color := _get_tag_color fnmatch cfg tag in
  let tag_badge := XRefBadgeRole tag_color in
  tag_badge ("bdg-ref-" +:+ tag_color) tag tag_ref.

(** The body of the loop of [run]: the children of the paragraph so far
    and [count] go in and come out.  [docpath] is
    [self.env.doc2path(self.env.docname)]. *)
Definition run_body (app : App) (docpath : string) (tag_dir : Path) (len_tags : nat)
    (st : list doc_node * nat) (tag : string) : list doc_node * nat :=
  let '(result, count) := st in
  let count := count + 1 in
  let current_doc_dir := Path_parent (Path_of docpath) in
  let relative_tag_dir :=
    Path_of (os_path_relpath (as_posix tag_dir) (as_posix current_doc_dir)) in
  let '(result, tag_separator) :=
    if tags_create_badges (config app)
    then (result ++ _get_badge_node (config app) tag relative_tag_dir, " ")
    else (result ++ [_get_plaintext_node tag relative_tag_dir], String separator " ") in
  let result :=
    if negb (count =? len_tags) then result ++ [nodes_inline tag_separator] else result in
  (result, count).

(** [TagLinks.run]; [arguments0] is [self.arguments[0]]. *)
Definition run (app : App) (arguments0 docpath : string) : list paragraph :=
  let tags := str_strip <$> str_split separator arguments0 in
  let tag_dir := Path_div (Path_of (srcdir app)) (tags_output_dir (config app)) in
  let result := [nodes_inline (tags_intro_text (config app) +:+ " ")] in
  let '(result, _) :=
    foldl (run_body app docpath tag_dir (length tags)) (result, 0) tags in
  [nodes_paragraph ["tags"] result].
End TagLinksRun.

(** ** Vocabulary of the statements *)


(** The registry invariant: a tag is stored under its name, and every
    entry among its items declares it. *)
Definition registry_ok (tag_dict : list (string * Tag)) : Prop :=
  ∀ k t, (k, t) ∈ tag_dict → name t = k ∧ ∀ e, e ∈ items t → k ∈ tags e.

(** The single registrations that building the registry of [pages]
    performs, in order: one for every declared tag of every entry. *)
Definition registrations (pages : list Entry) : list (Entry * string) :=
  e ← pages; (λ t, (e, t)) <$> tags e.

(** The registry before and after each of these registrations. *)
Fixpoint registry_trace (tag_dict : list (string * Tag)) (steps : list (Entry * string))
    : list (list (string * Tag)) :=
  tag_dict ::
  match steps with
  | [] => []
  | (e, t) :: steps' => registry_trace (assign_to_tag e tag_dict t) steps'
  end.

(** The registry that [assign_entries] builds from the entries [pages]. *)
Definition registry_of (pages : list Entry) : list (string * Tag) :=
  foldl (λ tag_dict e, assign_to_tags e tag_dict) [] pages.


(** A match attempt hands to its continuation a state further in the
    text, by a number of characters that the text still holds. *)
Definition advance (st st' : mstate) : Prop :=
  ∃ n, m_pos st' = m_pos st + n ∧ m_rest st' = str_drop n (m_rest st)
       ∧ n ≤ String.length (m_rest st).

(** The pattern matches [text] at the span of [m], capturing [group1 m]. *)
Definition matches_at (r : regex) (text : string) (m : Match) : Prop :=
  rmatch r (mkMstate (m_start m) (str_drop (m_start m) text) EmptyString) Some
  = Some (mkMstate (m_end m) (str_drop (m_end m) text) (group1 m)).

(** The pattern does not match [text] at position [p]. *)
Definition no_match_at (r : regex) (text : string) (p : nat) : Prop :=
  rmatch r (mkMstate p (str_drop p text) EmptyString) Some = None.

(** [ms] are the matches of a search of [text] from position [from] on:
    each is the leftmost match that starts at or after the end of the one
    before it, and no match is left after the last. *)
Inductive scans (r : regex) (text : string) : nat → list Match → Prop :=
| scans_nil from :
    (∀ p, from ≤ p ≤ String.length text → no_match_at r text p) →
    scans r text from []
| scans_cons from m ms :
    from ≤ m_start m ≤ m_end m →
    m_end m ≤ String.length text →
    (∀ p, from ≤ p < m_start m → no_match_at r text p) →
    matches_at r text m →
    scans r text (m_end m `max` S (m_start m)) ms →
    scans r text from (m :: ms).

(** The file name ends in one of the three supported extensions. *)
Definition supported_name (n : string) : bool :=
  str_endswith n ".rst" || str_endswith n ".md" || str_endswith n ".ipynb".

(** [sub in s] *)
Fixpoint str_contains (sub s : string) : bool :=
  str_startswith s sub ||
  match s with
  | String _ s' => str_contains sub s'
  | EmptyString => false
  end.

(** The file at [entrypath] can be opened and read. *)
Definition readable (fs : FS) (entrypath : string) : Prop :=
  ∃ text, open_read (as_posix (Path_of entrypath)) fs = (fs, Ok text).

(** How many times entry [e] declares tag [t]; how many times [x] occurs
    in a list. *)
Definition declarations (t : string) (e : Entry) : nat :=
  length (filter (λ x, x = t) (tags e)).

Definition occurrences {A} `{EqDecision A} (x : A) (l : list A) : nat :=
  length (filter (λ y, y = x) l).

(** The items that the registrations of [pages] append to tag [t]: every
    entry once for each of its declarations of [t]. *)
Definition declared_items (t : string) (pages : list Entry) : list Entry :=
  e ← pages; replicate (declarations t e) e.

(** Appending [l] to the items of a tag that may not exist yet. *)
Definition grow (t : string) (o : option Tag) (l : list Entry) : option Tag :=
  match l with
  | [] => o
  | _ => Some {| name := name (default (Tag_init t) o);
                 items := items (default (Tag_init t) o) ++ l |}
  end.

(** The row of a tag in the overview page. *)
Definition overview_row (extension : list string) (tag : Tag) : string :=
  if bool_decide ("md" ∈ extension) then
    name tag +:+ " (" +:+ str_of_nat (length (items tag)) +:+ ") <"
    +:+ str_replace " "%char "_"%char (name tag) +:+ ">"
  else
    "    " +:+ name tag +:+ " (" +:+ str_of_nat (length (items tag)) +:+ ") <"
    +:+ str_replace " "%char "_"%char (name tag) +:+ ".rst>".

(** The line of a document in a tag page. *)
Definition entry_line (extension : list string) (srcdir : string) (item : Entry) : string :=
  (if bool_decide ("md" ∈ extension) then "../" else "    ../") +:+ relpath_of srcdir item.

(** The documents of a tag page in the order in which it lists them, and
    what the page holds before and after them. *)
Definition listed_items (extension : list string) (items : list Entry) : list Entry :=
  if bool_decide ("md" ∈ extension) then items else sorted filepath Path_ltb items.

Definition page_head (extension : list string) (name title header : string) : list string :=
  if bool_decide ("md" ∈ extension) then
    [ "# " +:+ title +:+ ": " +:+ name; EmptyString; "```{toctree}"; "---";
      "maxdepth: 1"; "caption: " +:+ header; "---" ]
  else
    [ title +:+ ": " +:+ name;
      str_repeat "#"%char (String.length name + String.length title + 2);
      EmptyString; ".. toctree::"; "    :maxdepth: 1";
      "    :caption: " +:+ header; EmptyString ].

Definition page_foot (extension : list string) : list string :=
  if bool_decide ("md" ∈ extension) then [ "```"; EmptyString ] else [ EmptyString ].

(** A proper name of a directory entry. *)
Definition clean_name (n : string) : bool :=
  negb (bool_decide (n = EmptyString)) && negb (bool_decide (n = "."))
  && negb (bool_decide (n = "..")) && negb (str_mem slash n).

(** Every path of the file system is made of proper names. *)
Definition fs_wf (fs : FS) : Prop :=
  ∀ p, is_Some (fs !! p) → Forall (λ n, clean_name n = true) p.

(** The two file systems have the same directories. *)
Definition same_dirs (fs fs' : FS) : Prop :=
  ∀ q, node_at fs q = Some Dir ↔ node_at fs' q = Some Dir.

(** The path resolves to the node [q]. *)
Definition resolves_to (fs : FS) (path : string) (q : list string) : bool :=
  match resolve fs path with
  | Ok p => bool_decide (p = q)
  | Raise _ => false
  end.

(** What the last of the writes [ws] (path and content) that goes to the
    node [q] puts there. *)
Fixpoint last_write (fs : FS) (ws : list (string * string)) (q : list string)
    : option string :=
  match ws with
  | [] => None
  | w :: ws' =>
      match last_write fs ws' q with
      | Some c => Some c
      | None => if resolves_to fs w.1 q then Some w.2 else None
      end
  end.

(** The name that [update_tags] removes from the output directory. *)
Definition removable (file : string) : bool :=
  str_endswith file "md" || str_endswith file "rst".

(** The output directory, the path of a tag's page and of the overview. *)
Definition outdir_of (app : App) : string :=
  os_path_join (srcdir app) (as_posix (Path_of (tags_output_dir (config app)))).

Definition dialect (app : App) : string :=
  if bool_decide ("md" ∈ tags_extension (config app)) then "md" else "rst".

Definition tag_page_path (app : App) (t : string) : string :=
  os_path_join (outdir_of app) (tag_file_stem t +:+ "." +:+ dialect app).

Definition overview_path (app : App) : string :=
  os_path_join (outdir_of app) ("tagsindex." +:+ dialect app).

(** The writes of [generate], in order: the pages of the tags, then the
    overview. *)
Definition tag_write (app : App) (pages : list Entry) (tag : Tag) : string * string :=
  let page :=
    create_file_content tag (filter (λ item, name tag ∈ tags item) pages)
      (tags_extension (config app)) (srcdir app)
      (tags_page_title (config app)) (tags_page_header (config app)) in
  (os_path_join (outdir_of app) page.1, str_join NL page.2).

Definition overview_write (app : App) (all_tags : list (string * Tag)) : string * string :=
  let page :=
    tagpage_content all_tags (outdir_of app) (tags_overview_title (config app))
      (tags_extension (config app)) (tags_index_head (config app)) in
  (page.1, str_join NL page.2).

Definition page_writes (app : App) (all_tags : list (string * Tag)) (pages : list Entry)
    : list (string * string) :=
  (tag_write app pages <$> dict_values all_tags) ++ [overview_write app all_tags].

Definition write_all (ws : list (string * string)) : M unit :=
  mfor ws (λ w, open_write w.1 w.2).

(** The file system without the removable names of directory [d] that
    are in [names]. *)
Definition swept (d : list string) (names : list string) (fs : FS) : FS :=
  foldl (λ fs n, if removable n then delete (d ++ [n]) fs else fs) fs names.

(** The path is one that Python and the kernel take. *)
Definition accepted (path : string) : bool :=
  match path_error path with
  | None => true
  | Some _ => false
  end.

(** A file or a directory of the name [n] can be made in the directory
    at [dir]: the name is one that a directory can hold, and the joined
    path is taken. *)
Definition name_fits (dir n : string) : bool :=
  negb (too_long n) && accepted (os_path_join dir n).

(** A file can be written at [path], which leads to the node [p]: the
    path is taken, it resolves, no directory is in the way, and a file
    that is not there yet gets a name that a directory can hold. *)
Definition writable (fs : FS) (path : string) (p : list string) : Prop :=
  path_error path = None ∧ resolve fs path = Ok p ∧ node_at fs p ≠ Some Dir
  ∧ (node_at fs p = None → too_long (List.last p EmptyString) = false).

(** The output directory lies directly in the source directory. *)
Definition outdir_in_srcdir (app : App) : Prop :=
  removelast (abs_components (outdir_of app)) = abs_components (srcdir app).

(** The strings of a list without repetition, each where it first
    occurs. *)
Fixpoint distinct (l : list string) : list string :=
  match l with
  | [] => []
  | x :: l' => x :: filter (λ y, y ≠ x) (distinct l')
  end.

(** The tags that the entries declare, in the order of the documents and
    of their declarations. *)
Definition declared_tags (pages : list Entry) : list string := e ← pages; tags e.

(** The text that opens a tag declaration in a file of the given name. *)
Definition marker_of (n : string) : string :=
  if str_endswith n ".rst" then ".. tags::"
  else if str_endswith n ".md" then "```{tags}"
  else DQ +:+ ".. tags::".

(** The groups of nodes in a row, [sep] between two neighbours. *)
Fixpoint separated {A} (sep : A) (groups : list (list A)) : list A :=
  match groups with
  | [] => []
  | g :: rest =>
      match rest with
      | [] => g
      | _ => g ++ sep :: separated sep rest
      end
  end.

(** The output directory as [run] sees it from the directory of the
    document at [docpath]. *)
Definition doc_tag_dir (app : App) (docpath : string) : Path :=
  Path_of (os_path_relpath
             (as_posix (Path_div (Path_of (srcdir app)) (tags_output_dir (config app))))
             (as_posix (Path_parent (Path_of docpath)))).

(** The components of a parsed path: not empty, not [.], without a
    slash. *)
Definition Path_ok (p : Path) : Prop :=
  Forall (λ c, path_component c = true ∧ str_mem slash c = false) (parts p).

Global Instance node_eq_dec : EqDecision node.
Proof. solve_decision. Defined.

(** ** Worked inputs *)

(** A project in [/docs] with the default configuration, generation
    switched on, scanning the given extensions. *)
Definition project (extension : list string) : App :=
  {| srcdir := "/docs";
     config := {| tags_create_tags := true;
                  tags_output_dir := "_tags";
                  tags_overview_title := "Tags overview";
                  tags_extension := extension;
                  tags_intro_text := "Tags:";
                  tags_page_title := "My tags";
                  tags_page_header := "With this tag";
                  tags_index_head := "Tags";
                  tags_create_badges := false;
                  tags_badge_colors := Some [] |} |}.

(** A source directory that holds the given files. *)
Definition docs (files : list (string * string)) : FS :=
  list_to_map ((["docs"], Dir) :: ((λ f, (["docs"; f.1], File f.2)) <$> files)).

(** Two documents: one tagged Alpha and Beta, one tagged Beta. *)
Definition doc_a : string :=
  "Title" +:+ NL +:+ NL +:+ ".. tags:: Alpha, Beta" +:+ NL +:+ NL +:+ "Text.".

Definition two_docs : FS := docs [ ("a.rst", doc_a); ("b.rst", ".. tags:: Beta" +:+ NL) ].

(** A document whose tag is named like the overview page. *)
Definition overview_clash : FS := docs [ ("a.rst", ".. tags:: tagsindex" +:+ NL) ].

(** A document whose tag leads out of the output directory. *)
Definition escaping_tag : FS := docs [ ("foo.rst", ".. tags:: ../foo" +:+ NL) ].

(** A document that declares a tag twice, and another that declares it
    once. *)
Definition repeated_tag : FS :=
  docs [ ("a.rst", ".. tags:: x, x" +:+ NL); ("b.rst", ".. tags:: x" +:+ NL) ].

(** A document that declares a tag twice, alone. *)
Definition repeated_alone : FS := docs [ ("a.rst", ".. tags:: x, x" +:+ NL) ].

(** One document with one tag. *)
Definition one_doc : FS := docs [ ("a.rst", ".. tags:: x" +:+ NL) ].

(** A source directory without documents, with its output directory. *)
Definition empty_output : FS := <[ ["docs"; "_tags"] := Dir ]> (docs []).

(** A document that declares twice a tag named like the overview
    page. *)
Definition repeated_clash : FS :=
  docs [ ("a.rst", ".. tags:: tagsindex, tagsindex" +:+ NL) ].

(** The project with its pages two levels below the source directory. *)
Definition nested_project : App :=
  {| srcdir := "/docs";
     config := {| tags_create_tags := true;
                  tags_output_dir := "out/tags";
                  tags_overview_title := "Tags overview";
                  tags_extension := ["rst"];
                  tags_intro_text := "Tags:";
                  tags_page_title := "My tags";
                  tags_page_header := "With this tag";
                  tags_index_head := "Tags";
                  tags_create_badges := false;
                  tags_badge_colors := Some [] |} |}.

(** A text file among the sources. *)
Definition with_text_file : FS :=
  docs [ ("a.md", "```{tags} x```" +:+ NL); ("notes.txt", "plain") ].

(** A document without a tag declaration. *)
Definition untagged : FS := docs [ ("a.rst", "Title" +:+ NL +:+ NL +:+ "Text." +:+ NL) ].

(** A directory named like a document, beside a document. *)
Definition directory_document : FS :=
  <[ ["docs"; "sub.rst"] := Dir ]> (docs [ ("a.rst", ".. tags:: x" +:+ NL) ]).

(** An output directory that holds an old page, a text file and a
    directory whose name ends in [rst]. *)
Definition blocked_cleanup : FS :=
  <[ ["docs"; "_tags"; "first"] := Dir ]>
    (<[ ["docs"; "_tags"] := Dir ]>
       (docs [ ("a.rst", ".. tags:: x" +:+ NL) ])).

(** The two documents after an earlier build for a tag that is no longer
    declared, with a text file in the output directory. *)
Definition stale_page : FS :=
  <[ ["docs"; "_tags"; "Gamma.rst"] := File "old" ]>
    (<[ ["docs"; "_tags"; "notes.txt"] := File "keep" ]>
       (<[ ["docs"; "_tags"] := Dir ]> two_docs)).

(** A notebook: in the file, the line of a cell ends in a backslash,
    an [n] and a double quote. *)
Definition notebook : FS :=
  docs [ ("n.ipynb", "  " +:+ DQ +:+ ".. tags:: a, b\n" +:+ DQ +:+ "," +:+ NL) ].

(** A stand-in for the role of sphinx-design: one reference that records
    what the role was given. *)
Definition role_stub (color name rawtext text : string) : list doc_node :=
  [ nodes_reference (name +:+ " " +:+ text) rawtext ].

(** The entry of a document, as [Entry.__init__] leaves it. *)
Definition entry_of (fs : FS) (entrypath : string) : Entry :=
  match Entry_init entrypath fs with
  | (_, Ok e) => e
  | (_, Raise _) => {| filepath := Path_of entrypath; lines := []; tags := [] |}
  end.

(** Three entries with paths out of order. *)
Definition three_items : list Entry :=
  [ {| filepath := Path_of "/docs/c.rst"; lines := []; tags := ["t"] |};
    {| filepath := Path_of "/docs/a/z.rst"; lines := []; tags := ["t"] |};
    {| filepath := Path_of "/docs/a-b.rst"; lines := []; tags := ["t"] |} ].

(** * Properties *)

(** ** Strings *)



















(** ** [sorted] returns the stable sorted permutation *)

Section SortedFacts.
Context {A K : Type} (key : A → K) (ltb : K → K → bool).
Hypothesis ltb_irrefl : ∀ a, ltb a a = false.
Hypothesis ltb_asym : ∀ a b, ltb a b = true → ltb b a = false.
Hypothesis le_trans : ∀ a b c, ltb b a = false → ltb c b = false → ltb c a = false.

Lemma sorted_insert_perm x l : sorted_insert key ltb x l ≡ₚ x :: l.
Proof.
  induction l as [|y l IH]; simpl; [done|].
  destruct (ltb (key y) (key x)); [|done].
  rewrite IH. apply Permutation_swap.
Qed.

Lemma sorted_perm l : sorted key ltb l ≡ₚ l.
Proof.
  induction l as [|x l IH]; simpl; [done|].
  rewrite sorted_insert_perm. by rewrite IH.
Qed.



End SortedFacts.

(** ** The colour of a tag *)

Lemma get_tag_color_loop_spec (fnmatch : string → string → bool) tag items :
  (∃ before pattern color after,
      items = before ++ (pattern, color) :: after ∧
      Forall (λ pc, fnmatch tag pc.1 = false) before ∧
      fnmatch tag pattern = true ∧
      _get_tag_color_loop fnmatch tag items = color)
  ∨ (Forall (λ pc, fnmatch tag pc.1 = false) items ∧
     _get_tag_color_loop fnmatch tag items = "primary").
Proof.
  induction items as [|[p c] items IH]; simpl.
  - right. by split.
  - destruct (fnmatch tag p) eqn:Hp.
    + left. exists [], p, c, items. by repeat split.
    + destruct IH as [(before & p' & c' & after & -> & Hb & Hp' & Hc)|[Hall Hc]].
      * left. exists ((p, c) :: before), p', c', after.
        repeat split; [by constructor|done|done].
      * right. split; [by constructor|done].
Qed.

(** C8. In badge mode the colour of a tag is that of the first pattern of
    the configured mapping, taken in the mapping's iteration order, that
    the tag's name matches; when no pattern matches, or when the mapping is
    empty or unset, it is the token [primary]. *)
Theorem get_tag_color_first_match (fnmatch : string → string → bool)
    (cfg : Config) (tag : string) :
  let tag_colors := default [] (tags_badge_colors cfg) in
  (∃ before pattern color after,
      tag_colors = before ++ (pattern, color) :: after ∧
      Forall (λ pc, fnmatch tag pc.1 = false) before ∧
      fnmatch tag pattern = true ∧
      _get_tag_color fnmatch cfg tag = color)
  ∨ (Forall (λ pc, fnmatch tag pc.1 = false) tag_colors ∧
     _get_tag_color fnmatch cfg tag = "primary").
Proof.
  unfold _get_tag_color. destruct (tags_badge_colors cfg) as [[|x l]|]; simpl.
  - right. by split.
  - apply (get_tag_color_loop_spec fnmatch tag (x :: l)).
  - right. by split.
Qed.


(** ** Dictionaries *)

Lemma elem_of_dict_set {V} k0 (v0 : V) d k v :
  (k, v) ∈ dict_set k0 v0 d → (k, v) ∈ d ∨ (k = k0 ∧ v = v0).
Proof.
  induction d as [|[k' v'] d IH]; simpl.
  - intros H. apply list_elem_of_singleton in H. right. by simplify_eq.
  - destruct (decide (k0 = k')) as [->|Hne].
    + intros [H|H]%elem_of_cons; [right; by simplify_eq|left; by right].
    + intros [H|H]%elem_of_cons; [simplify_eq; left; by left|].
      destruct (IH H) as [?|?]; [left; by right|by right].
Qed.

Lemma elem_of_dict_update {V} (f : V → V) k0 d k v :
  (k, v) ∈ dict_update f k0 d →
  (k, v) ∈ d ∨ (k = k0 ∧ ∃ v0, (k0, v0) ∈ d ∧ v = f v0).
Proof.
  induction d as [|[k' v'] d IH]; simpl; [by left|].
  destruct (decide (k0 = k')) as [->|Hne].
  - intros [H|H]%elem_of_cons; [|left; by right].
    simplify_eq. right. split; [done|]. exists v'. split; [by left|done].
  - intros [H|H]%elem_of_cons; [simplify_eq; left; by left|].
    destruct (IH H) as [?|(-> & v0 & ? & ->)]; [left; by right|].
    right. split; [done|]. exists v0. split; [by right|done].
Qed.

Lemma dict_get_set {V} k0 (v0 : V) d k :
  dict_get k (dict_set k0 v0 d) = if decide (k = k0) then Some v0 else dict_get k d.
Proof.
  induction d as [|[k' v'] d IH]; simpl.
  - by destruct (decide (k = k0)).
  - destruct (decide (k0 = k')) as [->|Hne]; simpl.
    + by destruct (decide (k = k')).
    + rewrite IH. destruct (decide (k = k')) as [->|]; [|done].
      by rewrite decide_False by done.
Qed.

Lemma dict_get_update {V} (f : V → V) k0 d k :
  dict_get k (dict_update f k0 d)
  = if decide (k = k0) then f <$> dict_get k d else dict_get k d.
Proof.
  induction d as [|[k' v'] d IH]; simpl.
  - by destruct (decide (k = k0)).
  - destruct (decide (k0 = k')) as [->|Hne]; simpl.
    + by destruct (decide (k = k')).
    + rewrite IH. destruct (decide (k = k')) as [->|]; [|done].
      by rewrite decide_False by done.
Qed.

Lemma dict_get_elem_of {V} k (v : V) d : dict_get k d = Some v → (k, v) ∈ d.
Proof.
  induction d as [|[k' v'] d IH]; simpl; [done|].
  destruct (decide (k = k')) as [->|]; [intros [= ->]; by left|].
  intros H. right. by apply IH.
Qed.

Lemma dict_get_keys {V} k (d : list (string * V)) : is_Some (dict_get k d) ↔ k ∈ d.*1.
Proof.
  induction d as [|[k' v'] d IH]; simpl.
  - split; [by intros [? ?]|by intros ?%elem_of_nil].
  - destruct (decide (k = k')) as [->|Hne].
    + split; [intros _; by left|by eauto].
    + rewrite IH. split; [by right|]. by intros [?|?]%elem_of_cons.
Qed.

(** ** The registry *)

(** What one registration does to the dictionary: the tag named [tag] gets
    [self] appended to its items (it is created, empty, if it was not
    there), and no other tag is touched. *)
Lemma assign_to_tag_get self d tag k :
  dict_get k (assign_to_tag self d tag)
  = if decide (k = tag)
    then Some (let t := default (Tag_init tag) (dict_get tag d) in
               {| name := name t; items := items t ++ [self] |})
    else dict_get k d.
Proof.
  unfold assign_to_tag, dict_mem. rewrite dict_get_update.
  destruct (dict_get tag d) as [t|] eqn:Ht; simpl.
  - destruct (decide (k = tag)) as [->|]; [by rewrite Ht|done].
  - rewrite dict_get_set. destruct (decide (k = tag)); done.
Qed.

Lemma assign_to_tag_ok self d tag :
  tag ∈ tags self → registry_ok d → registry_ok (assign_to_tag self d tag).
Proof.
  intros Htag Hd k t Hin. unfold assign_to_tag in Hin.
  apply elem_of_dict_update in Hin as [Hin|(-> & t0 & Hin & ->)].
  - destruct (dict_mem tag d); [by apply Hd|].
    apply elem_of_dict_set in Hin as [Hin|[-> ->]]; [by apply Hd|].
    split; [done|]. by intros e ?%elem_of_nil.
  - assert (name t0 = tag ∧ ∀ e, e ∈ items t0 → tag ∈ tags e) as [Hn Hi].
    { destruct (dict_mem tag d); [by apply Hd|].
      apply elem_of_dict_set in Hin as [Hin|[_ ->]]; [by apply Hd|].
      split; [done|]. by intros e ?%elem_of_nil. }
    simpl. split; [done|].
    intros e [He|He%list_elem_of_singleton]%elem_of_app; [by apply Hi|by subst].
Qed.

Lemma registry_trace_ok steps : ∀ d,
  registry_ok d → Forall (λ et, et.2 ∈ tags et.1) steps →
  Forall registry_ok (registry_trace d steps).
Proof.
  induction steps as [|[e t] steps IH]; intros d Hd Hs; simpl.
  - constructor; [done|constructor].
  - apply Forall_cons in Hs as [Ht Hs]. constructor; [done|].
    apply IH; [|done]. by apply assign_to_tag_ok.
Qed.

Lemma registrations_declared pages : Forall (λ et, et.2 ∈ tags et.1) (registrations pages).
Proof.
  apply Forall_forall. intros [e t] Hin. unfold registrations in Hin.
  apply list_elem_of_bind in Hin as (e' & Hin & _).
  apply list_elem_of_fmap in Hin as (t' & [= -> ->] & Ht). done.
Qed.

Lemma registry_trace_last steps : ∀ d x,
  List.last (registry_trace d steps) x = foldl (λ d et, assign_to_tag et.1 d et.2) d steps.
Proof.
  induction steps as [|[e t] steps IH]; intros d x; [done|].
  cbn [foldl]. rewrite <- (IH _ x). by destruct steps as [|[e' t'] steps].
Qed.

Lemma foldl_registrations pages : ∀ d,
  foldl (λ d e, assign_to_tags e d) d pages
  = foldl (λ d et, assign_to_tag et.1 d et.2) d (registrations pages).
Proof.
  induction pages as [|e pages IH]; intros d; [done|].
  unfold registrations in *. simpl. rewrite foldl_app, <- IH. f_equal.
  unfold assign_to_tags. generalize (tags e) as ts. clear.
  intros ts. revert d. induction ts as [|t ts IH]; intros d; simpl; [done|]. apply IH.
Qed.

(** Reading the sources does not change the file system. *)
Lemma open_read_fs path fs : (open_read path fs).1 = fs.
Proof.
  unfold open_read. destruct (resolve fs path); [|done].
  by destruct (node_at fs a) as [[]|].
Qed.

Lemma Entry_init_fs entrypath fs : (Entry_init entrypath fs).1 = fs.
Proof.
  unfold Entry_init, bind. pose proof (open_read_fs (as_posix (Path_of entrypath)) fs) as H.
  destruct (open_read _ fs) as [fs' [text|e]]; simpl in H; subst; [|done].
  unfold bind, ret, raise.
  by repeat (destruct (str_endswith _ _)).
Qed.

Lemma assign_entry_eq acc p fs :
  assign_entry acc p fs
  = match Entry_init p fs with
    | (fs', Ok e) => (fs', Ok (assign_to_tags e acc.1, acc.2 ++ [e]))
    | (fs', Raise x) => (fs', Raise x)
    end.
Proof. done. Qed.

Lemma mfold_assign_entry result : ∀ acc fs,
  (mfold result assign_entry acc fs).1 = fs ∧
  ∀ d pages, (mfold result assign_entry acc fs).2 = Ok (d, pages) →
    ∃ es, pages = acc.2 ++ es ∧ d = foldl (λ d e, assign_to_tags e d) acc.1 es.
Proof.
  induction result as [|p result IH]; intros acc fs; simpl.
  - split; [done|]. intros d pages [= ->]. exists []. simpl. by rewrite app_nil_r.
  - unfold bind. rewrite !assign_entry_eq.
    pose proof (Entry_init_fs p fs) as Hfs.
    destruct (Entry_init p fs) as [fs' [e|x]]; simpl in Hfs; subst; [|done].
    destruct (IH (assign_to_tags e acc.1, acc.2 ++ [e]) fs) as [H1 H2].
    split; [done|]. intros d pages Hr. destruct (H2 d pages Hr) as (es & -> & ->).
    exists (e :: es). simpl. by rewrite <- app_assoc.
Qed.

Lemma glob_recursive_fs dir ext fs : (glob_recursive dir ext fs).1 = fs.
Proof.
  unfold glob_recursive. destruct (resolve fs dir) as [d|e]; [|done].
  by destruct (is_dir fs d).
Qed.

Lemma discover_fs app fs : (discover app fs).1 = fs.
Proof.
  unfold discover. generalize (@nil string) as acc.
  induction (tags_extension (config app)) as [|x exts IH]; intros acc; simpl; [done|].
  unfold bind at 1 2. pose proof (glob_recursive_fs (srcdir app) x fs) as H.
  destruct (glob_recursive _ _ fs) as [fs' [found|e]]; simpl in H; subst; [|done].
  apply IH.
Qed.

Lemma assign_entries_fs app fs : (assign_entries app fs).1 = fs.
Proof.
  unfold assign_entries, bind. pose proof (discover_fs app fs) as Hd.
  destruct (discover app fs) as [fs' [result|e]]; simpl in Hd; subst; [|done].
  apply mfold_assign_entry.
Qed.

Lemma mfold_assign_entry_paths result : ∀ acc fs d pages,
  (mfold result assign_entry acc fs).2 = Ok (d, pages) →
  filepath <$> pages = (filepath <$> acc.2) ++ (Path_of <$> result).
Proof.
  induction result as [|p result IH]; intros acc fs d pages; simpl.
  - intros [= ->]. simpl. by rewrite app_nil_r.
  - unfold bind. rewrite assign_entry_eq.
    destruct (Entry_init p fs) as [fs' [e|x]] eqn:He; [|done].
    intros H. apply IH in H. rewrite H. simpl. rewrite fmap_app, <- app_assoc. simpl.
    do 3 f_equal. unfold Entry_init, bind in He.
    destruct (open_read _ fs) as [fs0 [text|x]]; [|done].
    unfold ret, raise in He. by repeat (destruct (str_endswith _ _)); simplify_eq.
Qed.

(** The entries come in the order in which the globs found their files. *)
Lemma pages_in_discovery_order app fs fs' d pages :
  assign_entries app fs = (fs', Ok (d, pages)) →
  ∃ found, discover app fs = (fs, Ok found) ∧ filepath <$> pages = Path_of <$> found.
Proof.
  intros H. unfold assign_entries, bind in H. pose proof (discover_fs app fs) as Hfs.
  destruct (discover app fs) as [fs1 [found|x]]; simpl in Hfs; subst; [|done].
  exists found. split; [done|].
  apply (mfold_assign_entry_paths found ([], []) fs d pages). by rewrite H.
Qed.

Lemma assign_entries_registry app fs fs' d pages :
  assign_entries app fs = (fs', Ok (d, pages)) → fs' = fs ∧ d = registry_of pages.
Proof.
  intros H. pose proof (assign_entries_fs app fs) as Hfs. rewrite H in Hfs.
  simpl in Hfs. subst. split; [done|].
  unfold assign_entries, bind in H.
  destruct (discover app fs) as [fs' [result|e]]; [|done].
  destruct (mfold_assign_entry result ([], []) fs') as [_ H2].
  rewrite H in H2. destruct (H2 d pages eq_refl) as (es & -> & ->). done.
Qed.

Lemma registry_trace_spec pages :
  Forall registry_ok (registry_trace [] (registrations pages))
  ∧ List.last (registry_trace [] (registrations pages)) [] = registry_of pages.
Proof.
  split.
  - apply registry_trace_ok; [by intros k t ?%elem_of_nil|apply registrations_declared].
  - rewrite registry_trace_last. unfold registry_of. by rewrite foldl_registrations.
Qed.

Lemma registry_of_ok pages : registry_ok (registry_of pages).
Proof.
  destruct (registry_trace_spec pages) as [Hall <-].
  generalize dependent (registry_trace [] (registrations pages)).
  intros l Hl. destruct l as [|x l _] using rev_ind; [by intros k t ?%elem_of_nil|].
  rewrite last_last. apply Forall_app in Hl as [_ Hl]. by inversion Hl.
Qed.

Lemma new_tag_ok d tag :
  registry_ok d → registry_ok (if dict_mem tag d then d else dict_set tag (Tag_init tag) d).
Proof.
  intros Hd. destruct (dict_mem tag d); [done|]. intros k t Hin.
  apply elem_of_dict_set in Hin as [Hin|[-> ->]]; [by apply Hd|].
  split; [done|]. by intros e ?%elem_of_nil.
Qed.

(** C9. The registry invariant holds at every point of the construction:
    in the empty registry; after every single registration, which appends
    the entry to the items of one tag that it declares and touches no
    other tag, and between its two steps, when the tag has been created
    and is still empty; hence in every registry of the trace of a build
    and in the one that [assign_entries] returns. *)
Theorem registry_invariant :
  registry_ok []
  ∧ (∀ self d tag, tag ∈ tags self → registry_ok d →
       registry_ok (if dict_mem tag d then d else dict_set tag (Tag_init tag) d)
       ∧ registry_ok (assign_to_tag self d tag)
       ∧ (items <$> dict_get tag (assign_to_tag self d tag)
          = Some (default [] (items <$> dict_get tag d) ++ [self]))
       ∧ ∀ k, k ≠ tag → dict_get k (assign_to_tag self d tag) = dict_get k d)
  ∧ (∀ pages, Forall registry_ok (registry_trace [] (registrations pages))
       ∧ List.last (registry_trace [] (registrations pages)) [] = registry_of pages)
  ∧ (∀ app fs fs' d pages,
       assign_entries app fs = (fs', Ok (d, pages)) →
       d = registry_of pages ∧ registry_ok d).
Proof.
  split; [by intros k t ?%elem_of_nil|]. split; [|split; [apply registry_trace_spec|]].
  - intros self d tag Htag Hd. split; [by apply new_tag_ok|].
    split; [by apply assign_to_tag_ok|]. split.
    + rewrite assign_to_tag_get, decide_True by done. simpl.
      by destruct (dict_get tag d).
    + intros k Hk. by rewrite assign_to_tag_get, decide_False.
  - intros app fs fs' d pages H. apply assign_entries_registry in H as [_ ->].
    split; [done|apply registry_of_ok].
Qed.


(** ** The pages *)


(** ** Splitting and joining *)

Lemma str_split_nonempty sep s : str_split sep s ≠ [].
Proof.
  destruct s as [|c s]; simpl; [done|].
  destruct (decide (c = sep)); [done|]. by destruct (str_split sep s).
Qed.

Lemma str_join_cons sep x y l : str_join sep (x :: y :: l) = x +:+ sep +:+ str_join sep (y :: l).
Proof. done. Qed.

Lemma str_join_split s : str_join NL (str_split nl s) = s.
Proof.
  induction s as [|c s IH]; simpl; [done|].
  pose proof (str_split_nonempty nl s) as Hne.
  destruct (decide (c = nl)) as [->|Hc].
  - destruct (str_split nl s) as [|h t]; [done|].
    rewrite str_join_cons, IH. done.
  - destruct (str_split nl s) as [|h [|h' t]]; [done|..].
    + simpl in *. by rewrite IH.
    + rewrite str_join_cons in *. rewrite <- IH. done.
Qed.


(** ** The matcher *)

Lemma str_drop_add n : ∀ m s, str_drop (n + m) s = str_drop m (str_drop n s).
Proof.
  induction n as [|n IH]; intros m s; simpl; [done|].
  destruct s as [|c s]; [by destruct m|]. apply IH.
Qed.

Lemma str_drop_length n : ∀ s, String.length (str_drop n s) = String.length s - n.
Proof.
  induction n as [|n IH]; intros s; simpl; [lia|].
  destruct s as [|c s]; simpl; [done|]. apply IH.
Qed.

Lemma str_startswith_length p : ∀ s, str_startswith s p = true → String.length p ≤ String.length s.
Proof.
  induction p as [|a p IH]; intros s; simpl; [lia|].
  destruct s as [|c s]; [done|]. intros [_ H]%andb_prop. apply IH in H. simpl. lia.
Qed.

Lemma str_drop_S n c s : n < String.length (String c s) →
  ∃ d, str_drop n (String c s) = String d (str_drop (S n) (String c s)).
Proof.
  revert c s. induction n as [|n IH]; intros c s Hn; simpl; [by eexists|].
  destruct s as [|c' s]; simpl in Hn; [lia|]. apply IH. simpl. lia.
Qed.

Lemma advance_refl st : advance st st.
Proof. exists 0. split; [lia|]. split; [done|lia]. Qed.

Lemma advance_trans st1 st2 st3 : advance st1 st2 → advance st2 st3 → advance st1 st3.
Proof.
  intros (n & Hp & Hr & Hn) (m & Hp' & Hr' & Hm). exists (n + m).
  rewrite Hr, str_drop_length in Hm.
  split; [lia|]. split; [|lia]. by rewrite str_drop_add, <- Hr.
Qed.

Lemma dots_advance {R} greedy dotall s : ∀ pos cap (k : mstate → option R) x,
  dots greedy dotall pos s cap k = Some x →
  ∃ st', k st' = Some x ∧ advance (mkMstate pos s cap) st'.
Proof.
  induction s as [|c s IH]; intros pos cap k x; simpl.
  - intros H. eexists. split; [done|apply advance_refl].
  - assert (∀ y, dots greedy dotall (S pos) s cap k = Some y →
        ∃ st', k st' = Some y ∧ advance (mkMstate pos (String c s) cap) st') as Hnext.
    { intros y Hy. apply IH in Hy as (st' & Hk & n & Hp & Hr & Hn). exists st'.
      split; [done|]. exists (S n). simpl in *. split; [lia|]. split; [done|lia]. }
    assert (∀ y, k (mkMstate pos (String c s) cap) = Some y →
        ∃ st', k st' = Some y ∧ advance (mkMstate pos (String c s) cap) st') as Hhere.
    { intros y Hy. eexists. split; [done|apply advance_refl]. }
    destruct (dot_ok dotall c); [|by apply Hhere].
    destruct greedy.
    + destruct (dots true dotall (S pos) s cap k) eqn:Hd.
      * intros [= <-]. by apply Hnext.
      * apply Hhere.
    + destruct (k (mkMstate pos (String c s) cap)) eqn:Hk.
      * intros [= <-]. by apply Hhere.
      * apply Hnext.
Qed.

Lemma rmatch_advance r : ∀ {R} st (k : mstate → option R) x,
  rmatch r st k = Some x → ∃ st', k st' = Some x ∧ advance st st'.
Proof.
  induction r as [s| | |r1 IH1 r2 IH2|r1 IH1 r2 IH2|greedy dotall|r IH|r IH];
    intros R st k x; simpl.
  - destruct (str_startswith (m_rest st) s) eqn:Hs; [|done].
    intros H. eexists. split; [done|]. exists (String.length s). simpl.
    split; [done|]. split; [done|]. by apply str_startswith_length.
  - destruct (m_pos st =? 0); [|done]. intros H. eexists. split; [done|apply advance_refl].
  - destruct (_ || _); [|done]. intros H. eexists. split; [done|apply advance_refl].
  - destruct (rmatch r1 st k) eqn:H1.
    + intros [= <-]. by apply IH1.
    + apply IH2.
  - intros H. apply IH1 in H as (st1 & H & Ha1). apply IH2 in H as (st2 & H & Ha2).
    exists st2. split; [done|]. by eapply advance_trans.
  - intros H. destruct st as [pos s cap]. by apply dots_advance in H.
  - intros H. apply IH in H as (st1 & H & (n & Hp & Hr & Hn)).
    eexists. split; [exact H|]. exists n. by simpl.
  - destruct (rmatch r st (λ _, Some ())); [|done].
    intros H. eexists. split; [done|apply advance_refl].
Qed.

(** ** [finditer] finds the leftmost non-overlapping matches *)

Lemma scans_extend r text p ms :
  no_match_at r text p → scans r text (S p) ms → scans r text p ms.
Proof.
  intros Hp Hs. inversion Hs as [from Hnone|from m ms' Hord Hend Hnone Hm Hrest]; subst.
  - constructor. intros q Hq. destruct (decide (q = p)) as [->|]; [done|]. apply Hnone. lia.
  - constructor; [lia|done| |done|done].
    intros q Hq. destruct (decide (q = p)) as [->|]; [done|]. apply Hnone. lia.
Qed.

Lemma scan_scans r text s : ∀ skip pos,
  s = str_drop pos text → pos + String.length s = String.length text →
  scans r text (pos + skip) (scan r skip pos s).
Proof.
  induction s as [|c s IH]; intros skip pos Hs Hlen; simpl in Hlen.
  - destruct skip as [|n]; simpl.
    + rewrite Nat.add_0_r.
      destruct (rmatch r (mkMstate pos EmptyString EmptyString) Some) as [st'|] eqn:Hm.
      * destruct (rmatch_advance _ _ _ _ Hm) as (st & [= ->] & n & Hp & Hr & Hn).
        simpl in *. assert (n = 0) as -> by lia. rewrite Nat.add_0_r in Hp.
        constructor; simpl; [lia|lia|intros; lia| |].
        -- unfold matches_at. simpl. rewrite Hp, <- Hs, Hm. f_equal.
           destruct st' as [p' r' c']. simpl in *. by subst.
        -- constructor. intros p Hp'. simpl in Hp'. lia.
      * constructor. intros p Hp. assert (p = pos) as -> by lia.
        unfold no_match_at. by rewrite <- Hs.
    + constructor. intros p Hp. lia.
  - assert (s = str_drop (S pos) text) as Hs'.
    { destruct text as [|c0 text]; [by destruct pos|].
      destruct (str_drop_S pos c0 text) as [d Hd]; [simpl in *; lia|].
      rewrite Hd in Hs. by injection Hs. }
    destruct skip as [|n]; simpl.
    + rewrite Nat.add_0_r.
      destruct (rmatch r (mkMstate pos (String c s) EmptyString) Some) as [st'|] eqn:Hm.
      * destruct (rmatch_advance _ _ _ _ Hm) as (st & [= ->] & n & Hp & Hr & Hn).
        simpl in *.
        constructor; simpl; [lia|lia|intros; lia| |].
        -- unfold matches_at. simpl. rewrite <- Hs, Hm. f_equal.
           destruct st' as [p' r' c']. simpl in *. rewrite Hp, Hr, Hs.
           by rewrite str_drop_add.
        -- replace (m_pos st' `max` S pos) with (S pos + (m_pos st' - pos - 1)) by lia.
           apply IH; [done|lia].
      * apply scans_extend.
        -- unfold no_match_at. by rewrite <- Hs.
        -- specialize (IH 0 (S pos) Hs' ltac:(lia)). by rewrite Nat.add_0_r in IH.
    + replace (pos + S n) with (S pos + n) by lia. apply IH; [done|lia].
Qed.

Lemma finditer_scans r text : scans r text 0 (finditer r text).
Proof. apply (scan_scans r text text 0 0); [by destruct text|done]. Qed.

(** ** The extractor *)

Lemma extract_tags_concat tag_regex text :
  extract_tags tag_regex text
  = mjoin ((λ m, str_strip <$> str_split ","%char (group1 m)) <$> finditer tag_regex text).
Proof.
  unfold extract_tags. generalize (finditer tag_regex text) as ms. intros ms.
  rewrite <- (app_nil_l (mjoin _)). generalize (@nil string) as acc.
  induction ms as [|m ms IH]; intros acc; simpl; [by rewrite app_nil_r|].
  rewrite IH. by rewrite <- app_assoc.
Qed.


(** ** Unsupported files *)

Lemma Entry_init_eq entrypath fs :
  Entry_init entrypath fs
  = match open_read (as_posix (Path_of entrypath)) fs with
    | (fs', Ok text) =>
        if supported_name (Path_name (Path_of entrypath)) then
          (fs', Ok {| filepath := Path_of entrypath;
                      lines := str_split nl text;
                      tags := extract_tags
                                (if str_endswith (Path_name (Path_of entrypath)) ".rst"
                                 then _rst_regex
                                 else if str_endswith (Path_name (Path_of entrypath)) ".md"
                                 then _md_regex else _nb_regex)
                                (str_join NL (str_split nl text)) |})
        else (fs', Raise (ValueError unknown_extension))
    | (fs', Raise e) => (fs', Raise e)
    end.
Proof.
  unfold Entry_init, bind, supported_name.
  destruct (open_read _ fs) as [fs' [text|e]]; [|done].
  by repeat (destruct (str_endswith _ _)).
Qed.


Lemma mfold_assign_entry_raises fs p result : ∀ acc,
  p ∈ result → supported_name (Path_name (Path_of p)) = false →
  ∃ e, mfold result assign_entry acc fs = (fs, Raise e)
       ∧ (Forall (readable fs) result → e = ValueError unknown_extension).
Proof.
  induction result as [|q result IH]; intros acc Hin Hp; [by apply elem_of_nil in Hin|].
  simpl. unfold bind. rewrite assign_entry_eq.
  pose proof (Entry_init_fs q fs) as Hfs. rewrite Entry_init_eq in *.
  destruct (open_read _ fs) as [fs' [text|e]] eqn:Hopen.
  - destruct (supported_name (Path_name (Path_of q))) eqn:Hq; simpl in Hfs; subst fs'.
    + apply elem_of_cons in Hin as [->|Hin]; [congruence|].
      destruct (IH (assign_to_tags
        {| filepath := Path_of q; lines := str_split nl text;
           tags := extract_tags
                     (if str_endswith (Path_name (Path_of q)) ".rst" then _rst_regex
                      else if str_endswith (Path_name (Path_of q)) ".md" then _md_regex
                      else _nb_regex) (str_join NL (str_split nl text)) |} acc.1,
        acc.2 ++ [ {| filepath := Path_of q; lines := str_split nl text;
           tags := extract_tags
                     (if str_endswith (Path_name (Path_of q)) ".rst" then _rst_regex
                      else if str_endswith (Path_name (Path_of q)) ".md" then _md_regex
                      else _nb_regex) (str_join NL (str_split nl text)) |} ]) Hin Hp)
        as (e & -> & He).
      exists e. split; [done|]. intros Hall. apply He. by inversion Hall.
    + eexists. split; done.
  - simpl in Hfs; subst fs'. exists e. split; [done|].
    intros Hall. inversion Hall as [|? ? [text Hr] _]; subst. congruence.
Qed.

(** C6. Constructing an entry from a readable file whose name ends in none
    of [.rst], [.md] and [.ipynb] raises a [ValueError] whose message
    names the three.  Nothing catches it: as soon as the globs find one
    such file the build raises and writes no page, the file system staying
    as the clean-up left it; when every found file is readable the
    exception raised is that [ValueError]. *)
Theorem unsupported_extension_aborts :
  (∀ entrypath fs text,
     open_read (as_posix (Path_of entrypath)) fs = (fs, Ok text) →
     supported_name (Path_name (Path_of entrypath)) = false →
     Entry_init entrypath fs = (fs, Raise (ValueError unknown_extension)))
  ∧ Forall (λ ext, str_contains ext unknown_extension = true) [".rst"; ".md"; ".ipynb"]
  ∧ (∀ app fs fs1 found entrypath,
       tags_create_tags (config app) = true →
       clean app (Path_of (tags_output_dir (config app))) fs = (fs1, Ok ()) →
       discover app fs1 = (fs1, Ok found) →
       entrypath ∈ found →
       supported_name (Path_name (Path_of entrypath)) = false →
       ∃ e, update_tags app fs = (fs1, Raise e)
            ∧ (Forall (readable fs1) found → e = ValueError unknown_extension)).
Proof.
  split; [|split].
  - intros entrypath fs text Hopen Hn. by rewrite Entry_init_eq, Hopen, Hn.
  - repeat constructor.
  - intros app fs fs1 found p Hon Hclean Hfound Hin Hp.
    destruct (mfold_assign_entry_raises fs1 p found ([], []) Hin Hp) as (e & He & Hv).
    exists e. split; [|done].
    unfold update_tags. rewrite Hon. unfold bind. rewrite Hclean.
    unfold generate, bind, assign_entries, bind. by rewrite Hfound, He.
Qed.

(** ** Repeated declarations *)

Lemma grow_grow t o l1 l2 : grow t (grow t o l1) l2 = grow t o (l1 ++ l2).
Proof.
  destruct l1 as [|x l1]; [done|]. destruct l2 as [|y l2]; simpl.
  - by rewrite app_nil_r.
  - by rewrite <- app_assoc.
Qed.

Lemma assign_to_tag_grow self d u t :
  dict_get t (assign_to_tag self d u)
  = if decide (u = t) then grow t (dict_get t d) [self] else dict_get t d.
Proof.
  rewrite assign_to_tag_get. destruct (decide (t = u)) as [->|Hne].
  - by rewrite decide_True.
  - by rewrite decide_False.
Qed.

Lemma assign_to_tags_grow self t : ∀ d,
  dict_get t (assign_to_tags self d)
  = grow t (dict_get t d) (replicate (declarations t self) self).
Proof.
  unfold assign_to_tags, declarations. induction (tags self) as [|u ts IH]; intros d; [done|].
  cbn [foldl]. rewrite IH, assign_to_tag_grow, filter_cons.
  destruct (decide (u = t)) as [->|Hne]; [|done].
  rewrite grow_grow. done.
Qed.

Lemma registry_grow t pages : ∀ d,
  dict_get t (foldl (λ d e, assign_to_tags e d) d pages)
  = grow t (dict_get t d) (declared_items t pages).
Proof.
  unfold declared_items. induction pages as [|e pages IH]; intros d; [done|].
  cbn [foldl]. rewrite IH, assign_to_tags_grow, grow_grow. done.
Qed.

Lemma registry_of_get t pages :
  dict_get t (registry_of pages) = grow t None (declared_items t pages).
Proof. apply registry_grow. Qed.

Lemma declared_items_length t pages :
  length (declared_items t pages) = sum_list (declarations t <$> pages).
Proof.
  unfold declared_items. induction pages as [|e pages IH]; [done|].
  csimpl. by rewrite length_app, length_replicate, IH.
Qed.

Lemma occurrences_replicate (D e : Entry) k :
  occurrences D (replicate k e) = if decide (e = D) then k else 0.
Proof.
  unfold occurrences. induction k as [|k IH]; simpl; [by destruct (decide _)|].
  rewrite filter_cons. destruct (decide (e = D)); simpl; by rewrite IH.
Qed.

Lemma declared_items_occurrences t D pages :
  occurrences D (declared_items t pages) = declarations t D * occurrences D pages.
Proof.
  unfold declared_items. induction pages as [|e pages IH]; [simpl; unfold occurrences; simpl; lia|].
  csimpl. unfold occurrences in *. rewrite filter_app, length_app, IH, filter_cons.
  fold (occurrences D (replicate (declarations t e) e)). rewrite occurrences_replicate.
  destruct (decide (e = D)) as [->|]; simpl; lia.
Qed.

Lemma declarations_pos t e : 0 < declarations t e ↔ t ∈ tags e.
Proof.
  unfold declarations. induction (tags e) as [|u ts IH]; simpl.
  - split; [lia|by intros ?%elem_of_nil].
  - rewrite filter_cons. destruct (decide (u = t)) as [->|Hne]; simpl.
    + split; [intros _; by left|lia].
    + rewrite IH. split; [by right|]. by intros [?|?]%elem_of_cons.
Qed.

Lemma occurrences_filter_tag t D pages :
  t ∈ tags D →
  occurrences D (filter (λ item, t ∈ tags item) pages) = occurrences D pages.
Proof.
  intros Ht. unfold occurrences. induction pages as [|e pages IH]; [done|].
  rewrite !filter_cons. destruct (decide (e = D)) as [->|Hne].
  - rewrite decide_True by done. rewrite filter_cons, decide_True by done.
    simpl. by rewrite IH.
  - destruct (decide (t ∈ tags e)); [|done]. by rewrite filter_cons, decide_False.
Qed.

Lemma occurrences_one_only {A} `{EqDecision A} (D : A) l :
  occurrences D l = 1 → (∀ x, x ∈ l → x = D) → l = [D].
Proof.
  unfold occurrences. destruct l as [|x [|y l]]; intros Hn Hall.
  - done.
  - by rewrite (Hall x) by by left.
  - rewrite (Hall x) in Hn by (by left). rewrite (Hall y) in Hn by (right; by left).
    rewrite !filter_cons, !decide_True in Hn by done. simpl in Hn. lia.
Qed.

Lemma overview_row_listed all_tags outdir title extension head T :
  T ∈ dict_values all_tags →
  overview_row extension T ∈ (tagpage_content all_tags outdir title extension head).2.
Proof.
  intros HT. unfold tagpage_content, overview_row.
  assert (T ∈ sorted name str_ltb (dict_values all_tags)) as Hs by by rewrite sorted_perm.
  destruct (bool_decide ("md" ∈ extension)); simpl.
  - do 9 right. apply elem_of_app. left.
    apply list_elem_of_fmap. by exists T.
  - do 11 right. apply elem_of_app. left.
    apply list_elem_of_fmap. by exists T.
Qed.

Lemma occurrences_all {A} `{EqDecision A} (D : A) l :
  (∀ y, y ∈ l → y = D) → occurrences D l = length l ∧ l = replicate (length l) D.
Proof.
  unfold occurrences. induction l as [|x l IH]; intros Hall; [done|].
  rewrite filter_cons, decide_True by (apply Hall; by left). simpl.
  destruct IH as [-> IH]; [intros; apply Hall; by right|].
  split; [done|]. rewrite <- IH. f_equal. apply Hall. by left.
Qed.

Lemma create_file_content_shape self items extension srcdir title header :
  (create_file_content self items extension srcdir title header).2
  = page_head extension (name self) title header
    ++ (entry_line extension srcdir <$> listed_items extension items)
    ++ page_foot extension.
Proof.
  unfold create_file_content, page_head, entry_line, listed_items, page_foot.
  destruct (bool_decide ("md" ∈ extension)); simpl; by rewrite <- ?app_assoc.
Qed.

Lemma occurrences_listed_items extension (D : Entry) items :
  occurrences D (listed_items extension items) = occurrences D items.
Proof.
  unfold listed_items, occurrences. destruct (bool_decide ("md" ∈ extension)); [done|].
  apply Permutation_length. by rewrite sorted_perm.
Qed.

(** A document that is among the scanned entries once and declares a
    tag [n > 1] times is [n] times among the items of that tag in the
    registry and once among the entries that declare the tag. *)
Lemma duplicate_registry (app : App) (fs fs' : FS)
    (all_tags : list (string * Tag)) (pages : list Entry)
    (D : Entry) (t : string) (n : nat) :
  assign_entries app fs = (fs', Ok (all_tags, pages)) →
  occurrences D pages = 1 →
  declarations t D = n →
  1 < n →
  ∃ T, dict_get t all_tags = Some T
     ∧ name T = t
     ∧ occurrences D (items T) = n
     ∧ occurrences D (filter (λ item, name T ∈ tags item) pages) = 1
     ∧ (∀ extension srcdir title header,
          ∃ listed,
            (create_file_content T (filter (λ item, name T ∈ tags item) pages)
               extension srcdir title header).2
            = page_head extension t title header
              ++ (entry_line extension srcdir <$> listed)
              ++ page_foot extension
            ∧ occurrences D listed = 1)
     ∧ length (items T) = sum_list (declarations t <$> pages)
     ∧ (∀ outdir title extension head,
          overview_row extension T
          ∈ (tagpage_content all_tags outdir title extension head).2)
     ∧ ((∀ E, E ∈ pages → t ∈ tags E → E = D) →
          items T = replicate n D
          ∧ filter (λ item, name T ∈ tags item) pages = [D]
          ∧ ∀ extension, overview_row extension T
              = (if bool_decide ("md" ∈ extension) then EmptyString else "    ")
                +:+ t +:+ " (" +:+ str_of_nat n +:+ ") <"
                +:+ str_replace " "%char "_"%char t
                +:+ (if bool_decide ("md" ∈ extension) then ">" else ".rst>")).
Proof.
  intros Ha Hocc Hn Hgt. apply assign_entries_registry in Ha as [_ ->].
  assert (t ∈ tags D) as HtD by (apply declarations_pos; lia).
  pose proof (registry_of_get t pages) as Hget.
  pose proof (declared_items_occurrences t D pages) as Hdo.
  rewrite Hocc, Hn, Nat.mul_1_r in Hdo.
  destruct (declared_items t pages) as [|x l] eqn:Hitems.
  { unfold occurrences in Hdo. simpl in Hdo. lia. }
  simpl in Hget. eexists. split; [exact Hget|]. simpl.
  split; [done|]. split; [done|].
  split; [by rewrite occurrences_filter_tag|].
  split.
  { intros extension srcdir title header.
    exists (listed_items extension (filter (λ item, t ∈ tags item) pages)).
    split; [by rewrite create_file_content_shape|].
    by rewrite occurrences_listed_items, occurrences_filter_tag. }
  split; [by rewrite <- declared_items_length, Hitems|].
  split.
  { intros. apply overview_row_listed. unfold dict_values.
    apply list_elem_of_fmap. eexists (t, _). split; [done|].
    by apply dict_get_elem_of. }
  intros Honly.
  assert (∀ y, y ∈ x :: l → y = D) as Hall.
  { intros y Hy. rewrite <- Hitems in Hy. unfold declared_items in Hy.
    apply list_elem_of_bind in Hy as (E & Hy & HE).
    apply elem_of_replicate in Hy as [-> Hpos]. apply Honly; [done|].
    apply declarations_pos. lia. }
  destruct (occurrences_all D (x :: l) Hall) as [Hlen Hrep].
  rewrite Hdo in Hlen. split; [by rewrite Hrep, <- Hlen|]. split.
  - apply occurrences_one_only; [by rewrite occurrences_filter_tag|].
    intros E [HE1 HE2]%list_elem_of_filter. by apply Honly.
  - intros extension. unfold overview_row. simpl in *. rewrite Hlen.
    by destruct (bool_decide ("md" ∈ extension)).
Qed.

(** ** Paths *)

Lemma str_app_cons c a b : String c a +:+ b = String c (a +:+ b).
Proof. done. Qed.

Lemma str_startswith_app a b : str_startswith (a +:+ b) a = true.
Proof.
  induction a as [|c a IH]; [by destruct b|].
  rewrite str_app_cons. simpl. by rewrite IH, bool_decide_eq_true_2.
Qed.

Lemma str_startswith_app_l a b sub :
  str_startswith a sub = true → str_startswith (a +:+ b) sub = true.
Proof.
  revert a. induction sub as [|c sub IH]; intros a.
  - intros _. by destruct (a +:+ b).
  - destruct a as [|x a]; [done|]. rewrite str_app_cons. simpl.
    intros [-> H]%andb_prop. simpl. by apply IH.
Qed.

Lemma str_app_assoc a b c : (a +:+ b) +:+ c = a +:+ (b +:+ c).
Proof. induction a as [|x a IH]; [done|]. rewrite !str_app_cons. by f_equal. Qed.

Lemma str_take_drop n : ∀ s, str_take n s +:+ str_drop n s = s.
Proof.
  induction n as [|n IH]; intros s; simpl; [done|].
  destruct s as [|c s]; simpl; [done|]. by rewrite str_app_cons, IH.
Qed.

Lemma str_endswith_inv s p : str_endswith s p = true → ∃ s', s = s' +:+ p.
Proof.
  unfold str_endswith. intros [_ H%bool_decide_eq_true]%andb_prop.
  exists (str_take (String.length s - String.length p) s).
  rewrite <- (str_take_drop (String.length s - String.length p) s) at 1. by rewrite H.
Qed.

Lemma str_split_app sep a b :
  str_split sep (a +:+ String sep b) = str_split sep a ++ str_split sep b.
Proof.
  induction a as [|c a IH]; [simpl; by rewrite decide_True|].
  rewrite str_app_cons. simpl.
  destruct (decide (c = sep)); [by rewrite IH|].
  rewrite IH. pose proof (str_split_nonempty sep a).
  by destruct (str_split sep a).
Qed.

Lemma str_split_none sep s : str_mem sep s = false → str_split sep s = [s].
Proof.
  induction s as [|c s IH]; simpl; [done|].
  intros [Hc%bool_decide_eq_false Hs]%orb_false_elim.
  rewrite decide_False by congruence. by rewrite IH.
Qed.

Lemma str_split_no_sep sep s : Forall (λ c, str_mem sep c = false) (str_split sep s).
Proof.
  induction s as [|c s IH]; simpl; [by repeat constructor|].
  destruct (decide (c = sep)); [by constructor|].
  destruct (str_split sep s) as [|h t].
  { constructor; [|constructor]. simpl. by rewrite bool_decide_eq_false_2 by congruence. }
  apply Forall_cons in IH as [Hh Ht]. constructor; [|done].
  simpl. rewrite Hh. by rewrite bool_decide_eq_false_2 by congruence.
Qed.

Lemma clean_name_inv n :
  clean_name n = true →
  n ≠ EmptyString ∧ n ≠ "." ∧ n ≠ ".." ∧ str_mem slash n = false.
Proof.
  unfold clean_name. rewrite !andb_true_iff, !negb_true_iff.
  intros [[[H1%bool_decide_eq_false H2%bool_decide_eq_false] H3%bool_decide_eq_false] H4].
  done.
Qed.

Lemma walk_app fs l1 : ∀ cur l2,
  walk fs cur (l1 ++ l2)
  = match walk fs cur l1 with
    | Ok q => walk fs q l2
    | Raise e => Raise e
    end.
Proof.
  induction l1 as [|c l1 IH]; intros cur l2; simpl; [done|].
  destruct (node_at fs cur) as [[|]|]; try done.
  destruct (_ || _); [apply IH|]. destruct (bool_decide _); apply IH.
Qed.

Lemma walk_name fs cur n :
  node_at fs cur = Some Dir → clean_name n = true → walk fs cur [n] = Ok (cur ++ [n]).
Proof.
  intros Hd (H1 & H2 & H3 & _)%clean_name_inv. simpl. rewrite Hd.
  by rewrite !bool_decide_eq_false_2 by done.
Qed.

Lemma walk_same_dirs fs fs' comps : ∀ cur q,
  same_dirs fs fs' → walk fs cur comps = Ok q → walk fs' cur comps = Ok q.
Proof.
  induction comps as [|c comps IH]; intros cur q Hs; simpl; [done|].
  destruct (node_at fs cur) as [[|]|] eqn:Hn; try done.
  apply Hs in Hn. rewrite Hn.
  destruct (_ || _); [by apply IH|]. destruct (bool_decide _); by apply IH.
Qed.

Lemma same_dirs_sym fs fs' : same_dirs fs fs' → same_dirs fs' fs.
Proof. intros H q. symmetry. apply H. Qed.

Lemma same_dirs_trans fs1 fs2 fs3 : same_dirs fs1 fs2 → same_dirs fs2 fs3 → same_dirs fs1 fs3.
Proof. intros H1 H2 q. by rewrite (H1 q). Qed.

Lemma same_dirs_refl fs : same_dirs fs fs.
Proof. by intros q. Qed.

Lemma resolves_to_same_dirs fs fs' path q :
  same_dirs fs fs' → resolves_to fs' path q = resolves_to fs path q.
Proof.
  intros Hs. unfold resolves_to, resolve.
  destruct (walk fs [] _) as [p|e] eqn:H.
  - by rewrite (walk_same_dirs _ _ _ _ _ Hs H).
  - destruct (walk fs' [] _) as [p|e'] eqn:H'; [|done].
    by rewrite (walk_same_dirs _ _ _ _ _ (same_dirs_sym _ _ Hs) H') in H.
Qed.

Lemma node_at_insert fs p x q :
  p ≠ [] → node_at (<[p := x]> fs) q = if decide (p = q) then Some x else node_at fs q.
Proof.
  intros Hp. destruct q as [|c q]; simpl.
  - by rewrite decide_False.
  - apply lookup_insert.
Qed.

Lemma same_dirs_insert_file fs p c :
  p ≠ [] → node_at fs p ≠ Some Dir → same_dirs fs (<[p := File c]> fs).
Proof.
  intros Hp Hn q. rewrite node_at_insert by done.
  destruct (decide (p = q)) as [->|]; [|done]. split; [done|by intros [=]].
Qed.

Lemma same_dirs_delete_file fs p c :
  fs !! p = Some (File c) → same_dirs fs (delete p fs).
Proof.
  intros Hp q. destruct q as [|x q]; simpl; [done|].
  rewrite lookup_delete. destruct (decide (p = x :: q)) as [->|]; [|done].
  rewrite Hp. split; by intros [=].
Qed.

(** A proper name joined to a directory resolves to that entry of it. *)
Lemma resolve_child fs dir d n :
  resolve fs dir = Ok d → node_at fs d = Some Dir → clean_name n = true →
  resolve fs (os_path_join dir n) = Ok (d ++ [n]).
Proof.
  intros Hd Hdir Hn. pose proof (clean_name_inv _ Hn) as (Hne & _ & _ & Hsl).
  unfold os_path_join.
  assert (str_startswith n "/" = false) as ->.
  { destruct n as [|c n]; [done|]. simpl in *.
    apply orb_false_elim in Hsl as [Hc _]. unfold slash in Hc. by rewrite Hc. }
  unfold resolve in *.
  destruct (bool_decide (dir = EmptyString)) eqn:He.
  - apply bool_decide_eq_true in He as ->. simpl in *. simplify_eq.
    change (EmptyString +:+ n) with n.
    rewrite (str_split_none slash n) by done. by apply walk_name.
  - simpl. destruct (str_endswith dir "/") eqn:Hend.
    + apply str_endswith_inv in Hend as [dir' ->].
      rewrite str_app_assoc. change ("/" +:+ n) with (String slash n).
      change (dir' +:+ "/") with (dir' +:+ String slash EmptyString) in Hd.
      rewrite str_split_app, walk_app. rewrite str_split_app, walk_app in Hd.
      simpl in Hd. rewrite (str_split_none slash n) by done.
      destruct (walk fs [] (str_split slash dir')) as [q|e]; [|done].
      destruct (node_at fs q) as [[|]|] eqn:Hq; try done. simplify_eq.
      by apply walk_name.
    + change (dir +:+ "/" +:+ n) with (dir +:+ String slash n).
      rewrite str_split_app, walk_app, Hd. rewrite (str_split_none slash n) by done.
      by apply walk_name.
Qed.

Lemma walk_clean fs comps : ∀ cur q,
  Forall (λ c, str_mem slash c = false) comps →
  Forall (λ n, clean_name n = true) cur →
  walk fs cur comps = Ok q → Forall (λ n, clean_name n = true) q.
Proof.
  induction comps as [|c comps IH]; intros cur q Hc Hcur; simpl; [by intros [= <-]|].
  apply Forall_cons in Hc as [Hc Hcs].
  destruct (node_at fs cur) as [[|]|]; try done.
  destruct (bool_decide (c = EmptyString)) eqn:H1; simpl; [by apply IH|].
  destruct (bool_decide (c = ".")) eqn:H2; simpl; [by apply IH|].
  destruct (bool_decide (c = "..")) eqn:H3; apply IH; try done.
  - destruct cur as [|x cur] using rev_ind; [done|].
    rewrite removelast_last. by apply Forall_app in Hcur as [? _].
  - apply Forall_app. split; [done|]. constructor; [|done].
    unfold clean_name. by rewrite H1, H2, H3, Hc.
Qed.

Lemma resolve_clean fs path q :
  resolve fs path = Ok q → Forall (λ n, clean_name n = true) q.
Proof. apply walk_clean; [apply str_split_no_sep|done]. Qed.

(** ** The effects on the file system *)

Lemma bind_eq {A B} (c : M A) (k : A → M B) fs :
  bind c k fs = match c fs with
                | (fs', Ok a) => k a fs'
                | (fs', Raise e) => (fs', Raise e)
                end.
Proof. done. Qed.

Lemma open_write_inv path content fs fs' r :
  open_write path content fs = (fs', r) →
  (r = Ok () ∧ ∃ p, resolve fs path = Ok p ∧ p ≠ [] ∧ node_at fs p ≠ Some Dir
                    ∧ fs' = <[p := File content]> fs)
  ∨ ((∃ e, r = Raise e) ∧ fs' = fs).
Proof.
  unfold open_write. destruct (path_error path); [intros [= <- <-]; right; eauto|].
  destruct (resolve fs path) as [p|e]; [|intros [= <- <-]; right; eauto].
  destruct (node_at fs p) as [[c|]|] eqn:Hn.
  - intros [= <- <-]. left. split; [done|]. exists p. repeat split; try done.
    + intros ->. by simpl in Hn.
    + by rewrite Hn.
  - intros [= <- <-]. right; by eauto.
  - destruct (too_long _); intros [= <- <-]; [right; by eauto|].
    left. split; [done|]. exists p. repeat split; try done.
    + intros ->. by simpl in Hn.
    + by rewrite Hn.
Qed.

Lemma os_remove_inv path fs fs' r :
  os_remove path fs = (fs', r) →
  (r = Ok () ∧ ∃ p c, resolve fs path = Ok p ∧ fs !! p = Some (File c)
                      ∧ fs' = delete p fs)
  ∨ ((∃ e, r = Raise e) ∧ fs' = fs).
Proof.
  unfold os_remove. destruct (resolve fs path) as [p|e]; [|intros [= <- <-]; right; eauto].
  destruct (node_at fs p) as [[c|]|] eqn:Hn; intros [= <- <-]; try (right; by eauto).
  left. split; [done|]. exists p, c. repeat split; try done.
  destruct p; [done|]. done.
Qed.

Lemma last_write_same_dirs fs fs' ws q :
  same_dirs fs fs' → last_write fs' ws q = last_write fs ws q.
Proof.
  intros Hs. induction ws as [|w ws IH]; simpl; [done|].
  by rewrite IH, (resolves_to_same_dirs _ _ _ _ Hs).
Qed.

Lemma write_all_ok ws : ∀ fs fs',
  write_all ws fs = (fs', Ok ()) →
  same_dirs fs fs'
  ∧ Forall (λ w, ∃ p, resolve fs w.1 = Ok p) ws
  ∧ ∀ q, fs' !! q = match last_write fs ws q with
                    | Some c => Some (File c)
                    | None => fs !! q
                    end.
Proof.
  unfold write_all. induction ws as [|w ws IH]; intros fs fs'; simpl.
  - intros [= <-]. split; [apply same_dirs_refl|]. split; [constructor|done].
  - rewrite bind_eq. destruct (open_write w.1 w.2 fs) as [fs1 r] eqn:Hw.
    apply open_write_inv in Hw as [[-> (p & Hp & Hne & Hnd & ->)]|[[e ->] ->]]; [|done].
    intros H. apply IH in H as (Hs & Hall & Hq).
    pose proof (same_dirs_insert_file fs p w.2 Hne Hnd) as Hs1.
    split; [by eapply same_dirs_trans|]. split.
    + constructor; [by exists p|]. eapply Forall_impl; [exact Hall|].
      intros w' [p' Hp']. exists p'.
      by apply (walk_same_dirs _ _ _ _ _ (same_dirs_sym _ _ Hs1)).
    + intros q. rewrite Hq, (last_write_same_dirs _ _ _ _ Hs1).
      destruct (last_write fs ws q); [done|].
      unfold resolves_to. rewrite Hp, lookup_insert.
      destruct (decide (p = q)) as [->|Hpq].
      * by rewrite bool_decide_eq_true_2.
      * by rewrite bool_decide_eq_false_2.
Qed.

Lemma last_write_Some fs ws q c :
  last_write fs ws q = Some c → ∃ w, w ∈ ws ∧ resolve fs w.1 = Ok q ∧ w.2 = c.
Proof.
  induction ws as [|w ws IH]; simpl; [done|].
  destruct (last_write fs ws q) as [c'|].
  - intros [= ->]. destruct IH as (w' & ? & ? & ?); [done|]. exists w'. split; [by right|done].
  - unfold resolves_to. destruct (resolve fs w.1) as [p|] eqn:Hp; [|done].
    destruct (bool_decide (p = q)) eqn:Hpq; [|done].
    apply bool_decide_eq_true in Hpq as ->. intros [= <-]. exists w. split; [by left|done].
Qed.

Lemma last_write_None fs ws q :
  (∀ w, w ∈ ws → resolve fs w.1 ≠ Ok q) → last_write fs ws q = None.
Proof.
  induction ws as [|w ws IH]; intros Hall; simpl; [done|].
  rewrite IH by (intros; apply Hall; by right).
  unfold resolves_to. destruct (resolve fs w.1) as [p|] eqn:Hp; [|done].
  rewrite bool_decide_eq_false_2; [done|]. intros ->. by apply (Hall w); [left|].
Qed.

(** When every write that goes to [q] carries the content [c], and one
    does, [c] is what is there in the end. *)
Lemma last_write_unique fs ws q c :
  (∃ w, w ∈ ws ∧ resolve fs w.1 = Ok q) →
  (∀ w, w ∈ ws → resolve fs w.1 = Ok q → w.2 = c) →
  last_write fs ws q = Some c.
Proof.
  intros (w0 & Hin & Hw0) Hall.
  destruct (last_write fs ws q) as [c'|] eqn:Hl.
  - apply last_write_Some in Hl as (w & ? & ? & <-). f_equal. by apply Hall.
  - exfalso. induction ws as [|w ws IH]; [by apply elem_of_nil in Hin|].
    simpl in Hl. destruct (last_write fs ws q) eqn:Hl'; [done|].
    unfold resolves_to in Hl. apply elem_of_cons in Hin as [->|Hin].
    + rewrite Hw0 in Hl. by rewrite bool_decide_eq_true_2 in Hl.
    + apply IH; [done| |done]. intros; apply Hall; [by right|done].
Qed.

(** The names of a directory. *)
Lemma child_name_Some d e n : child_name d e = Some n ↔ e.1 = d ++ [n].
Proof.
  unfold child_name. split.
  - destruct (decide (take (length d) e.1 = d)) as [Ht|]; [|done].
    destruct (drop (length d) e.1) as [|x [|y l]] eqn:Hd; try done.
    intros [= ->]. by rewrite <- (take_drop (length d) e.1), Ht, Hd.
  - intros ->. rewrite take_app_length, drop_app_length.
    by rewrite decide_True.
Qed.

Lemma elem_of_dir_names fs d n : n ∈ dir_names fs d ↔ is_Some (fs !! (d ++ [n])).
Proof.
  unfold dir_names. rewrite list_elem_of_omap. split.
  - intros ([p x] & Hin & Hc). apply child_name_Some in Hc. simpl in Hc. subst.
    apply elem_of_map_to_list in Hin. by eexists.
  - intros [x Hx]. exists (d ++ [n], x). split; [by apply elem_of_map_to_list|].
    by apply child_name_Some.
Qed.

Lemma NoDup_dir_names fs d : NoDup (dir_names fs d).
Proof.
  unfold dir_names. pose proof (NoDup_fst_map_to_list fs) as Hnd.
  induction (map_to_list fs) as [|[p x] l IH]; simpl; [constructor|].
  apply NoDup_cons in Hnd as [Hp Hnd]. csimpl.
  destruct (child_name d (p, x)) as [n|] eqn:Hc; simpl; [|by apply IH].
  constructor; [|by apply IH].
  intros ([p' x'] & Hin & Hc')%list_elem_of_omap.
  apply child_name_Some in Hc, Hc'. simpl in *. subst. apply Hp.
  apply list_elem_of_fmap. by exists (d ++ [n], x').
Qed.

(** The loop that removes the pages of the previous run. *)
Lemma swept_lookup d names : ∀ fs q,
  swept d names fs !! q
  = if existsb (λ n, removable n && bool_decide (q = d ++ [n])) names
    then None else fs !! q.
Proof.
  unfold swept. induction names as [|n names IH]; intros fs q; simpl; [done|].
  rewrite IH. destruct (existsb _ names); [by rewrite orb_true_r|]. rewrite orb_false_r.
  destruct (removable n); simpl; [|done].
  rewrite lookup_delete. destruct (decide (d ++ [n] = q)) as [<-|Hne].
  - by rewrite bool_decide_eq_true_2.
  - by rewrite bool_decide_eq_false_2.
Qed.

Lemma swept_cons d n names fs :
  swept d (n :: names) fs
  = swept d names (if removable n then delete (d ++ [n]) fs else fs).
Proof. done. Qed.

Lemma sweep_ok dir d names : ∀ fs fs',
  resolve fs dir = Ok d → node_at fs d = Some Dir →
  (∀ n, n ∈ names → removable n = true → clean_name n = true) →
  mfor names (λ file, if removable file then os_remove (os_path_join dir file) else ret ()) fs
    = (fs', Ok ()) →
  fs' = swept d names fs ∧ same_dirs fs fs'.
Proof.
  induction names as [|n names IH]; intros fs fs' Hd Hdir Hclean.
  - intros [= <-]. split; [done|apply same_dirs_refl].
  - cbn [mfor]. rewrite bind_eq, swept_cons. destruct (removable n) eqn:Hr.
    + destruct (os_remove _ fs) as [fs1 r] eqn:Hrm.
      apply os_remove_inv in Hrm as [[-> (p & c & Hp & Hc & ->)]|[[e ->] ->]]; [|done].
      rewrite (resolve_child fs dir d n Hd Hdir) in Hp by (apply Hclean; [by left|done]).
      simplify_eq. pose proof (same_dirs_delete_file _ _ _ Hc) as Hs.
      intros H. apply IH in H as [-> Hs'].
      * split; [done|by eapply same_dirs_trans].
      * by apply (walk_same_dirs _ _ _ _ _ Hs).
      * by apply Hs.
      * intros; apply Hclean; [by right|done].
    + unfold ret at 1. intros H.
      apply IH in H as [-> Hs'];
        [by split|done|done|intros; apply Hclean; [by right|done]].
Qed.

Lemma sweep_succeeds dir d names : ∀ fs,
  resolve fs dir = Ok d → node_at fs d = Some Dir →
  NoDup names →
  (∀ n, n ∈ names → removable n = true →
        clean_name n = true ∧ ∃ c, fs !! (d ++ [n]) = Some (File c)) →
  mfor names (λ file, if removable file then os_remove (os_path_join dir file) else ret ()) fs
    = (swept d names fs, Ok ()).
Proof.
  induction names as [|n names IH]; intros fs Hd Hdir Hnd Hall; [done|].
  apply NoDup_cons in Hnd as [Hn Hnd]. cbn [mfor]. rewrite bind_eq, swept_cons.
  destruct (removable n) eqn:Hr.
  - destruct (Hall n) as [Hcl [c Hc]]; [by left|done|].
    unfold os_remove. rewrite (resolve_child fs dir d n Hd Hdir Hcl).
    assert (node_at fs (d ++ [n]) = Some (File c)) as ->.
    { destruct d; simpl; done. }
    pose proof (same_dirs_delete_file _ _ _ Hc) as Hs.
    apply IH; [by apply (walk_same_dirs _ _ _ _ _ Hs)|by apply Hs|done|].
    intros n' Hin Hr'. destruct (Hall n') as [Hcl' [c' Hc']]; [by right|done|].
    split; [done|]. exists c'. rewrite lookup_delete_ne; [done|].
    intros [= ->]%(inj (app d)). done.
  - unfold ret at 1. apply IH; try done. intros; apply Hall; [by right|done].
Qed.

(** ** [generate] as a sequence of writes *)

Lemma mfor_ext {A} (body1 body2 : A → M unit) l fs :
  (∀ x fs, body1 x fs = body2 x fs) → mfor l body1 fs = mfor l body2 fs.
Proof.
  intros Hb. revert fs. induction l as [|x l IH]; intros fs; simpl; [done|].
  rewrite !bind_eq, Hb. destruct (body2 x fs) as [fs' [[]|e]]; [apply IH|done].
Qed.

Lemma mfor_fmap {A B} (f : A → B) (body : B → M unit) l fs :
  mfor (f <$> l) body fs = mfor l (λ x, body (f x)) fs.
Proof.
  revert fs. induction l as [|x l IH]; intros fs; simpl; [done|].
  rewrite !bind_eq. destruct (body (f x) fs) as [fs' [[]|e]]; [apply IH|done].
Qed.

Lemma mfor_snoc {A} (body : A → M unit) l x fs :
  mfor (l ++ [x]) body fs = (let* _ := mfor l body in body x) fs.
Proof.
  revert fs. induction l as [|y l IH]; intros fs; simpl.
  - rewrite !bind_eq. unfold ret. by destruct (body x fs) as [fs' [[]|e]].
  - rewrite !bind_eq. destruct (body y fs) as [fs' [[]|e]]; [|done].
    rewrite IH. by rewrite bind_eq.
Qed.

Lemma create_file_name self items extension srcdir title header app :
  extension = tags_extension (config app) →
  (create_file_content self items extension srcdir title header).1
  = tag_file_stem (name self) +:+ "." +:+ dialect app.
Proof.
  intros ->. unfold create_file_content, dialect.
  by destruct (bool_decide ("md" ∈ tags_extension (config app))).
Qed.

Lemma tag_write_path app pages T :
  (tag_write app pages T).1 = tag_page_path app (name T).
Proof.
  unfold tag_write, tag_page_path. simpl. by erewrite create_file_name.
Qed.

Lemma tag_write_name app pages T1 T2 :
  name T1 = name T2 → tag_write app pages T1 = tag_write app pages T2.
Proof.
  intros Hn. unfold tag_write, create_file_content. rewrite Hn.
  by destruct (bool_decide ("md" ∈ tags_extension (config app))).
Qed.

Lemma overview_write_path app all_tags :
  (overview_write app all_tags).1 = overview_path app.
Proof.
  unfold overview_write, overview_path, tagpage_content, dialect. simpl.
  by destruct (bool_decide ("md" ∈ tags_extension (config app))).
Qed.

Lemma mfor_create_file app pages l fs :
  mfor l (λ tag,
      create_file tag
        (filter (λ item, name tag ∈ tags item) pages)
        (tags_extension (config app))
        (Path_of (tags_output_dir (config app)))
        (srcdir app)
        (tags_page_title (config app))
        (tags_page_header (config app))) fs
  = mfor l (λ tag, open_write (tag_write app pages tag).1 (tag_write app pages tag).2) fs.
Proof.
  apply mfor_ext. intros tag fs0. unfold create_file, tag_write, join3, outdir_of.
  by destruct (create_file_content _ _ _ _ _ _).
Qed.

Lemma generate_eq app fs :
  generate app (Path_of (tags_output_dir (config app))) fs
  = (let* (all_tags, pages) := assign_entries app in
     write_all (page_writes app all_tags pages)) fs.
Proof.
  unfold generate. rewrite !bind_eq.
  destruct (assign_entries app fs) as [fs1 [[all_tags pages]|e]]; [|done].
  unfold write_all, page_writes. rewrite mfor_snoc, !bind_eq, mfor_fmap.
  rewrite mfor_create_file.
  destruct (mfor _ _ fs1) as [fs2 [[]|e]]; [|done].
  unfold tagpage, overview_write, outdir_of.
  by destruct (tagpage_content _ _ _ _ _).
Qed.

Lemma entry_line_listed self items extension srcdir title header D :
  D ∈ items →
  entry_line extension srcdir D
  ∈ (create_file_content self items extension srcdir title header).2.
Proof.
  intros HD. unfold create_file_content, entry_line.
  destruct (bool_decide ("md" ∈ extension)); simpl.
  - do 7 right. apply elem_of_app. left. apply list_elem_of_fmap. by exists D.
  - do 7 right. apply elem_of_app. left. apply list_elem_of_fmap. exists D.
    split; [done|]. by rewrite sorted_perm.
Qed.

Lemma registry_of_declared pages D t :
  D ∈ pages → t ∈ tags D →
  ∃ T, dict_get t (registry_of pages) = Some T ∧ name T = t.
Proof.
  intros HD Ht. rewrite registry_of_get.
  destruct (declared_items t pages) as [|x l] eqn:Hd.
  - exfalso. assert (D ∈ declared_items t pages) as Hin; [|by rewrite Hd in Hin; apply elem_of_nil in Hin].
    unfold declared_items. apply list_elem_of_bind. exists D. split; [|done].
    apply elem_of_replicate. split; [done|]. apply declarations_pos in Ht. lia.
  - simpl. by eexists.
Qed.

(** The page of a tag after a build that succeeds, when the page of no
    other tag and not the overview page goes to the same file: what
    [create_file] has built from the entries that declare the tag. *)
Lemma tag_page_written (app : App) (fs fs1 fs' : FS)
    (all_tags : list (string * Tag)) (pages : list Entry) (T : Tag) (t : string) :
  tags_create_tags (config app) = true →
  clean app (Path_of (tags_output_dir (config app))) fs = (fs1, Ok ()) →
  assign_entries app fs1 = (fs1, Ok (all_tags, pages)) →
  update_tags app fs = (fs', Ok ()) →
  dict_get t all_tags = Some T →
  (∀ t', t' ∈ all_tags.*1 → t' ≠ t →
         resolve fs1 (tag_page_path app t') ≠ resolve fs1 (tag_page_path app t)) →
  resolve fs1 (overview_path app) ≠ resolve fs1 (tag_page_path app t) →
  name T = t
  ∧ ∃ p,
      resolve fs1 (tag_page_path app t) = Ok p
      ∧ resolve fs' (tag_page_path app t) = Ok p
      ∧ fs' !! p = Some (File (tag_write app pages T).2).
Proof.
  intros Hon Hclean Hassign Hrun HT Htags Hover.
  unfold update_tags in Hrun. rewrite Hon, bind_eq, Hclean, generate_eq, bind_eq, Hassign in Hrun.
  apply write_all_ok in Hrun as (Hs & Hall & Hlook).
  pose proof (assign_entries_registry _ _ _ _ _ Hassign) as [_ ->].
  apply dict_get_elem_of in HT.
  destruct (registry_of_ok pages _ _ HT) as [HnT _]. split; [done|].
  assert (tag_write app pages T ∈ page_writes app (registry_of pages) pages) as Hin.
  { unfold page_writes. apply elem_of_app. left. apply list_elem_of_fmap. exists T.
    split; [done|]. unfold dict_values. apply list_elem_of_fmap. by exists (t, T). }
  pose proof (proj1 (Forall_forall _ _) Hall _ Hin) as [p Hp].
  rewrite tag_write_path, HnT in Hp.
  exists p. split; [done|].
  split; [by apply (walk_same_dirs _ _ _ _ _ Hs)|].
  rewrite Hlook.
  rewrite (last_write_unique _ _ _ (tag_write app pages T).2); [done| |].
  - exists (tag_write app pages T). split; [done|]. by rewrite tag_write_path, HnT.
  - intros w [Hw|Hw%list_elem_of_singleton]%elem_of_app Hwp.
    + apply list_elem_of_fmap in Hw as (T' & -> & HT').
      rewrite tag_write_path in Hwp. f_equal. apply tag_write_name.
      destruct (decide (name T' = t)) as [->|Hne]; [done|].
      exfalso. apply (Htags (name T')); [|done|congruence].
      unfold dict_values in HT'. apply list_elem_of_fmap in HT' as ([k T''] & -> & Hk).
      simpl in *. destruct (registry_of_ok pages _ _ Hk) as [-> _].
      apply list_elem_of_fmap. by exists (k, T'').
    + subst w. rewrite overview_write_path in Hwp. congruence.
Qed.

(** ** What a line of a tag page refers to *)

Lemma str_split_join l :
  l ≠ [] → Forall (λ c, str_mem slash c = false) l →
  str_split slash (str_join "/" l) = l.
Proof.
  induction l as [|x l IH]; [done|]. intros _ [Hx Hl]%Forall_cons.
  destruct l as [|y l]; [by apply str_split_none|].
  rewrite str_join_cons. change ("/" +:+ str_join "/" (y :: l))
    with (String slash (str_join "/" (y :: l))).
  rewrite str_split_app, IH, (str_split_none slash x) by done. done.
Qed.

Lemma clean_name_no_slash l :
  Forall (λ n, clean_name n = true) l → Forall (λ c, str_mem slash c = false) l.
Proof.
  intros H. eapply Forall_impl; [exact H|].
  intros n Hn. by apply clean_name_inv in Hn as (_ & _ & _ & ?).
Qed.

Lemma normpath_clean rel : ∀ acc,
  Forall (λ n, clean_name n = true) rel → foldl normpath_step acc rel = acc ++ rel.
Proof.
  induction rel as [|c rel IH]; intros acc Hrel; simpl; [by rewrite app_nil_r|].
  apply Forall_cons in Hrel as [Hc Hrel]. rewrite IH by done.
  apply clean_name_inv in Hc as (H1 & H2 & H3 & _). unfold normpath_step.
  rewrite !bool_decide_eq_false_2 by done. simpl. by rewrite <- app_assoc.
Qed.

(** Dropping the empty and the [.] components does not change what
    [normpath] makes of a path. *)
Lemma normpath_filter comps : ∀ acc,
  foldl normpath_step acc (List.filter path_component comps)
  = foldl normpath_step acc comps.
Proof.
  induction comps as [|c comps IH]; intros acc; simpl; [done|].
  destruct (path_component c) eqn:Hc; simpl; [apply IH|].
  assert (normpath_step acc c = acc) as ->; [|apply IH].
  unfold path_component in Hc. unfold normpath_step.
  by destruct (bool_decide (c = EmptyString)), (bool_decide (c = ".")).
Qed.

Lemma filter_path_component_no_slash comps :
  Forall (λ c, str_mem slash c = false) comps →
  Forall (λ c, str_mem slash c = false) (List.filter path_component comps).
Proof.
  induction 1 as [|c comps Hc _ IH]; simpl; [constructor|].
  destruct (path_component c); [by constructor|done].
Qed.

Lemma abs_components_as_posix s :
  str_startswith s "/" = true →
  abs_components (as_posix (Path_of s)) = abs_components s.
Proof.
  intros Habs. unfold abs_components, as_posix, Path_of. simpl. rewrite Habs.
  rewrite <- (normpath_filter (str_split slash s)).
  pose proof (filter_path_component_no_slash _ (str_split_no_sep slash s)) as Hns.
  destruct (List.filter path_component (str_split slash s)) as [|x l] eqn:Hf; [done|].
  change ("/" +:+ str_join "/" (x :: l)) with (EmptyString +:+ String slash (str_join "/" (x :: l))).
  rewrite str_split_app, str_split_join by done. done.
Qed.

Lemma common_prefix_len_app a b : common_prefix_len a (a ++ b) = length a.
Proof. induction a as [|x a IH]; simpl; [by destruct b|]. by rewrite decide_True, IH. Qed.

Lemma as_posix_relative rel :
  rel ≠ [] → Forall (λ n, clean_name n = true) rel →
  as_posix (Path_of (str_join "/" rel)) = str_join "/" rel.
Proof.
  intros Hne Hrel. unfold as_posix, Path_of. simpl.
  rewrite str_split_join by (done || by apply clean_name_no_slash).
  assert (List.filter path_component rel = rel) as ->.
  { clear Hne. induction Hrel as [|c rel Hc _ IH]; simpl; [done|].
    apply clean_name_inv in Hc as (H1 & H2 & _). unfold path_component at 1.
    rewrite !bool_decide_eq_false_2 by done. simpl. by rewrite IH. }
  assert (str_startswith (str_join "/" rel) "/" = false) as ->.
  { destruct rel as [|c rel]; [done|]. apply Forall_cons in Hrel as [Hc _].
    apply clean_name_inv in Hc as (H1 & _ & _ & H4).
    destruct c as [|x c]; [done|]. simpl in H4. apply orb_false_elim in H4 as [Hx _].
    destruct rel; [simpl|rewrite str_join_cons, str_app_cons; simpl];
      unfold slash in Hx; by rewrite Hx. }
  by destruct rel.
Qed.

(** The path of a file below an absolute directory, taken relative to
    that directory, is the list of names that leads to it. *)
Lemma abs_components_below dir rel :
  rel ≠ [] → Forall (λ n, clean_name n = true) rel →
  abs_components (dir +:+ "/" +:+ str_join "/" rel) = abs_components dir ++ rel.
Proof.
  intros Hne Hrel. unfold abs_components.
  change (dir +:+ "/" +:+ str_join "/" rel) with (dir +:+ String slash (str_join "/" rel)).
  rewrite str_split_app, foldl_app, str_split_join by (done || by apply clean_name_no_slash).
  by apply normpath_clean.
Qed.

Lemma relpath_of_below dir rel D :
  str_startswith dir "/" = true →
  rel ≠ [] → Forall (λ n, clean_name n = true) rel →
  filepath D = Path_of (dir +:+ "/" +:+ str_join "/" rel) →
  relpath_of dir D = str_join "/" rel.
Proof.
  intros Habs Hne Hrel HD. unfold relpath_of, os_path_relpath. rewrite HD.
  rewrite abs_components_as_posix.
  2: { by apply str_startswith_app_l. }
  assert (abs_components (dir +:+ "/" +:+ str_join "/" rel) = abs_components dir ++ rel) as ->.
  { unfold abs_components.
    change (dir +:+ "/" +:+ str_join "/" rel) with (dir +:+ String slash (str_join "/" rel)).
    rewrite str_split_app, foldl_app, str_split_join by (done || by apply clean_name_no_slash).
    by apply normpath_clean. }
  rewrite common_prefix_len_app, Nat.sub_diag, drop_app_length. simpl.
  destruct rel as [|x rel]; [done|]. by apply as_posix_relative.
Qed.

(** ** What the globs find *)

Lemma elem_of_List_filter {A} (f : A → bool) (l : list A) x :
  x ∈ List.filter f l ↔ f x = true ∧ x ∈ l.
Proof. rewrite !list_elem_of_In, filter_In. tauto. Qed.

Lemma elem_of_glob1 fs d extension x :
  x ∈ _glob1 fs d extension
  ↔ is_Some (fs !! (d ++ [x])) ∧ hidden x = false
    ∧ str_endswith x ("." +:+ extension) = true.
Proof.
  unfold _glob1. rewrite elem_of_List_filter, elem_of_dir_names, andb_true_iff, negb_true_iff.
  tauto.
Qed.

Lemma fs_depth_bound fs p : is_Some (fs !! p) → length p ≤ fs_depth fs.
Proof.
  intros [x Hx]. apply elem_of_map_to_list in Hx. unfold fs_depth.
  induction (map_to_list fs) as [|e l IH]; [by apply elem_of_nil in Hx|].
  simpl. apply elem_of_cons in Hx as [<-|Hx]; [simpl; lia|].
  specialize (IH Hx). lia.
Qed.

Lemma is_dir_Some fs p : p ≠ [] → is_dir fs p = true → fs !! p = Some Dir.
Proof.
  unfold is_dir. destruct p as [|c p]; [done|]. simpl.
  by destruct (fs !! (c :: p)) as [[|]|].
Qed.

(** The directories that the recursive pattern visits below [d]: those
    reached from [d] through directories that are not hidden. *)
Lemma elem_of_rlistdir n fs : ∀ d rel,
  rel ∈ _rlistdir n fs d →
  rel ≠ [] ∧ Forall (λ x, hidden x = false) rel
  ∧ ∀ k, 0 < k ≤ length rel → is_dir fs (d ++ take k rel) = true.
Proof.
  induction n as [|n IH]; intros d rel; [by intros ?%elem_of_nil|].
  cbn [_rlistdir]. intros (x & Hrel & Hx)%list_elem_of_bind.
  apply elem_of_List_filter in Hx as [[Hh%negb_true_iff Hd]%andb_prop _].
  apply elem_of_cons in Hrel as [->|Hrel].
  - split; [done|]. split; [by repeat constructor|].
    intros k Hk. simpl in Hk. by replace k with 1 by lia.
  - apply list_elem_of_fmap in Hrel as (y & -> & Hy).
    apply IH in Hy as (_ & Hall & Hdirs). split; [done|]. split; [by constructor|].
    intros [|k] Hk; [lia|]. simpl in Hk. destruct k as [|k]; [done|].
    cbn [take]. specialize (Hdirs (S k)). rewrite <- app_assoc in Hdirs. apply Hdirs. lia.
Qed.

Lemma rlistdir_complete n fs : ∀ d rel,
  rel ≠ [] → length rel ≤ n → Forall (λ x, hidden x = false) rel →
  (∀ k, 0 < k ≤ length rel → is_dir fs (d ++ take k rel) = true) →
  rel ∈ _rlistdir n fs d.
Proof.
  induction n as [|n IH]; intros d [|x rel] Hne Hlen Hh Hdirs; try done.
  { simpl in Hlen. lia. }
  apply Forall_cons in Hh as [Hx Hh]. cbn [_rlistdir]. apply list_elem_of_bind.
  exists x. split.
  - destruct rel as [|y rel]; [by left|]. right. apply list_elem_of_fmap.
    exists (y :: rel). split; [done|]. apply IH; [done|simpl in *; lia|done|].
    intros k Hk. specialize (Hdirs (S k)). cbn [take] in Hdirs.
    rewrite <- app_assoc. apply Hdirs. simpl in *. lia.
  - apply elem_of_List_filter. specialize (Hdirs 1). cbn [take] in Hdirs.
    rewrite take_0 in Hdirs. assert (is_dir fs (d ++ [x]) = true) as Hdx.
    { apply Hdirs. simpl. lia. }
    rewrite Hx, Hdx. split; [done|].
    apply elem_of_dir_names. rewrite (is_dir_Some fs (d ++ [x])); [by eexists| |done].
    by destruct d.
Qed.

(** The recursion has come to its end after [fs_depth fs] levels: one
    level more finds nothing more. *)
Lemma rlistdir_depth n fs : ∀ d,
  fs_depth fs ≤ length d + n → _rlistdir (S n) fs d = _rlistdir n fs d.
Proof.
  induction n as [|n IH]; intros d Hn.
  - cbn [_rlistdir]. assert (dir_names fs d = []) as ->; [|done].
    destruct (dir_names fs d) as [|x l] eqn:Hl; [done|].
    assert (x ∈ dir_names fs d) as Hx by (rewrite Hl; by left).
    apply elem_of_dir_names, fs_depth_bound in Hx. rewrite length_app in Hx. simpl in Hx. lia.
  - change (_rlistdir (S (S n)) fs d)
      with (x ← List.filter (λ x, negb (hidden x) && is_dir fs (d ++ [x])) (dir_names fs d);
            [x] :: ((λ y, x :: y) <$> _rlistdir (S n) fs (d ++ [x]))).
    change (_rlistdir (S n) fs d)
      with (x ← List.filter (λ x, negb (hidden x) && is_dir fs (d ++ [x])) (dir_names fs d);
            [x] :: ((λ y, x :: y) <$> _rlistdir n fs (d ++ [x]))).
    apply list_bind_ext; [|done]. intros x. rewrite IH; [done|].
    rewrite length_app. simpl. lia.
Qed.

Lemma rlistdir_enough n fs d :
  fs_depth fs ≤ n → _rlistdir n fs d = _rlistdir (fs_depth fs) fs d.
Proof.
  intros Hn. replace n with (fs_depth fs + (n - fs_depth fs)) by lia.
  induction (n - fs_depth fs) as [|k IH]; [by rewrite Nat.add_0_r|].
  rewrite Nat.add_succ_r, rlistdir_depth; [done|lia].
Qed.

Lemma glob_recursive_eq dir extension fs d :
  resolve fs dir = Ok d → is_dir fs d = true →
  glob_recursive dir extension fs
  = (fs, Ok (rel ← [] :: _rlistdir (fs_depth fs) fs d;
             (λ x, dir +:+ "/" +:+ str_join "/" (rel ++ [x]))
               <$> _glob1 fs (d ++ rel) extension)).
Proof. intros Hd Hdir. unfold glob_recursive. by rewrite Hd, Hdir. Qed.

(** What a glob returns: the nodes below the directory whose name ends
    in the extension, reached through directories, no name on the way
    being hidden. *)
Lemma elem_of_glob_recursive dir extension fs d found p :
  resolve fs dir = Ok d → is_dir fs d = true →
  glob_recursive dir extension fs = (fs, Ok found) →
  p ∈ found
  ↔ ∃ rel x,
      p = dir +:+ "/" +:+ str_join "/" (rel ++ [x])
      ∧ is_Some (fs !! (d ++ rel ++ [x]))
      ∧ Forall (λ y, hidden y = false) (rel ++ [x])
      ∧ str_endswith x ("." +:+ extension) = true
      ∧ ∀ k, k ≤ length rel → is_dir fs (d ++ take k rel) = true.
Proof.
  intros Hd Hdir. rewrite (glob_recursive_eq _ _ _ _ Hd Hdir). intros Hg.
  assert (found = rel ← [] :: _rlistdir (fs_depth fs) fs d;
                  (λ x, dir +:+ "/" +:+ str_join "/" (rel ++ [x]))
                    <$> _glob1 fs (d ++ rel) extension) as -> by congruence.
  clear Hg. rewrite list_elem_of_bind. split.
  - intros (rel & Hp & Hrel). apply list_elem_of_fmap in Hp as (x & -> & Hx).
    apply elem_of_glob1 in Hx as (Hsome & Hh & Hext). rewrite <- app_assoc in Hsome.
    exists rel, x. split; [done|]. split; [done|].
    apply elem_of_cons in Hrel as [->|Hrel].
    + split; [by repeat constructor|]. split; [done|]. intros k Hk.
      by rewrite take_nil, app_nil_r.
    + apply elem_of_rlistdir in Hrel as (_ & Hall & Hdirs).
      split; [apply Forall_app; by repeat constructor|]. split; [done|].
      intros [|k] Hk; [by rewrite take_0, app_nil_r|]. apply Hdirs. lia.
  - intros (rel & x & -> & Hsome & Hh & Hext & Hdirs).
    apply Forall_app in Hh as [Hrel Hx]. apply Forall_cons in Hx as [Hx _].
    exists rel. split.
    + apply list_elem_of_fmap. exists x. split; [done|].
      apply elem_of_glob1. by rewrite <- app_assoc.
    + destruct rel as [|y rel]; [by left|]. right.
      apply rlistdir_complete; [done| |done|intros k Hk; apply Hdirs; lia].
      apply fs_depth_bound in Hsome. rewrite !length_app in Hsome. lia.
Qed.

Lemma glob_recursive_found dir extension fs found p :
  fs_wf fs →
  glob_recursive dir extension fs = (fs, Ok found) → p ∈ found →
  ∃ d rel, resolve fs dir = Ok d ∧ is_Some (fs !! (d ++ rel)) ∧ rel ≠ []
           ∧ Forall (λ n, clean_name n = true) rel
           ∧ p = dir +:+ "/" +:+ str_join "/" rel.
Proof.
  intros Hwf Hg Hp. destruct (resolve fs dir) as [d|e] eqn:Hd.
  2: { unfold glob_recursive in Hg. rewrite Hd in Hg. simplify_eq.
       by apply elem_of_nil in Hp. }
  destruct (is_dir fs d) eqn:Hdir.
  2: { unfold glob_recursive in Hg. rewrite Hd, Hdir in Hg. simplify_eq.
       by apply elem_of_nil in Hp. }
  destruct (proj1 (elem_of_glob_recursive dir extension fs d found p Hd Hdir Hg) Hp)
    as (rel & x & -> & Hsome & _).
  exists d, (rel ++ [x]). split; [done|]. split; [done|]. split; [by destruct rel|].
  split; [|done]. apply Hwf in Hsome. by apply Forall_app in Hsome as [_ ?].
Qed.

Lemma discover_found app fs found p :
  fs_wf fs →
  discover app fs = (fs, Ok found) → p ∈ found →
  ∃ d rel, resolve fs (srcdir app) = Ok d ∧ is_Some (fs !! (d ++ rel)) ∧ rel ≠ []
           ∧ Forall (λ n, clean_name n = true) rel
           ∧ p = srcdir app +:+ "/" +:+ str_join "/" rel.
Proof.
  intros Hwf. unfold discover.
  assert (∀ exts acc,
    (∀ q, q ∈ acc → ∃ d rel, resolve fs (srcdir app) = Ok d ∧ is_Some (fs !! (d ++ rel))
            ∧ rel ≠ [] ∧ Forall (λ n, clean_name n = true) rel
            ∧ q = srcdir app +:+ "/" +:+ str_join "/" rel) →
    mfold exts (λ result extension,
                  let* found := glob_recursive (srcdir app) extension in
                  ret (result ++ found)) acc fs = (fs, Ok found) →
    p ∈ found →
    ∃ d rel, resolve fs (srcdir app) = Ok d ∧ is_Some (fs !! (d ++ rel)) ∧ rel ≠ []
             ∧ Forall (λ n, clean_name n = true) rel
             ∧ p = srcdir app +:+ "/" +:+ str_join "/" rel) as Hgen.
  { induction exts as [|x exts IH]; intros acc Hacc; simpl.
    - intros [= <-]. apply Hacc.
    - rewrite !bind_eq. pose proof (glob_recursive_fs (srcdir app) x fs) as Hfs.
      destruct (glob_recursive (srcdir app) x fs) as [fs1 [fx|e]] eqn:Hg; [|done].
      simpl in Hfs. subst fs1. unfold ret at 1. apply IH.
      intros q [Hq|Hq]%elem_of_app; [by apply Hacc|].
      by apply (glob_recursive_found (srcdir app) x fs fx q). }
  apply Hgen. by intros q ?%elem_of_nil.
Qed.

(** The line of a scanned document in a tag page is [../] followed by the
    names that lead from the source directory to the file of the
    document, joined by slashes. *)
Lemma entry_line_refers app fs d pages D :
  fs_wf fs →
  str_startswith (srcdir app) "/" = true →
  assign_entries app fs = (fs, Ok (d, pages)) →
  D ∈ pages →
  ∃ dir rel,
    resolve fs (srcdir app) = Ok dir
    ∧ is_Some (fs !! (dir ++ rel))
    ∧ rel ≠ [] ∧ Forall (λ n, clean_name n = true) rel
    ∧ filepath D = Path_of (srcdir app +:+ "/" +:+ str_join "/" rel)
    ∧ ∀ extension,
        entry_line extension (srcdir app) D
        = (if bool_decide ("md" ∈ extension) then "../" else "    ../")
          +:+ str_join "/" rel.
Proof.
  intros Hwf Habs Ha HD.
  destruct (pages_in_discovery_order _ _ _ _ _ Ha) as (found & Hfound & Hpaths).
  assert (filepath D ∈ Path_of <$> found) as Hin.
  { rewrite <- Hpaths. apply list_elem_of_fmap. by exists D. }
  apply list_elem_of_fmap in Hin as (p & HDp & Hp).
  destruct (discover_found app fs found p Hwf Hfound Hp)
    as (dir & rel & Hdir & Hfile & Hne & Hrel & ->).
  exists dir, rel. repeat split; try done.
  intros extension. unfold entry_line. f_equal. by apply relpath_of_below.
Qed.

(** ** The names of the generated pages *)

Lemma str_length_app a b : String.length (a +:+ b) = String.length a + String.length b.
Proof. induction a as [|c a IH]; [done|]. rewrite str_app_cons. simpl. by rewrite IH. Qed.

Lemma str_drop_app a b : str_drop (String.length a) (a +:+ b) = b.
Proof. induction a as [|c a IH]; [by destruct b|]. by rewrite str_app_cons. Qed.

Lemma str_endswith_app a b : str_endswith (a +:+ b) b = true.
Proof.
  unfold str_endswith. rewrite str_length_app.
  replace (String.length a + String.length b - String.length b) with (String.length a) by lia.
  rewrite str_drop_app, bool_decide_eq_true_2 by done.
  rewrite andb_true_r. apply Nat.leb_le. lia.
Qed.

Lemma str_mem_app c a b : str_mem c (a +:+ b) = str_mem c a || str_mem c b.
Proof.
  induction a as [|x a IH]; [done|]. rewrite str_app_cons. simpl.
  by rewrite IH, orb_assoc.
Qed.

Lemma str_mem_replace c x y s :
  c ≠ x → c ≠ y → str_mem c (str_replace x y s) = str_mem c s.
Proof.
  intros Hx Hy. induction s as [|z s IH]; simpl; [done|]. rewrite IH. f_equal.
  destruct (decide (z = x)) as [->|]; [|done].
  by rewrite !bool_decide_eq_false_2.
Qed.

Lemma page_name_clean stem ext :
  str_mem slash stem = false → ext = "md" ∨ ext = "rst" →
  clean_name (stem +:+ "." +:+ ext) = true ∧ removable (stem +:+ "." +:+ ext) = true.
Proof.
  intros Hs Hext. split.
  - unfold clean_name.
    assert (2 < String.length (stem +:+ "." +:+ ext)) as Hlen.
    { rewrite !str_length_app. destruct Hext as [-> | ->]; simpl; lia. }
    rewrite !andb_true_iff, !negb_true_iff. repeat split.
    + apply bool_decide_eq_false. intros H. rewrite H in Hlen. simpl in Hlen. lia.
    + apply bool_decide_eq_false. intros H. rewrite H in Hlen. simpl in Hlen. lia.
    + apply bool_decide_eq_false. intros H. rewrite H in Hlen. simpl in Hlen. lia.
    + rewrite !str_mem_app, Hs. by destruct Hext as [-> | ->].
  - unfold removable. rewrite <- str_app_assoc.
    destruct Hext as [-> | ->]; rewrite str_endswith_app; [done|apply orb_true_r].
Qed.

Lemma dialect_cases app : dialect app = "md" ∨ dialect app = "rst".
Proof. unfold dialect. destruct (bool_decide _); [by left|by right]. Qed.

Lemma page_write_child app all_tags pages w :
  Forall (λ t, str_mem slash t = false) all_tags.*1 →
  registry_ok all_tags →
  w ∈ page_writes app all_tags pages →
  ∃ n, w.1 = os_path_join (outdir_of app) n ∧ clean_name n = true ∧ removable n = true.
Proof.
  intros Hsl Hok [Hw|Hw%list_elem_of_singleton]%elem_of_app.
  - apply list_elem_of_fmap in Hw as (T & -> & HT).
    unfold dict_values in HT. apply list_elem_of_fmap in HT as ([k T'] & -> & Hk).
    destruct (Hok _ _ Hk) as [HnT _].
    exists (tag_file_stem (name T') +:+ "." +:+ dialect app).
    rewrite tag_write_path. split; [done|]. apply page_name_clean; [|apply dialect_cases].
    unfold tag_file_stem. rewrite str_mem_replace by done. rewrite HnT.
    apply (proj1 (Forall_forall _ _) Hsl). apply list_elem_of_fmap. by exists (k, T').
  - subst w. rewrite overview_write_path. exists ("tagsindex." +:+ dialect app).
    split; [done|]. by destruct (dialect_cases app) as [-> | ->].
Qed.

(** ** The clean-up *)

Lemma fs_wf_insert fs p x :
  fs_wf fs → Forall (λ n, clean_name n = true) p → fs_wf (<[p := x]> fs).
Proof.
  intros Hwf Hp q. rewrite lookup_insert. destruct (decide (p = q)) as [<-|]; [done|].
  apply Hwf.
Qed.

Lemma os_mkdir_wf path fs : fs_wf fs → fs_wf (os_mkdir path fs).1.
Proof.
  intros Hwf. unfold os_mkdir. destruct (path_error path); [done|].
  destruct (resolve fs path) as [p|e] eqn:Hp; [|done].
  destruct (node_at fs p); [done|]. destruct (too_long _); [done|].
  simpl. apply fs_wf_insert; [done|]. by apply resolve_clean in Hp.
Qed.

Lemma makedirs_from_wf comps : ∀ pre fs, fs_wf fs → fs_wf (makedirs_from pre comps fs).1.
Proof.
  induction comps as [|c comps IH]; intros pre fs Hwf; simpl; [done|].
  rewrite bind_eq. unfold os_path_exists at 1. rewrite bind_eq.
  destruct (match resolve fs (pre +:+ c) with Ok p => _ | Raise _ => false end).
  - destruct comps; [done|]. unfold ret at 1. by apply IH.
  - pose proof (os_mkdir_wf (pre +:+ c) fs Hwf) as Hwf'.
    destruct (os_mkdir (pre +:+ c) fs) as [fs' [[]|e]]; [|done]. by apply IH.
Qed.

Lemma clean_ok app fs fsR :
  fs_wf fs →
  clean app (Path_of (tags_output_dir (config app))) fs = (fsR, Ok ()) →
  ∃ d, resolve fsR (outdir_of app) = Ok d
     ∧ node_at fsR d = Some Dir
     ∧ ∀ n, removable n = true → fsR !! (d ++ [n]) = None.
Proof.
  intros Hwf. unfold clean. fold (outdir_of app). rewrite bind_eq.
  unfold os_path_exists at 1. rewrite bind_eq.
  set (ex := match resolve fs (outdir_of app) with Ok p => _ | Raise _ => false end).
  assert (∃ fsA r, (if negb ex then os_makedirs (outdir_of app) else ret ()) fs = (fsA, r)
                   ∧ fs_wf fsA) as (fsA & r & -> & HwfA).
  { destruct (negb ex).
    - pose proof (makedirs_from_wf (str_split slash (outdir_of app)) EmptyString fs Hwf).
      unfold os_makedirs. destruct (makedirs_from _ _ fs) as [fsA r]. by exists fsA, r.
    - by exists fs, (Ok ()). }
  destruct r as [[]|e]; [|done]. rewrite bind_eq. unfold os_listdir at 1.
  destruct (resolve fsA (outdir_of app)) as [d|e] eqn:Hd; [|done].
  destruct (node_at fsA d) as [[c|]|] eqn:Hdir; try done.
  intros Hloop. apply (sweep_ok (outdir_of app) d) in Hloop as [-> Hs]; try done.
  - exists d. split; [by apply (walk_same_dirs _ _ _ _ _ Hs)|]. split; [by apply Hs|].
    intros n Hn. rewrite swept_lookup.
    destruct (existsb _ _) eqn:Hex; [done|].
    destruct (fsA !! (d ++ [n])) as [x|] eqn:Hx; [|done].
    assert (n ∈ dir_names fsA d) as Hin by (apply elem_of_dir_names; by eexists).
    apply list_elem_of_In in Hin.
    assert (existsb (λ n0, removable n0 && bool_decide (d ++ [n] = d ++ [n0]))
                    (dir_names fsA d) = true) as Hex'.
    { apply existsb_exists. exists n. split; [done|].
      by rewrite Hn, bool_decide_eq_true_2. }
    congruence.
  - intros n Hin%elem_of_dir_names _. apply HwfA in Hin.
    apply Forall_app in Hin as [_ Hin]. by inversion Hin.
Qed.

Lemma clean_again app d fsR fs1 :
  resolve fs1 (outdir_of app) = Ok d →
  node_at fs1 d = Some Dir →
  (∀ n, removable n = true → fsR !! (d ++ [n]) = None) →
  (∀ q, fs1 !! q = fsR !! q
        ∨ ∃ n c, q = d ++ [n] ∧ clean_name n = true ∧ removable n = true
                 ∧ fs1 !! q = Some (File c)) →
  clean app (Path_of (tags_output_dir (config app))) fs1 = (fsR, Ok ()).
Proof.
  intros Hd Hdir Hnone Hdiff. unfold clean. fold (outdir_of app). rewrite bind_eq.
  unfold os_path_exists at 1. rewrite Hd, Hdir, bool_decide_eq_true_2 by by eexists.
  simpl negb. cbv iota. unfold ret at 1. rewrite !bind_eq.
  unfold os_listdir at 1. rewrite Hd, Hdir.
  rewrite (sweep_succeeds (outdir_of app) d); [|done|done|apply NoDup_dir_names|].
  - f_equal. apply map_eq. intros q. rewrite swept_lookup.
    destruct (existsb _ _) eqn:Hex.
    + apply existsb_exists in Hex as (n & _ & [Hr ->%bool_decide_eq_true]%andb_prop).
      symmetry. by apply Hnone.
    + destruct (Hdiff q) as [->|(n & c & -> & Hcl & Hr & Hq)]; [done|].
      assert (n ∈ dir_names fs1 d) as Hin by (apply elem_of_dir_names; by eexists).
      apply list_elem_of_In in Hin.
      assert (existsb (λ n0, removable n0 && bool_decide (d ++ [n] = d ++ [n0]))
                      (dir_names fs1 d) = true) as Hex'.
      { apply existsb_exists. exists n. split; [done|].
        by rewrite Hr, bool_decide_eq_true_2. }
      congruence.
  - intros n Hin%elem_of_dir_names Hr.
    destruct (Hdiff (d ++ [n])) as [Heq|(n' & c & Hq & Hcl & _ & Hc)].
    + rewrite Heq, Hnone in Hin by done. by destruct Hin.
    + apply app_inv_head in Hq as [= <-]. split; [done|by exists c].
Qed.

(** A disabled orchestrator changes nothing. *)
Lemma update_tags_disabled app fs :
  tags_create_tags (config app) = false → update_tags app fs = (fs, Ok ()).
Proof. intros H. unfold update_tags. by rewrite H. Qed.

(** C4, amended.  On a file system whose paths are made of proper names,
    when no declared tag holds a slash, so that every page is written
    directly into the output directory, a second run on the outcome of a
    successful run succeeds and leaves every file as it is: its clean-up
    removes the generated pages, which restores the state that the first
    run generated from, and the same pages are written again. *)
Theorem rebuild_idempotent (app : App) (fs fsR fs1 : FS)
    (all_tags : list (string * Tag)) (pages : list Entry) :
  tags_create_tags (config app) = true →
  fs_wf fs →
  clean app (Path_of (tags_output_dir (config app))) fs = (fsR, Ok ()) →
  assign_entries app fsR = (fsR, Ok (all_tags, pages)) →
  update_tags app fs = (fs1, Ok ()) →
  Forall (λ t, str_mem slash t = false) all_tags.*1 →
  clean app (Path_of (tags_output_dir (config app))) fs1 = (fsR, Ok ())
  ∧ update_tags app fs1 = (fs1, Ok ()).
Proof.
  intros Hon Hwf Hclean Hassign Hrun Hsl.
  unfold update_tags in Hrun. rewrite Hon, bind_eq, Hclean in Hrun.
  pose proof Hrun as Hgen. rewrite generate_eq, bind_eq, Hassign in Hrun.
  apply write_all_ok in Hrun as (Hs & Hall & Hlook).
  destruct (clean_ok app fs fsR Hwf Hclean) as (d & Hd & Hdir & Hnone).
  pose proof (assign_entries_registry _ _ _ _ _ Hassign) as [_ Hreg].
  assert (registry_ok all_tags) as Hok by (rewrite Hreg; apply registry_of_ok).
  assert (∀ w, w ∈ page_writes app all_tags pages →
            ∃ n, resolve fsR w.1 = Ok (d ++ [n]) ∧ clean_name n = true
                 ∧ removable n = true) as Hws.
  { intros w Hw. destruct (page_write_child app all_tags pages w Hsl Hok Hw)
      as (n & -> & Hcl & Hr). exists n. split; [|done]. by apply resolve_child. }
  assert (clean app (Path_of (tags_output_dir (config app))) fs1 = (fsR, Ok ())) as Hclean1.
  { apply (clean_again app d).
    - by apply (walk_same_dirs _ _ _ _ _ Hs).
    - by apply Hs.
    - done.
    - intros q. rewrite Hlook. destruct (last_write fsR _ q) as [c|] eqn:Hl; [|by left].
      right. apply last_write_Some in Hl as (w & Hw & Hq & _).
      destruct (Hws w Hw) as (n & Hn & Hcl & Hr). rewrite Hq in Hn. simplify_eq.
      by exists n, c. }
  split; [done|]. unfold update_tags. by rewrite Hon, bind_eq, Hclean1.
Qed.

(** ** Substrings *)

Lemma str_contains_cons sub c s :
  str_contains sub (String c s) = str_startswith (String c s) sub || str_contains sub s.
Proof. done. Qed.

Lemma str_contains_app_l sub a b :
  str_contains sub a = true → str_contains sub (a +:+ b) = true.
Proof.
  induction a as [|c a IH].
  - simpl. rewrite orb_false_r. destruct sub; [|done]. intros _. by destruct b.
  - rewrite str_app_cons, !str_contains_cons. intros [H|H]%orb_prop.
    + rewrite <- str_app_cons. by rewrite (str_startswith_app_l (String c a) b sub H).
    + rewrite IH by done. apply orb_true_r.
Qed.

Lemma str_contains_app_r sub a b :
  str_contains sub b = true → str_contains sub (a +:+ b) = true.
Proof.
  intros H. induction a as [|c a IH]; [done|].
  rewrite str_app_cons, str_contains_cons, IH. apply orb_true_r.
Qed.

Lemma str_contains_refl s : str_contains s s = true.
Proof.
  assert (str_startswith s s = true) as H.
  { induction s as [|c s IH]; [done|]. simpl. by rewrite IH, bool_decide_eq_true_2. }
  destruct s; [done|]. by rewrite str_contains_cons, H.
Qed.

(** A line of a page is a substring of the page. *)
Lemma str_contains_join sep x l : x ∈ l → str_contains x (str_join sep l) = true.
Proof.
  induction l as [|y l IH]; [by intros ?%elem_of_nil|].
  intros [->|Hin]%elem_of_cons.
  - destruct l as [|z l]; [apply str_contains_refl|].
    rewrite str_join_cons. apply str_contains_app_l, str_contains_refl.
  - destruct l as [|z l]; [by apply elem_of_nil in Hin|].
    rewrite str_join_cons. by apply str_contains_app_r, str_contains_app_r, IH.
Qed.

Lemma fs_wf_check (fs : FS) :
  forallb (λ e, forallb clean_name e.1) (map_to_list fs) = true → fs_wf fs.
Proof.
  intros H p [x Hx]. apply elem_of_map_to_list, list_elem_of_In in Hx.
  rewrite forallb_forall in H. specialize (H _ Hx). simpl in H.
  rewrite forallb_forall in H. apply Forall_forall. intros n Hn.
  apply H. by apply list_elem_of_In.
Qed.

(** ** The statements at work *)

(** The scenario of two documents: [Alpha.rst] lists [a.rst], [Beta.rst]
    lists both, sorted by path, and the overview counts one and two. *)
Example two_docs_pages :
  let fs' := (update_tags (project ["rst"]) two_docs).1 in
  fs' !! ["docs"; "_tags"; "Alpha.rst"]
  = Some (File (str_join NL
      [ "My tags: Alpha"; "##############"; EmptyString; ".. toctree::";
        "    :maxdepth: 1"; "    :caption: With this tag"; EmptyString;
        "    ../a.rst"; EmptyString ]))
  ∧ fs' !! ["docs"; "_tags"; "Beta.rst"]
  = Some (File (str_join NL
      [ "My tags: Beta"; "#############"; EmptyString; ".. toctree::";
        "    :maxdepth: 1"; "    :caption: With this tag"; EmptyString;
        "    ../a.rst"; "    ../b.rst"; EmptyString ]))
  ∧ fs' !! ["docs"; "_tags"; "tagsindex.rst"]
  = Some (File (str_join NL
      [ ":orphan:"; EmptyString; ".. _tagoverview:"; EmptyString; "Tags overview";
        "#############"; EmptyString; ".. toctree::"; "    :caption: Tags";
        "    :maxdepth: 1"; EmptyString;
        "    Alpha (1) <Alpha.rst>"; "    Beta (2) <Beta.rst>"; EmptyString ])).
Proof. vm_compute. done. Qed.

(** Paths are compared component by component: [a/z.rst] comes before
    [a-b.rst], which as a string is the smaller. *)
Example three_items_pages :
  (create_file_content (Tag_init "t") three_items ["rst"] "/docs" "My tags" "With this tag").2
  = [ "My tags: t"; "##########"; EmptyString; ".. toctree::"; "    :maxdepth: 1";
      "    :caption: With this tag"; EmptyString;
      "    ../a/z.rst"; "    ../a-b.rst"; "    ../c.rst"; EmptyString ]
  ∧ (create_file_content (Tag_init "t") three_items ["md"] "/docs" "My tags" "With this tag").2
  = [ "# My tags: t"; EmptyString; "```{toctree}"; "---"; "maxdepth: 1";
      "caption: With this tag"; "---";
      "../c.rst"; "../a/z.rst"; "../a-b.rst"; "```"; EmptyString ]
  ∧ str_ltb "/docs/a-b.rst" "/docs/a/z.rst" = true.
Proof. vm_compute. done. Qed.

Example overview_sorted :
  (tagpage_content [("zeta", Tag_init "zeta"); ("alpha", Tag_init "alpha")]
     "/docs/_tags" "Tags overview" ["md"; "rst"] "Tags")
  = ("/docs/_tags/tagsindex.md",
     [ "(tagoverview)="; EmptyString; "# Tags overview"; EmptyString; "```{toctree}";
       "---"; "caption: Tags"; "maxdepth: 1"; "---";
       "alpha (0) <alpha>"; "zeta (0) <zeta>"; "```"; EmptyString ]).
Proof. vm_compute. done. Qed.

Example machine_learning_file :
  (create_file_content (Tag_init "machine learning") [] ["rst"] "/docs" "T" "H").1
  = "machine_learning.rst"
  ∧ (create_file_content (Tag_init "machine learning") [] ["rst"; "md"] "/docs" "T" "H").1
  = "machine_learning.md".
Proof. vm_compute. done. Qed.

(** With the mapping from [rel-*] to [red]: [rel-1] is red, [misc] gets
    the default, and so does [release-1], which the pattern does not
    match since it has no hyphen after [rel]. *)
Example badge_colors :
  let cfg := {| tags_create_tags := true; tags_output_dir := "_tags";
                tags_overview_title := "Tags overview"; tags_extension := ["rst"];
                tags_intro_text := "Tags:"; tags_page_title := "My tags";
                tags_page_header := "With this tag"; tags_index_head := "Tags";
                tags_create_badges := true;
                tags_badge_colors := Some [("rel-*", "red"); ("*", "blue")] |} in
  _get_tag_color fnmatch_plain cfg "rel-1" = "red"
  ∧ _get_tag_color fnmatch_plain cfg "release-1" = "blue"
  ∧ _get_tag_color fnmatch_plain default_config "misc" = "primary"
  ∧ fnmatch_plain "release-1" "rel-*" = false.
Proof. vm_compute. done. Qed.

Example extractor_keeps_empty_tags :
  extract_tags _rst_regex (".. tags:: a, , b," +:+ NL) = ["a"; EmptyString; "b"; EmptyString]
  ∧ extract_tags _md_regex "```{tags} a```text```{tags}b,c```" = ["a"; "b"; "c"]
  ∧ extract_tags _nb_regex (DQ +:+ ".. tags:: a, b\n" +:+ DQ +:+ ",") = ["a"; "b"].
Proof. vm_compute. done. Qed.

(** ** Witnesses and counterexamples *)

(** A run is known by its result. *)
Lemma run_eq {A} (c : FS * result A) (fs : FS) (r : result A) :
  c.1 = fs → c.2 = r → c = (fs, r).
Proof. destruct c as [fs' r']. simpl. by intros -> ->. Qed.

Lemma run_ok {A} (c : FS * result A) (a : A) : c.2 = Ok a → c = (c.1, Ok a).
Proof. intros H. by apply run_eq. Qed.

Lemma assign_entries_run app fs r :
  (assign_entries app fs).2 = Ok r → assign_entries app fs = (fs, Ok r).
Proof. intros H. apply run_eq; [apply assign_entries_fs|exact H]. Qed.

Lemma discover_run app fs r :
  (discover app fs).2 = Ok r → discover app fs = (fs, Ok r).
Proof. intros H. apply run_eq; [apply discover_fs|exact H]. Qed.

Lemma Entry_init_run entrypath fs r :
  (Entry_init entrypath fs).2 = r → Entry_init entrypath fs = (fs, r).
Proof. intros H. apply run_eq; [apply Entry_init_fs|exact H]. Qed.

Lemma open_read_run path fs r :
  (open_read path fs).2 = r → open_read path fs = (fs, r).
Proof. intros H. apply run_eq; [apply open_read_fs|exact H]. Qed.

(** C4 as stated fails.  A document [foo.rst] tagged [../foo]: the page
    of the tag is written over the document itself, outside the output
    directory; the second run finds no tag there and writes an empty
    overview. *)
Lemma rebuild_counterexample :
  let app := project ["rst"] in
  let fs1 := (update_tags app escaping_tag).1 in
  let fs2 := (update_tags app fs1).1 in
  update_tags app escaping_tag = (fs1, Ok ())
  ∧ update_tags app fs1 = (fs2, Ok ())
  ∧ (∃ page, fs1 !! ["docs"; "_tags"; "tagsindex.rst"] = Some (File page)
             ∧ str_contains "../foo (1) <../foo.rst>" page = true)
  ∧ (∃ page, fs2 !! ["docs"; "_tags"; "tagsindex.rst"] = Some (File page)
             ∧ str_contains "../foo (1) <../foo.rst>" page = false)
  ∧ fs2 ≠ fs1.
Proof.
  split; [apply run_ok; vm_compute; reflexivity|].
  split; [apply run_ok; vm_compute; reflexivity|].
  split; [eexists; split; vm_compute; reflexivity|].
  split; [eexists; split; vm_compute; reflexivity|].
  - intros Heq.
    assert (bool_decide ((update_tags (project ["rst"])
                            (update_tags (project ["rst"]) escaping_tag).1).1
                           !! ["docs"; "_tags"; "tagsindex.rst"]
                         = (update_tags (project ["rst"]) escaping_tag).1
                           !! ["docs"; "_tags"; "tagsindex.rst"]) = false) as Hne
      by (vm_compute; reflexivity).
    apply bool_decide_eq_false in Hne. apply Hne. by rewrite Heq.
Qed.

(** The amended C4 on the two documents. *)
Lemma rebuild_idempotent_witness :
  let app := project ["rst"] in
  let fs1 := (update_tags app two_docs).1 in
  clean app (Path_of "_tags") fs1 = ((clean app (Path_of "_tags") two_docs).1, Ok ())
  ∧ update_tags app fs1 = (fs1, Ok ()).
Proof.
  apply (rebuild_idempotent (project ["rst"]) two_docs
           (clean (project ["rst"]) (Path_of "_tags") two_docs).1
           (update_tags (project ["rst"]) two_docs).1
           (registry_of [entry_of two_docs "/docs/b.rst"; entry_of two_docs "/docs/a.rst"])
           [entry_of two_docs "/docs/b.rst"; entry_of two_docs "/docs/a.rst"]).
  - reflexivity.
  - apply fs_wf_check. vm_compute. reflexivity.
  - apply run_ok. vm_compute. reflexivity.
  - apply assign_entries_run. vm_compute. reflexivity.
  - apply run_ok. vm_compute. reflexivity.
  - apply Forall_forall. intros t Hin. apply list_elem_of_In in Hin. vm_compute in Hin.
    destruct Hin as [<-|[<-|[]]]; vm_compute; reflexivity.
Defined.


(** C6 on a project that scans [md] and [txt]. *)
Lemma unsupported_extension_aborts_witness :
  Entry_init "/docs/notes.txt" with_text_file
  = (with_text_file, Raise (ValueError unknown_extension))
  ∧ ∃ e, update_tags (project ["md"; "txt"]) with_text_file
         = ((clean (project ["md"; "txt"]) (Path_of "_tags") with_text_file).1, Raise e)
         ∧ (Forall (readable (clean (project ["md"; "txt"]) (Path_of "_tags") with_text_file).1)
                   ["/docs/a.md"; "/docs/notes.txt"]
            → e = ValueError unknown_extension).
Proof.
  destruct unsupported_extension_aborts as (Hentry & _ & Hbuild). split.
  - apply (Hentry "/docs/notes.txt" with_text_file "plain");
      [apply open_read_run|]; vm_compute; reflexivity.
  - apply (Hbuild (project ["md"; "txt"]) with_text_file
             (clean (project ["md"; "txt"]) (Path_of "_tags") with_text_file).1
             ["/docs/a.md"; "/docs/notes.txt"] "/docs/notes.txt").
    + reflexivity.
    + apply run_ok. vm_compute. reflexivity.
    + apply discover_run. vm_compute. reflexivity.
    + apply list_elem_of_In. vm_compute. tauto.
    + vm_compute. reflexivity.
Defined.

(** C9 on the first registration of a build and on the two documents. *)
Lemma registry_invariant_witness :
  let e := entry_of two_docs "/docs/a.rst" in
  (registry_ok (if dict_mem "Alpha" (@nil (string * Tag)) then []
                else dict_set "Alpha" (Tag_init "Alpha") [])
   ∧ registry_ok (assign_to_tag e [] "Alpha")
   ∧ (items <$> dict_get "Alpha" (assign_to_tag e [] "Alpha")
      = Some (default [] (items <$> dict_get "Alpha" []) ++ [e]))
   ∧ ∀ k, k ≠ "Alpha" → dict_get k (assign_to_tag e [] "Alpha") = dict_get k [])
  ∧ (registry_of [entry_of two_docs "/docs/b.rst"; e]
     = registry_of [entry_of two_docs "/docs/b.rst"; e]
     ∧ registry_ok (registry_of [entry_of two_docs "/docs/b.rst"; e])).
Proof.
  destruct registry_invariant as (Hempty & Hstep & _ & Hbuild). split.
  - apply (Hstep (entry_of two_docs "/docs/a.rst") [] "Alpha"); [|exact Hempty].
    apply list_elem_of_In. vm_compute. tauto.
  - apply (Hbuild (project ["rst"]) two_docs two_docs).
    apply assign_entries_run. vm_compute. reflexivity.
Defined.

(** ** Relative paths and where they lead *)

Lemma Forall_removelast {A} (P : A → Prop) l : Forall P l → Forall P (removelast l).
Proof.
  induction 1 as [|x l Hx Hl IH]; simpl; [constructor|].
  destruct l; [constructor|]. by constructor.
Qed.

Lemma normpath_ok comps : ∀ acc,
  Forall (λ n, clean_name n = true) acc →
  Forall (λ c, str_mem slash c = false) comps →
  Forall (λ n, clean_name n = true) (foldl normpath_step acc comps).
Proof.
  induction comps as [|c comps IH]; intros acc Hacc Hc; simpl; [done|].
  apply Forall_cons in Hc as [Hc Hcs]. apply IH; [|done].
  unfold normpath_step.
  destruct (bool_decide (c = EmptyString)) eqn:H1; [done|].
  destruct (bool_decide (c = ".")) eqn:H2; [done|]. simpl.
  destruct (bool_decide (c = "..")) eqn:H3; [by apply Forall_removelast|].
  apply Forall_app. split; [done|]. constructor; [|constructor].
  unfold clean_name. by rewrite H1, H2, H3, Hc.
Qed.

Lemma abs_components_clean s : Forall (λ n, clean_name n = true) (abs_components s).
Proof. apply normpath_ok; [constructor|apply str_split_no_sep]. Qed.

Lemma removelast_take {A} (l : list A) : removelast l = take (length l - 1) l.
Proof.
  induction l as [|x l IH]; [done|]. destruct l as [|y l]; [done|].
  change (removelast (x :: y :: l)) with (x :: removelast (y :: l)).
  rewrite IH. simpl. by rewrite Nat.sub_0_r.
Qed.

(** Climbing [k] times from a directory. *)
Lemma normpath_climb k : ∀ acc,
  foldl normpath_step acc (replicate k "..") = take (length acc - k) acc.
Proof.
  induction k as [|k IH]; intros acc; simpl.
  { by rewrite Nat.sub_0_r, take_ge. }
  rewrite IH. change (normpath_step acc "..") with (removelast acc).
  rewrite removelast_take, length_take, take_take. f_equal. lia.
Qed.

Lemma common_prefix_take a : ∀ b,
  take (common_prefix_len a b) a = take (common_prefix_len a b) b
  ∧ common_prefix_len a b ≤ length a.
Proof.
  induction a as [|x a IH]; intros [|y b]; simpl; try (split; [done|lia]).
  destruct (decide (x = y)) as [->|]; [|split; [done|lia]].
  destruct (IH b) as [Heq ?]. simpl. rewrite Heq. split; [done|lia].
Qed.

(** The round trip of [os.path.relpath]: the relative path from [a] to
    [t], followed from [a], ends in [t]. *)
Lemma relpath_leads a t :
  Forall (λ n, clean_name n = true) t →
  foldl normpath_step a
    (replicate (length a - common_prefix_len a t) ".." ++ drop (common_prefix_len a t) t)
  = t.
Proof.
  intros Ht. destruct (common_prefix_take a t) as [Heq Hle].
  rewrite foldl_app, normpath_climb.
  replace (length a - (length a - common_prefix_len a t)) with (common_prefix_len a t) by lia.
  rewrite normpath_clean by by apply Forall_drop.
  rewrite Heq. apply take_drop.
Qed.

Lemma path_component_ok c :
  path_component c = true → c ≠ EmptyString ∧ c ≠ ".".
Proof.
  unfold path_component.
  intros [H1%negb_true_iff%bool_decide_eq_false H2%negb_true_iff%bool_decide_eq_false]%andb_prop.
  done.
Qed.

Lemma Path_of_ok s : Path_ok (Path_of s).
Proof.
  unfold Path_ok, Path_of. simpl.
  pose proof (str_split_no_sep slash s) as H.
  induction H as [|c l Hc _ IH]; simpl; [constructor|].
  destruct (path_component c) eqn:Hp; [by constructor|done].
Qed.

Lemma Path_div_ok p s : Path_ok p → Path_ok (Path_div p s).
Proof.
  intros Hp. unfold Path_div. destruct (absolute (Path_of s)); [apply Path_of_ok|].
  unfold Path_ok. simpl. apply Forall_app. split; [done|apply Path_of_ok].
Qed.

Lemma Path_parent_ok p : Path_ok p → Path_ok (Path_parent p).
Proof. apply Forall_removelast. Qed.

Lemma Path_ok_no_slash p : Path_ok p → Forall (λ c, str_mem slash c = false) (parts p).
Proof. intros H. eapply Forall_impl; [exact H|]. by intros c [_ ?]. Qed.

Lemma filter_path_component l :
  Forall (λ c, path_component c = true ∧ str_mem slash c = false) l →
  List.filter path_component l = l.
Proof.
  induction 1 as [|c l [Hc _] _ IH]; simpl; [done|]. by rewrite Hc, IH.
Qed.

Lemma str_join_no_root l :
  Forall (λ c, path_component c = true ∧ str_mem slash c = false) l →
  str_startswith (str_join "/" l) "/" = false.
Proof.
  intros Hl. destruct l as [|c l]; [done|]. apply Forall_cons in Hl as [[Hc Hs] _].
  apply path_component_ok in Hc as [Hne _].
  destruct c as [|x c]; [done|]. simpl in Hs. apply orb_false_elim in Hs as [Hx _].
  apply bool_decide_eq_false in Hx.
  destruct l; [simpl|rewrite str_join_cons, str_app_cons; simpl];
    by rewrite bool_decide_eq_false_2.
Qed.

(** Parsing the components joined by slashes gives them back. *)
Lemma Path_of_join l :
  l ≠ [] → Forall (λ c, path_component c = true ∧ str_mem slash c = false) l →
  Path_of (str_join "/" l) = {| absolute := false; parts := l |}.
Proof.
  intros Hne Hl. unfold Path_of. rewrite str_join_no_root by done. f_equal.
  rewrite str_split_join; [by apply filter_path_component|done|].
  eapply Forall_impl; [exact Hl|]. by intros c [_ ?].
Qed.

Lemma as_posix_no_root p :
  absolute p = false → Path_ok p → str_startswith (as_posix p) "/" = false.
Proof.
  intros Ha Hp. unfold as_posix. rewrite Ha.
  destruct (parts p) as [|c l] eqn:Hparts; [done|]. apply str_join_no_root.
  unfold Path_ok in Hp. by rewrite Hparts in Hp.
Qed.

(** Following the text of a relative path is following its components. *)
Lemma normpath_as_posix p acc :
  absolute p = false → Path_ok p →
  foldl normpath_step acc (str_split slash (as_posix p)) = foldl normpath_step acc (parts p).
Proof.
  intros Ha Hp. unfold as_posix. rewrite Ha.
  destruct (parts p) as [|c l] eqn:Hparts; [done|].
  rewrite str_split_join; [done|done|].
  apply Path_ok_no_slash in Hp. by rewrite Hparts in Hp.
Qed.

Lemma abs_components_parts p :
  Path_ok p → abs_components (as_posix p) = foldl normpath_step [] (parts p).
Proof.
  intros Hp. destruct (absolute p) eqn:Ha.
  - unfold abs_components, as_posix. rewrite Ha.
    change ("/" +:+ str_join "/" (parts p))
      with (EmptyString +:+ String slash (str_join "/" (parts p))).
    rewrite str_split_app. simpl.
    destruct (parts p) as [|c l] eqn:Hparts; [done|].
    rewrite str_split_join; [done|done|].
    apply Path_ok_no_slash in Hp. by rewrite Hparts in Hp.
  - by apply normpath_as_posix.
Qed.

Lemma normpath_empty acc : normpath_step acc EmptyString = acc.
Proof. done. Qed.

(** [os.path.join] with a relative second path: the second path is
    followed from the first. *)
Lemma abs_components_join a b :
  str_startswith b "/" = false →
  abs_components (os_path_join a b)
  = foldl normpath_step (abs_components a) (str_split slash b).
Proof.
  intros Hb. unfold os_path_join, abs_components. rewrite Hb.
  destruct (bool_decide (a = EmptyString)) eqn:Ha; simpl.
  { apply bool_decide_eq_true in Ha. by subst a. }
  destruct (str_endswith a "/") eqn:He.
  - apply str_endswith_inv in He as [a' ->].
    change (a' +:+ "/") with (a' +:+ String slash EmptyString).
    rewrite str_app_assoc, str_app_cons, !str_split_app, !foldl_app. simpl.
    destruct b; done.
  - change (a +:+ "/" +:+ b) with (a +:+ String slash b).
    by rewrite str_split_app, foldl_app.
Qed.

Lemma dotdot_components k t :
  Forall (λ n, clean_name n = true) t →
  Forall (λ c, path_component c = true ∧ str_mem slash c = false) (replicate k ".." ++ t).
Proof.
  intros Ht. apply Forall_app. split.
  - apply Forall_replicate. done.
  - eapply Forall_impl; [exact Ht|]. intros n (H1 & H2 & _ & H4)%clean_name_inv.
    split; [|done]. unfold path_component. by rewrite !bool_decide_eq_false_2.
Qed.

(** What [run] computes as the relative output directory: not a rooted
    path, and followed from the directory of the document it ends in the
    output directory. *)
Lemma doc_tag_dir_leads app docpath :
  Path_ok (doc_tag_dir app docpath)
  ∧ absolute (doc_tag_dir app docpath) = false
  ∧ foldl normpath_step (abs_components (as_posix (Path_parent (Path_of docpath))))
      (parts (doc_tag_dir app docpath))
    = abs_components
        (as_posix (Path_div (Path_of (srcdir app)) (tags_output_dir (config app)))).
Proof.
  unfold doc_tag_dir, os_path_relpath.
  set (a := abs_components (as_posix (Path_parent (Path_of docpath)))).
  set (t := abs_components (as_posix (Path_div _ _))).
  pose proof (relpath_leads a t (abs_components_clean _)) as Hlead.
  pose proof (dotdot_components (length a - common_prefix_len a t)
                (drop (common_prefix_len a t) t)
                (Forall_drop _ _ _ (abs_components_clean _))) as Hok.
  fold t in Hok.
  destruct (replicate _ _ ++ drop _ t) as [|c l] eqn:Hrel.
  - split; [apply Path_of_ok|]. split; [done|]. simpl in *. done.
  - rewrite Path_of_join by done. split; [done|]. split; [done|]. done.
Qed.

(** The output directory as [run] and as [update_tags] compute it. *)
Lemma tag_dir_outdir app :
  abs_components (as_posix (Path_div (Path_of (srcdir app)) (tags_output_dir (config app))))
  = abs_components (outdir_of app).
Proof.
  unfold outdir_of, Path_div.
  pose proof (Path_of_ok (tags_output_dir (config app))) as Ho.
  destruct (absolute (Path_of (tags_output_dir (config app)))) eqn:Ha.
  - unfold os_path_join.
    assert (str_startswith (as_posix (Path_of (tags_output_dir (config app)))) "/" = true)
      as ->; [|done].
    unfold as_posix. rewrite Ha. apply str_startswith_app.
  - rewrite abs_components_join by by apply as_posix_no_root.
    rewrite normpath_as_posix by done.
    rewrite abs_components_parts.
    2: { unfold Path_ok. simpl. apply Forall_app. split; [apply Path_of_ok|done]. }
    simpl. rewrite foldl_app. f_equal. unfold Path_of. simpl. apply normpath_filter.
Qed.

Lemma str_startswith_nil s : str_startswith s EmptyString = true.
Proof. by destruct s. Qed.

Lemma tag_file_stem_root tag :
  str_startswith (tag_file_stem tag) "/" = str_startswith tag "/"
  ∧ str_startswith (tag_file_stem tag +:+ ".html") "/" = str_startswith tag "/".
Proof.
  unfold tag_file_stem. destruct tag as [|c tag]; [done|].
  change (str_replace " "%char "_"%char (String c tag))
    with (String (if decide (c = " "%char) then "_"%char else c)
                 (str_replace " "%char "_"%char tag)).
  rewrite str_app_cons. simpl. rewrite !str_startswith_nil.
  by destruct (decide (c = " "%char)) as [->|].
Qed.

Lemma Path_div_relative p s :
  str_startswith s "/" = false →
  Path_div p s = {| absolute := absolute p; parts := parts p ++ parts (Path_of s) |}.
Proof. intros Hs. unfold Path_div. simpl. by rewrite Hs. Qed.

(** X2.  The plain link of a tag that does not begin with a slash is a
    relative path, and read from the directory of the document it leads
    to the file in the output directory that is named like the page of
    the tag, with the extension [html].  The source directory and the
    document are given by absolute paths, as Sphinx gives them. *)
Theorem plaintext_link_target (app : App) (docpath tag : string) :
  str_startswith (srcdir app) "/" = true →
  str_startswith docpath "/" = true →
  str_startswith tag "/" = false →
  ∃ refuri,
    _get_plaintext_node tag (doc_tag_dir app docpath) = nodes_reference refuri tag
    ∧ str_startswith refuri "/" = false
    ∧ abs_components (os_path_join (as_posix (Path_parent (Path_of docpath))) refuri)
      = abs_components (os_path_join (outdir_of app) (tag_file_stem tag +:+ ".html")).
Proof.
  intros _ _ Htag.
  destruct (doc_tag_dir_leads app docpath) as (Hok & Hrel & Hlead).
  destruct (tag_file_stem_root tag) as [_ Hstem]. rewrite Htag in Hstem.
  exists (as_posix (Path_div (doc_tag_dir app docpath) (tag_file_stem tag +:+ ".html"))).
  split; [done|].
  rewrite Path_div_relative by done.
  set (link := {| absolute := _; parts := _ |}).
  assert (Path_ok link) as Hlink.
  { unfold Path_ok, link. simpl. apply Forall_app. split; [done|apply Path_of_ok]. }
  split; [by apply as_posix_no_root|].
  rewrite abs_components_join by by apply as_posix_no_root.
  rewrite normpath_as_posix by done.
  change (parts link) with (parts (doc_tag_dir app docpath)
                            ++ parts (Path_of (tag_file_stem tag +:+ ".html"))).
  rewrite foldl_app, Hlead, tag_dir_outdir.
  rewrite abs_components_join by done. apply normpath_filter.
Qed.


(** ** The directive: [TagLinks.run] *)

Section RunFacts.
Variable fnmatch : string → string → bool.
Variable XRefBadgeRole : string → string → string → string → list doc_node.

Lemma run_loop app docpath tag_dir tags : ∀ result count,
  foldl (run_body fnmatch XRefBadgeRole app docpath tag_dir (count + length tags))
        (result, count) tags
  = (result ++
     separated (nodes_inline (if tags_create_badges (config app) then " " else ", "))
       ((λ tag,
           let rel := Path_of (os_path_relpath (as_posix tag_dir)
                                 (as_posix (Path_parent (Path_of docpath)))) in
           if tags_create_badges (config app)
           then _get_badge_node fnmatch XRefBadgeRole (config app) tag rel
           else [_get_plaintext_node tag rel]) <$> tags),
     count + length tags).
Proof.
  induction tags as [|tag tags IH]; intros result count; simpl.
  { by rewrite app_nil_r, Nat.add_0_r. }
  replace (count + S (length tags)) with ((count + 1) + length tags) by lia.
  destruct tags as [|tag' tags].
  - simpl. rewrite Nat.add_0_r, Nat.eqb_refl. simpl.
    by destruct (tags_create_badges (config app)).
  - assert ((count + 1 =? count + 1 + length (tag' :: tags)) = false) as Hne.
    { apply Nat.eqb_neq. simpl. lia. }
    rewrite Hne. simpl negb. cbv iota.
    destruct (tags_create_badges (config app)) eqn:Hb; cbv beta iota zeta.
    + rewrite IH. f_equal. by rewrite <- !app_assoc.
    + rewrite IH. f_equal. by rewrite <- !app_assoc.
Qed.

(** X1.  [run] returns one paragraph of class [tags]: the introductory
    text and a space, then the nodes of every tag, in the order of the
    argument, the tags being the pieces of the argument between commas,
    stripped.  A separator stands between two neighbours and none after
    the last tag: a comma and a space between plain links, a space
    between badges. *)
Theorem run_children (app : App) (arguments0 docpath : string) :
  run fnmatch XRefBadgeRole app arguments0 docpath
  = [ nodes_paragraph ["tags"]
        (nodes_inline (tags_intro_text (config app) +:+ " ")
         :: separated
              (nodes_inline (if tags_create_badges (config app) then " " else ", "))
              ((λ tag,
                  if tags_create_badges (config app)
                  then _get_badge_node fnmatch XRefBadgeRole (config app) tag
                         (doc_tag_dir app docpath)
                  else [_get_plaintext_node tag (doc_tag_dir app docpath)])
                 <$> (str_strip <$> str_split separator arguments0))) ].
Proof.
  unfold run. pose proof (run_loop app docpath
    (Path_div (Path_of (srcdir app)) (tags_output_dir (config app)))
    (str_strip <$> str_split separator arguments0)
    [nodes_inline (tags_intro_text (config app) +:+ " ")] 0) as H.
  simpl in H. rewrite H. done.
Qed.

(** X3.  A badge is what the role makes of the colour that the colour
    lookup gives, the role name [bdg-ref-] with that colour, the tag as
    raw text, and the text of the tag followed by a target in angle
    brackets.  For a tag that does not begin with a slash the target,
    read from the directory of the document, leads to the page of the tag
    in the output directory, without extension. *)
Theorem badge_link_target (app : App) (docpath tag : string) :
  str_startswith (srcdir app) "/" = true →
  str_startswith docpath "/" = true →
  str_startswith tag "/" = false →
  ∃ target,
    _get_badge_node fnmatch XRefBadgeRole (config app) tag (doc_tag_dir app docpath)
    = XRefBadgeRole (_get_tag_color fnmatch (config app) tag)
        ("bdg-ref-" +:+ _get_tag_color fnmatch (config app) tag) tag
        (tag +:+ " <" +:+ target +:+ ">")
    ∧ str_startswith target "/" = false
    ∧ abs_components (os_path_join (as_posix (Path_parent (Path_of docpath))) target)
      = abs_components (os_path_join (outdir_of app) (tag_file_stem tag)).
Proof.
  intros _ _ Htag.
  destruct (doc_tag_dir_leads app docpath) as (Hok & Hrel & Hlead).
  destruct (tag_file_stem_root tag) as [Hstem _]. rewrite Htag in Hstem.
  exists (as_posix (doc_tag_dir app docpath) +:+ "/" +:+ tag_file_stem tag).
  assert (str_startswith (as_posix (doc_tag_dir app docpath) +:+ "/" +:+ tag_file_stem tag) "/"
          = false) as Hnoroot.
  { pose proof (as_posix_no_root _ Hrel Hok) as Hn.
    destruct (as_posix (doc_tag_dir app docpath)) as [|x r] eqn:Hp.
    - exfalso. unfold as_posix in Hp. rewrite Hrel in Hp.
      destruct (parts (doc_tag_dir app docpath)) as [|c l] eqn:Hparts; [done|].
      unfold Path_ok in Hok. rewrite Hparts in Hok.
      apply Forall_cons in Hok as [[[Hc _]%path_component_ok _] _].
      destruct c; [done|]. destruct l; [done|]. by rewrite str_join_cons in Hp.
    - rewrite str_app_cons. simpl in Hn. simpl.
      rewrite str_startswith_nil in Hn. by rewrite str_startswith_nil. }
  split.
  { unfold _get_badge_node. by rewrite !str_app_assoc. }
  split; [done|].
  rewrite abs_components_join by done.
  change (as_posix (doc_tag_dir app docpath) +:+ "/" +:+ tag_file_stem tag)
    with (as_posix (doc_tag_dir app docpath) +:+ String slash (tag_file_stem tag)).
  rewrite str_split_app, foldl_app, normpath_as_posix by done.
  rewrite Hlead, tag_dir_outdir. by rewrite abs_components_join.
Qed.

End RunFacts.

(** ** What the extractor lets through *)

Lemma str_rstrip_cons c s :
  is_space c = false → str_rstrip (String c s) = String c (str_rstrip s).
Proof. intros Hc. simpl. rewrite Hc. by destruct (str_rstrip s). Qed.

Lemma str_rstrip_idem s : str_rstrip (str_rstrip s) = str_rstrip s.
Proof.
  induction s as [|c s IH]; [done|]. simpl.
  destruct (str_rstrip s) as [|d r] eqn:Hr.
  - destruct (is_space c) eqn:Hc; [done|]. simpl. by rewrite Hc.
  - change (str_rstrip (String c (String d r)))
      with (match str_rstrip (String d r) with
            | EmptyString => if is_space c then EmptyString else String c EmptyString
            | r' => String c r'
            end).
    by rewrite IH.
Qed.

Lemma str_lstrip_head s :
  str_lstrip s = EmptyString ∨ ∃ c r, str_lstrip s = String c r ∧ is_space c = false.
Proof.
  induction s as [|c s IH]; [by left|]. simpl.
  destruct (is_space c) eqn:Hc; [done|]. right. by exists c, s.
Qed.

(** Stripping twice is stripping once. *)
Lemma str_strip_idem s : str_strip (str_strip s) = str_strip s.
Proof.
  unfold str_strip. destruct (str_lstrip_head s) as [->|(c & r & -> & Hc)]; [done|].
  rewrite str_rstrip_cons by done. simpl. rewrite Hc.
  change (str_rstrip (String c (str_rstrip r)))
    with (str_rstrip (String c (str_rstrip r))).
  rewrite str_rstrip_cons by done. by rewrite str_rstrip_idem.
Qed.

Lemma str_mem_lstrip c s : str_mem c (str_lstrip s) = true → str_mem c s = true.
Proof.
  induction s as [|d s IH]; [done|]. simpl.
  destruct (is_space d); [|done]. intros H%IH. by rewrite H, orb_true_r.
Qed.

Lemma str_mem_rstrip c s : str_mem c (str_rstrip s) = true → str_mem c s = true.
Proof.
  induction s as [|d s IH]; [done|]. simpl.
  destruct (str_rstrip s) as [|e r] eqn:Hr.
  - destruct (is_space d); [done|]. simpl. rewrite orb_false_r. by intros ->.
  - simpl in *. intros [->|H]%orb_prop; [done|]. by rewrite IH, orb_true_r.
Qed.

Lemma str_mem_strip c s : str_mem c s = false → str_mem c (str_strip s) = false.
Proof.
  intros Hs. destruct (str_mem c (str_strip s)) eqn:H; [|done].
  apply str_mem_rstrip, str_mem_lstrip in H. congruence.
Qed.

(** X4.  Every tag of an entry is a stripped piece between commas:
    stripping it again changes nothing, and it holds no comma.  This is
    so for each of the three patterns and for every text. *)
Theorem entry_tags_trimmed (entrypath : string) (fs fs' : FS) (e : Entry) (t : string) :
  Entry_init entrypath fs = (fs', Ok e) →
  t ∈ tags e →
  str_strip t = t ∧ str_mem ","%char t = false.
Proof.
  rewrite Entry_init_eq. destruct (open_read _ fs) as [fs1 [text|x]]; [|done].
  destruct (supported_name _); [|done]. intros [= _ <-]. simpl.
  rewrite extract_tags_concat. intros (l & Ht & Hl)%list_elem_of_join.
  apply list_elem_of_fmap in Hl as (m & -> & _).
  apply list_elem_of_fmap in Ht as (piece & -> & Hpiece).
  split; [apply str_strip_idem|]. apply str_mem_strip.
  pose proof (str_split_no_sep ","%char (group1 m)) as Hns.
  rewrite Forall_forall in Hns. by apply Hns.
Qed.

(** ** Where a declaration can stand *)

Lemma str_contains_drop sub s n :
  str_contains sub s = false → str_startswith (str_drop n s) sub = false.
Proof.
  revert s. induction n as [|n IH]; intros s Hs.
  - destruct s; simpl in *; [by rewrite orb_false_r in Hs|].
    by apply orb_false_elim in Hs as [? _].
  - destruct s as [|c s]; simpl.
    + simpl in Hs. by rewrite orb_false_r in Hs.
    + apply IH. rewrite str_contains_cons in Hs. by apply orb_false_elim in Hs as [_ ?].
Qed.

Lemma rmatch_alt_inv {R} r1 r2 st (k : mstate → option R) x :
  rmatch (Alt r1 r2) st k = Some x → rmatch r1 st k = Some x ∨ rmatch r2 st k = Some x.
Proof. simpl. destruct (rmatch r1 st k); [by left|by right]. Qed.

Lemma rmatch_bos_inv {R} st (k : mstate → option R) x :
  rmatch Bos st k = Some x → m_pos st = 0 ∧ k st = Some x.
Proof. simpl. destruct (m_pos st =? 0) eqn:H; [|done]. by apply Nat.eqb_eq in H. Qed.

Lemma rmatch_lit_inv {R} s st (k : mstate → option R) x :
  rmatch (Lit s) st k = Some x →
  str_startswith (m_rest st) s = true
  ∧ k (mkMstate (m_pos st + String.length s) (str_drop (String.length s) (m_rest st))
               (m_cap st)) = Some x.
Proof. simpl. by destruct (str_startswith (m_rest st) s). Qed.

Lemma rmatch_seq {R} r1 r2 st (k : mstate → option R) :
  rmatch (Seq r1 r2) st k = rmatch r1 st (λ st', rmatch r2 st' k).
Proof. done. Qed.

Lemma str_startswith_cons c s p :
  str_startswith (String c s) (String c p) = str_startswith s p.
Proof. simpl. by rewrite bool_decide_eq_true_2. Qed.

(** X6.  A match of the pattern for reStructuredText starts at the
    beginning of the text, which then begins with the directive, or at a
    newline that the directive follows immediately: a directive that is
    indented, or that follows other text on its line, is not seen. *)
Theorem rst_directive_starts_line (text : string) (m : Match) :
  matches_at _rst_regex text m →
  (m_start m = 0 ∧ str_startswith text ".. tags::" = true)
  ∨ str_startswith (str_drop (m_start m) text) (NL +:+ ".. tags::") = true.
Proof.
  unfold matches_at, _rst_regex. rewrite rmatch_seq.
  intros [H|H]%rmatch_alt_inv.
  - apply rmatch_bos_inv in H as [H0 H]. simpl in H0. rewrite H0 in *.
    rewrite rmatch_seq in H. apply rmatch_lit_inv in H as [H _]. simpl in H.
    left. split; [done|]. by destruct text.
  - apply rmatch_lit_inv in H as [Hn H]. rewrite rmatch_seq in H.
    apply rmatch_lit_inv in H as [H _]. simpl m_rest in Hn, H. right.
    destruct (str_drop (m_start m) text) as [|c r]; [done|].
    change (NL +:+ ".. tags::") with (String nl ".. tags::").
    change (String.length NL) with 1 in H. simpl str_drop in H.
    unfold NL in Hn. simpl in Hn. apply andb_prop in Hn as [Hc%bool_decide_eq_true _].
    subst c. by rewrite str_startswith_cons.
Qed.

Lemma matches_at_marker r text m marker :
  (r = _md_regex ∧ marker = "```{tags}") ∨ (r = _nb_regex ∧ marker = DQ +:+ ".. tags::") →
  matches_at r text m → str_startswith (str_drop (m_start m) text) marker = true.
Proof.
  intros [[-> ->]|[-> ->]]; unfold matches_at, _md_regex, _nb_regex; rewrite rmatch_seq;
    by intros [H _]%rmatch_lit_inv.
Qed.

Lemma no_marker_no_match r text marker :
  (r = _rst_regex ∧ marker = ".. tags::") ∨ (r = _md_regex ∧ marker = "```{tags}")
  ∨ (r = _nb_regex ∧ marker = DQ +:+ ".. tags::") →
  str_contains marker text = false → finditer r text = [].
Proof.
  intros Hr Hc. pose proof (finditer_scans r text) as Hs.
  destruct (finditer r text) as [|m ms]; [done|]. exfalso.
  inversion Hs as [|from m' ms' _ _ _ Hm _]; subst.
  destruct Hr as [[-> ->]|Hr].
  - apply rst_directive_starts_line in Hm as [[_ Hm]|Hm].
    + destruct text as [|c text]; [done|]. by rewrite str_contains_cons, Hm in Hc.
    + pose proof (str_contains_drop _ _ (m_start m + 1) Hc) as H.
      rewrite str_drop_add in H.
      destruct (str_drop (m_start m) text) as [|c r]; [done|].
      change (NL +:+ ".. tags::") with (String nl ".. tags::") in Hm.
      change (str_drop 1 (String c r)) with r in H.
      change (str_startswith (String c r) (String nl ".. tags::"))
        with (bool_decide (nl = c) && str_startswith r ".. tags::") in Hm.
      apply andb_prop in Hm as [_ Hm]. congruence.
  - pose proof (matches_at_marker r text m marker Hr Hm) as H.
    by rewrite (str_contains_drop _ _ (m_start m) Hc) in H.
Qed.

(** X5.  A document whose text does not hold the opening of a tag
    declaration of its dialect has no tags. *)
Theorem no_marker_no_tags (entrypath : string) (fs fs' : FS) (text : string) (e : Entry) :
  open_read (as_posix (Path_of entrypath)) fs = (fs', Ok text) →
  Entry_init entrypath fs = (fs', Ok e) →
  str_contains (marker_of (Path_name (Path_of entrypath))) text = false →
  tags e = [].
Proof.
  intros Hopen. rewrite Entry_init_eq, Hopen.
  destruct (supported_name _); [|done]. intros [= <-] Hc. simpl.
  rewrite str_join_split. unfold extract_tags, marker_of in *.
  destruct (str_endswith (Path_name (Path_of entrypath)) ".rst").
  { by rewrite (no_marker_no_match _rst_regex text ".. tags::") by (done || by left). }
  destruct (str_endswith (Path_name (Path_of entrypath)) ".md").
  { by rewrite (no_marker_no_match _md_regex text "```{tags}") by (done || right; by left). }
  by rewrite (no_marker_no_match _nb_regex text (DQ +:+ ".. tags::"))
    by (done || right; by right).
Qed.

(** ** Declarations in notebooks *)

Lemma dots_line {R} greedy s : ∀ pos cap (k : mstate → option R) x,
  dots greedy false pos s cap k = Some x →
  ∃ n, k (mkMstate (pos + n) (str_drop n s) cap) = Some x
       ∧ str_mem nl (str_take n s) = false.
Proof.
  induction s as [|c s IH]; intros pos cap k x; simpl.
  - intros H. exists 0. by rewrite Nat.add_0_r.
  - assert (∀ y, k (mkMstate pos (String c s) cap) = Some y →
        ∃ n, k (mkMstate (pos + n) (str_drop n (String c s)) cap) = Some y
             ∧ str_mem nl (str_take n (String c s)) = false) as Hhere.
    { intros y Hy. exists 0. by rewrite Nat.add_0_r. }
    destruct (negb (bool_decide (c = nl))) eqn:Hc; [|by apply Hhere].
    assert (∀ y, dots greedy false (S pos) s cap k = Some y →
        ∃ n, k (mkMstate (pos + n) (str_drop n (String c s)) cap) = Some y
             ∧ str_mem nl (str_take n (String c s)) = false) as Hnext.
    { intros y Hy. apply IH in Hy as (n & Hk & Hn). exists (S n).
      replace (pos + S n) with (S pos + n) by lia. split; [done|]. simpl.
      rewrite Hn, orb_false_r.
      apply negb_true_iff, bool_decide_eq_false in Hc.
      apply bool_decide_eq_false. congruence. }
    destruct greedy.
    + destruct (dots true false (S pos) s cap k) eqn:Hd.
      * intros [= <-]. by apply Hnext.
      * apply Hhere.
    + destruct (k (mkMstate pos (String c s) cap)) eqn:Hk.
      * intros [= <-]. by apply Hhere.
      * apply Hnext.
Qed.

Lemma rmatch_group {R} r st (k : mstate → option R) :
  rmatch (Group r) st k
  = rmatch r st (λ st', k (mkMstate (m_pos st') (m_rest st')
                             (str_take (m_pos st' - m_pos st) (m_rest st)))).
Proof. done. Qed.

(** What the pattern for notebooks captures holds no newline. *)
Lemma nb_capture_one_line text m :
  matches_at _nb_regex text m → str_mem nl (group1 m) = false.
Proof.
  unfold matches_at, _nb_regex. rewrite rmatch_seq.
  intros [_ H]%rmatch_lit_inv. rewrite rmatch_seq, rmatch_group in H.
  apply dots_line in H as (n & H & Hn).
  apply rmatch_lit_inv in H as [_ H].
  apply (f_equal (λ o, match o with Some st => m_cap st | None => EmptyString end)) in H.
  cbn [m_pos m_rest m_cap] in H, Hn. rewrite <- H, <- Hn. f_equal. f_equal. lia.
Qed.

Lemma scans_matches r text from ms :
  scans r text from ms → Forall (matches_at r text) ms.
Proof. induction 1; by constructor. Qed.

Lemma str_split_mem c sep s :
  str_mem c s = false → Forall (λ p, str_mem c p = false) (str_split sep s).
Proof.
  induction s as [|x s IH]; simpl; [by repeat constructor|].
  intros [Hx Hs]%orb_false_elim. specialize (IH Hs).
  destruct (decide (x = sep)); [by constructor|].
  destruct (str_split sep s) as [|h t]; [by repeat constructor; simpl; rewrite Hx|].
  apply Forall_cons in IH as [Hh Ht]. constructor; [|done]. simpl. by rewrite Hx, Hh.
Qed.

(** X16.  A tag declaration in a notebook stays on one line of the file:
    no tag of an entry made from a file whose name ends in [.ipynb], and
    neither in [.rst] nor in [.md], holds a newline. *)
Theorem notebook_tags_one_line (entrypath : string) (fs fs' : FS) (e : Entry) (t : string) :
  Entry_init entrypath fs = (fs', Ok e) →
  str_endswith (Path_name (Path_of entrypath)) ".rst" = false →
  str_endswith (Path_name (Path_of entrypath)) ".md" = false →
  t ∈ tags e →
  str_mem nl t = false.
Proof.
  rewrite Entry_init_eq. destruct (open_read _ fs) as [fs1 [text|x]]; [|done].
  destruct (supported_name _); [|done]. intros [= _ <-] -> ->. simpl.
  rewrite extract_tags_concat. intros (l & Ht & Hl)%list_elem_of_join.
  apply list_elem_of_fmap in Hl as (m & -> & Hm).
  apply list_elem_of_fmap in Ht as (piece & -> & Hpiece).
  apply str_mem_strip.
  pose proof (scans_matches _ _ _ _ (finditer_scans _nb_regex (str_join NL (str_split nl text))))
    as Hall.
  rewrite Forall_forall in Hall. apply Hall, nb_capture_one_line in Hm.
  pose proof (str_split_mem nl ","%char _ Hm) as Hp. rewrite Forall_forall in Hp.
  by apply Hp.
Qed.

(** ** The extractor and the directive on a declaration of one line *)

Lemma str_take_all s : str_take (String.length s) s = s.
Proof. induction s as [|c s IH]; simpl; by rewrite ?IH. Qed.

(** The lazy dots run to the end of a text without a newline when the
    rest of the pattern fails everywhere before. *)
Lemma dots_lazy_line {R} s : ∀ pos cap (k : mstate → option R),
  (∀ st, m_rest st ≠ EmptyString → str_mem nl (m_rest st) = false → k st = None) →
  str_mem nl s = false →
  dots false true pos s cap k = k (mkMstate (pos + String.length s) EmptyString cap).
Proof.
  induction s as [|c s IH]; intros pos cap k Hk Hs; simpl.
  - by rewrite Nat.add_0_r.
  - rewrite (Hk (mkMstate pos (String c s) cap)) by done.
    simpl in Hs. apply orb_false_elim in Hs as [_ Hs].
    rewrite IH by done. f_equal. f_equal. lia.
Qed.

Lemma rst_lookahead_end st :
  rmatch (Ahead (Alt (Lit (NL +:+ NL)) Eos)) st Some
  = if bool_decide (m_rest st = EmptyString) then Some st
    else if str_startswith (m_rest st) (NL +:+ NL) || bool_decide (m_rest st = NL)
         then Some st else None.
Proof.
  simpl. destruct (m_rest st) as [|c r] eqn:Hr; [done|].
  rewrite bool_decide_eq_false_2 by done.
  destruct (str_startswith (String c r) (NL +:+ NL)); [done|]. simpl.
  by destruct (bool_decide (String c r = NL)).
Qed.

Lemma rst_match_line b :
  str_mem nl b = false →
  rmatch _rst_regex (mkMstate 0 (".. tags::" +:+ b) EmptyString) Some
  = Some (mkMstate (9 + String.length b) EmptyString b).
Proof.
  intros Hb. unfold _rst_regex. rewrite rmatch_seq.
  change (rmatch (Alt Bos (Lit NL)) ?st ?k)
    with (match rmatch Bos st k with Some x => Some x | None => rmatch (Lit NL) st k end).
  assert (rmatch (Seq (Lit ".. tags::")
                    (Seq (Group (Dots false true)) (Ahead (Alt (Lit (NL +:+ NL)) Eos))))
                 (mkMstate 0 (".. tags::" +:+ b) EmptyString) Some
          = Some (mkMstate (9 + String.length b) EmptyString b)) as Hrest.
  { rewrite rmatch_seq.
    change (rmatch (Lit ".. tags::") ?st ?k)
      with (if str_startswith (m_rest st) ".. tags::"
            then k (mkMstate (m_pos st + String.length ".. tags::")
                             (str_drop (String.length ".. tags::") (m_rest st)) (m_cap st))
            else None).
    cbn [m_rest m_pos m_cap]. rewrite str_startswith_app, str_drop_app.
    rewrite rmatch_seq, rmatch_group. cbn [m_rest m_pos m_cap].
    change (rmatch (Dots false true) ?st ?k)
      with (dots false true (m_pos st) (m_rest st) (m_cap st) k).
    cbn [m_rest m_pos m_cap]. rewrite dots_lazy_line; [|intros st Hne Hnl|done].
    - cbn [m_rest m_pos m_cap]. rewrite rst_lookahead_end. cbn [m_rest].
      rewrite bool_decide_eq_true_2 by done. f_equal. f_equal.
      replace (0 + String.length ".. tags::" + String.length b
               - (0 + String.length ".. tags::")) with (String.length b) by lia.
      apply str_take_all.
    - rewrite rst_lookahead_end. cbn [m_rest].
      rewrite bool_decide_eq_false_2 by done.
      destruct (m_rest st) as [|c r]; [done|]. simpl in Hnl.
      apply orb_false_elim in Hnl as [Hc Hr].
      assert (str_startswith (String c r) (NL +:+ NL) = false) as ->.
      { unfold NL. simpl. by rewrite Hc. }
      rewrite bool_decide_eq_false_2; [done|].
      intros [= -> _]. unfold nl in Hc. by rewrite bool_decide_eq_true_2 in Hc. }
  change (rmatch Bos ?st ?k) with (if m_pos st =? 0 then k st else None).
  cbn [m_pos]. change (0 =? 0) with true. cbv iota. by rewrite Hrest.
Qed.

Lemma rst_scan_skip s : ∀ pos,
  pos ≠ 0 → scan _rst_regex (String.length s) pos s = [].
Proof.
  induction s as [|c s IH]; intros pos Hpos.
  - cbn [String.length scan]. unfold _rst_regex. rewrite rmatch_seq.
    change (rmatch (Alt Bos (Lit NL)) ?st ?k)
      with (match rmatch Bos st k with Some x => Some x | None => rmatch (Lit NL) st k end).
    change (rmatch Bos ?st ?k) with (if m_pos st =? 0 then k st else None).
    cbn [m_pos]. apply Nat.eqb_neq in Hpos. rewrite Hpos. done.
  - cbn [String.length scan]. by apply IH.
Qed.

Lemma finditer_rst_line b :
  str_mem nl b = false →
  finditer _rst_regex (".. tags::" +:+ b)
  = [ mkMatch 0 (9 + String.length b) b ].
Proof.
  intros Hb. unfold finditer.
  change (".. tags::" +:+ b) with (String "."%char (". tags::" +:+ b)).
  cbn [scan]. change (String "."%char (". tags::" +:+ b)) with (".. tags::" +:+ b).
  rewrite rst_match_line by done. cbn [m_pos m_cap]. f_equal.
  replace (9 + String.length b - 0 - 1) with (String.length (". tags::" +:+ b)).
  - by apply rst_scan_skip.
  - rewrite str_length_app. simpl. lia.
Qed.

Lemma str_split_lead_space a :
  str_strip <$> str_split ","%char (String " "%char a)
  = str_strip <$> str_split ","%char a.
Proof.
  cbn [str_split]. rewrite decide_False by done.
  pose proof (str_split_nonempty ","%char a) as Hne.
  by destruct (str_split ","%char a) as [|h t].
Qed.

(** X19.  On a declaration of one line the extractor and the directive
    agree: a document that consists of the directive and an argument
    without a newline gets, as its tags, the stripped pieces between the
    commas of the argument, which are the tags that [run] makes links
    for when it is given that argument. *)
Theorem one_line_directive_agrees (arguments0 : string) :
  str_mem nl arguments0 = false →
  extract_tags _rst_regex (".. tags:: " +:+ arguments0)
  = str_strip <$> str_split separator arguments0.
Proof.
  intros Ha. unfold extract_tags.
  change (".. tags:: " +:+ arguments0) with (".. tags::" +:+ String " "%char arguments0).
  rewrite finditer_rst_line.
  - cbn [foldl group1 app]. apply str_split_lead_space.
  - simpl. by rewrite Ha.
Qed.

(** ** The keys of the registry *)

Lemma dict_set_keys {V} k (v : V) d :
  (dict_set k v d).*1 = if decide (k ∈ d.*1) then d.*1 else d.*1 ++ [k].
Proof.
  induction d as [|[k' v'] d IH].
  - destruct (decide (k ∈ _)) as [H|]; [by apply elem_of_nil in H|done].
  - cbn [dict_set]. destruct (decide (k = k')) as [->|Hne]; rewrite !fmap_cons; cbn [fst].
    + destruct (decide (k' ∈ k' :: d.*1)) as [|H]; [done|]. exfalso. apply H. by left.
    + rewrite IH.
      destruct (decide (k ∈ d.*1)) as [Hin|Hnin];
        destruct (decide (k ∈ k' :: d.*1)) as [Hin'|Hnin']; try done.
      * exfalso. apply Hnin'. by right.
      * by apply elem_of_cons in Hin' as [?|?].
Qed.

Lemma dict_update_keys {V} (f : V → V) k d : (dict_update f k d).*1 = d.*1.
Proof.
  induction d as [|[k' v'] d IH]; [done|]. cbn [dict_update].
  destruct (decide (k = k')); rewrite !fmap_cons; [done|]. by rewrite IH.
Qed.

Lemma assign_to_tag_keys self d tag :
  (assign_to_tag self d tag).*1 = if decide (tag ∈ d.*1) then d.*1 else d.*1 ++ [tag].
Proof.
  unfold assign_to_tag. rewrite dict_update_keys. unfold dict_mem.
  destruct (dict_get tag d) as [v|] eqn:Hg.
  - rewrite decide_True; [done|]. apply dict_get_keys. by eexists.
  - rewrite dict_set_keys. destruct (decide (tag ∈ d.*1)) as [Hin|]; [|done].
    apply dict_get_keys in Hin as [v Hv]. congruence.
Qed.

Lemma filter_filter_keys (ks : list string) t (l : list string) :
  filter (λ y, y ∉ ks ++ [t]) l = filter (λ y, y ∉ ks) (filter (λ y, y ≠ t) l).
Proof.
  induction l as [|x l IH]; [done|]. rewrite !filter_cons.
  destruct (decide (x ≠ t)) as [Hne|Heq].
  - rewrite filter_cons. destruct (decide (x ∉ ks)) as [Hk|Hk].
    + rewrite decide_True; [by rewrite IH|].
      intros [?|Hx]%elem_of_app; [done|]. by apply list_elem_of_singleton in Hx.
    + rewrite decide_False; [done|]. intros H. apply Hk. intros ?. apply H.
      apply elem_of_app. by left.
  - rewrite decide_False; [done|]. intros H. apply H. apply elem_of_app. right.
    apply list_elem_of_singleton. by destruct (decide (x = t)).
Qed.

Lemma filter_known_key (ks : list string) t (l : list string) :
  t ∈ ks → filter (λ y, y ∉ ks) (filter (λ y, y ≠ t) l) = filter (λ y, y ∉ ks) l.
Proof.
  intros Ht. induction l as [|x l IH]; [done|]. rewrite !filter_cons.
  destruct (decide (x ≠ t)) as [Hne|Heq].
  - rewrite filter_cons. by rewrite IH.
  - assert (x = t) as -> by by destruct (decide (x = t)).
    rewrite decide_False; [done|]. by intros H.
Qed.

Lemma foldl_assign_to_tag_keys steps : ∀ d,
  (foldl (λ d et, assign_to_tag et.1 d et.2) d steps).*1
  = d.*1 ++ filter (λ y, y ∉ d.*1) (distinct (steps.*2)).
Proof.
  induction steps as [|[e t] steps IH]; intros d; simpl; [by rewrite app_nil_r|].
  rewrite IH, assign_to_tag_keys, filter_cons.
  destruct (decide (t ∈ d.*1)) as [Hin|Hnin].
  - rewrite decide_False by (by intros H). by rewrite filter_known_key.
  - rewrite decide_True by done. rewrite <- app_assoc. simpl.
    by rewrite filter_filter_keys.
Qed.

Lemma registrations_tags pages : (registrations pages).*2 = declared_tags pages.
Proof.
  unfold registrations, declared_tags. induction pages as [|e pages IH]; [done|].
  csimpl. rewrite fmap_app, IH. f_equal.
  rewrite <- list_fmap_compose. by rewrite list_fmap_id.
Qed.

Lemma filter_all {A} (P : A → Prop) `{∀ x, Decision (P x)} (l : list A) :
  (∀ x, x ∈ l → P x) → filter P l = l.
Proof.
  induction l as [|x l IH]; intros Hall; [done|].
  rewrite filter_cons, decide_True by (apply Hall; by left).
  rewrite IH; [done|]. intros y Hy. apply Hall. by right.
Qed.

Lemma registry_of_keys pages : (registry_of pages).*1 = distinct (declared_tags pages).
Proof.
  unfold registry_of. rewrite foldl_registrations, foldl_assign_to_tag_keys.
  rewrite registrations_tags. simpl. apply filter_all. by intros x _ ?%elem_of_nil.
Qed.

Lemma elem_of_distinct l x : x ∈ distinct l ↔ x ∈ l.
Proof.
  induction l as [|y l IH]; [done|]. simpl.
  rewrite elem_of_cons, list_elem_of_filter, IH, elem_of_cons.
  destruct (decide (x = y)) as [->|Hne]; [split; by left|].
  split; [intros [?|[_ ?]]; [done|by right]|intros [?|?]; [done|by right]].
Qed.

Lemma NoDup_distinct l : NoDup (distinct l).
Proof.
  induction l as [|y l IH]; simpl; [constructor|].
  constructor; [|by apply NoDup_filter].
  rewrite list_elem_of_filter. by intros [? _].
Qed.

(** X7.  The registry of a build has one key for every tag that some
    scanned document declares and no other key; the keys stand in the
    order in which the tags are first declared, and the tag stored under
    a key has that name and, as items, the documents that declare it,
    once for each declaration. *)
Theorem registry_keys (app : App) (fs fs' : FS)
    (all_tags : list (string * Tag)) (pages : list Entry) :
  assign_entries app fs = (fs', Ok (all_tags, pages)) →
  all_tags.*1 = distinct (declared_tags pages)
  ∧ NoDup all_tags.*1
  ∧ (∀ t, t ∈ all_tags.*1 ↔ ∃ D, D ∈ pages ∧ t ∈ tags D)
  ∧ (∀ t T, (t, T) ∈ all_tags → name T = t ∧ items T = declared_items t pages).
Proof.
  intros [_ ->]%assign_entries_registry. rewrite registry_of_keys.
  split; [done|]. split; [apply NoDup_distinct|]. split.
  - intros t. rewrite elem_of_distinct. unfold declared_tags.
    rewrite list_elem_of_bind. split; intros (D & ? & ?); by exists D.
  - intros t T Hin.
    assert (dict_get t (registry_of pages) = Some T) as Hget.
    { pose proof (NoDup_distinct (declared_tags pages)) as Hnd.
      rewrite <- registry_of_keys in Hnd. revert Hnd Hin.
      generalize (registry_of pages) as d. induction d as [|[k v] d IH]; simpl.
      - by intros _ ?%elem_of_nil.
      - intros [Hk Hnd]%NoDup_cons [[= <- <-]|Hin]%elem_of_cons.
        + by rewrite decide_True.
        + rewrite decide_False; [by apply IH|]. intros <-. apply Hk.
          apply list_elem_of_fmap. by exists (t, T). }
    rewrite registry_of_get in Hget. unfold grow in Hget.
    destruct (declared_items t pages) as [|x l]; [done|]. by simplify_eq.
Qed.

(** ** What a build leaves in the file system *)

Lemma last_write_snoc fs ws w p :
  resolve fs w.1 = Ok p → last_write fs (ws ++ [w]) p = Some w.2.
Proof.
  intros Hp. induction ws as [|w' ws IH]; simpl.
  - unfold resolves_to. by rewrite Hp, bool_decide_eq_true_2.
  - by rewrite IH.
Qed.

(** What the hypotheses of a successful build say about its writes. *)
Lemma build_writes app fs fsR fs' all_tags pages :
  tags_create_tags (config app) = true →
  clean app (Path_of (tags_output_dir (config app))) fs = (fsR, Ok ()) →
  assign_entries app fsR = (fsR, Ok (all_tags, pages)) →
  update_tags app fs = (fs', Ok ()) →
  same_dirs fsR fs'
  ∧ Forall (λ w, ∃ p, resolve fsR w.1 = Ok p) (page_writes app all_tags pages)
  ∧ ∀ q, fs' !! q = match last_write fsR (page_writes app all_tags pages) q with
                    | Some c => Some (File c)
                    | None => fsR !! q
                    end.
Proof.
  intros Hon Hclean Hassign Hrun.
  unfold update_tags in Hrun. rewrite Hon, bind_eq, Hclean in Hrun.
  rewrite generate_eq, bind_eq, Hassign in Hrun. by apply write_all_ok in Hrun.
Qed.

(** X8.  A build that succeeds leaves the overview page in place, with
    the rows of the whole registry: it is written last, so no page of a
    tag can take its place. *)
Theorem overview_written (app : App) (fs fsR fs' : FS)
    (all_tags : list (string * Tag)) (pages : list Entry) :
  tags_create_tags (config app) = true →
  clean app (Path_of (tags_output_dir (config app))) fs = (fsR, Ok ()) →
  assign_entries app fsR = (fsR, Ok (all_tags, pages)) →
  update_tags app fs = (fs', Ok ()) →
  ∃ p, resolve fs' (overview_path app) = Ok p
       ∧ fs' !! p = Some (File (overview_write app all_tags).2)
       ∧ ∀ T, T ∈ dict_values all_tags →
              overview_row (tags_extension (config app)) T
              ∈ (tagpage_content all_tags (outdir_of app) (tags_overview_title (config app))
                   (tags_extension (config app)) (tags_index_head (config app))).2.
Proof.
  intros Hon Hclean Hassign Hrun.
  destruct (build_writes _ _ _ _ _ _ Hon Hclean Hassign Hrun) as (Hs & Hall & Hlook).
  unfold page_writes in Hall. apply Forall_app in Hall as [_ Hov].
  apply Forall_cons in Hov as [[p Hp] _]. exists p.
  split; [|split].
  - rewrite <- overview_write_path with (all_tags := all_tags).
    by apply (walk_same_dirs _ _ _ _ _ Hs).
  - rewrite Hlook. unfold page_writes. by rewrite (last_write_snoc _ _ _ p Hp).
  - intros T HT. by apply overview_row_listed.
Qed.

Lemma registry_of_no_tags pages :
  (∀ D, D ∈ pages → tags D = []) → registry_of pages = [].
Proof.
  unfold registry_of. induction pages as [|e pages IH] using rev_ind; intros Hall; [done|].
  rewrite foldl_app. simpl. rewrite IH.
  - unfold assign_to_tags. rewrite (Hall e); [done|]. apply elem_of_app. right. by left.
  - intros D HD. apply Hall. apply elem_of_app. by left.
Qed.

(** X9.  When no scanned document declares a tag, the registry is empty
    and the build writes one file after the clean-up: the overview page,
    without a row. *)
Theorem no_tags_only_overview (app : App) (fs fsR fs' : FS)
    (all_tags : list (string * Tag)) (pages : list Entry) :
  tags_create_tags (config app) = true →
  clean app (Path_of (tags_output_dir (config app))) fs = (fsR, Ok ()) →
  assign_entries app fsR = (fsR, Ok (all_tags, pages)) →
  update_tags app fs = (fs', Ok ()) →
  (∀ D, D ∈ pages → tags D = []) →
  all_tags = []
  ∧ ∃ p, resolve fsR (overview_path app) = Ok p
         ∧ fs' = <[p := File (overview_write app []).2]> fsR
         ∧ (overview_write app []).2
           = str_join NL
               (if bool_decide ("md" ∈ tags_extension (config app)) then
                  [ "(tagoverview)="; EmptyString;
                    "# " +:+ tags_overview_title (config app); EmptyString;
                    "```{toctree}"; "---";
                    "caption: " +:+ tags_index_head (config app);
                    "maxdepth: 1"; "---"; "```"; EmptyString ]
                else
                  [ ":orphan:"; EmptyString; ".. _tagoverview:"; EmptyString;
                    tags_overview_title (config app);
                    str_repeat "#"%char (String.length (tags_overview_title (config app)));
                    EmptyString; ".. toctree::";
                    "    :caption: " +:+ tags_index_head (config app);
                    "    :maxdepth: 1"; EmptyString; EmptyString ]).
Proof.
  intros Hon Hclean Hassign Hrun Hnone.
  pose proof (assign_entries_registry _ _ _ _ _ Hassign) as [_ Hreg].
  rewrite (registry_of_no_tags pages Hnone) in Hreg. subst all_tags. split; [done|].
  unfold update_tags in Hrun. rewrite Hon, bind_eq, Hclean in Hrun.
  rewrite generate_eq, bind_eq, Hassign in Hrun.
  unfold page_writes, write_all in Hrun. simpl in Hrun. rewrite bind_eq in Hrun.
  destruct (open_write _ _ fsR) as [fs1 r] eqn:Hw.
  apply open_write_inv in Hw as [[-> (p & Hp & _ & _ & ->)]|[[e ->] ->]]; [|done].
  unfold ret in Hrun. simplify_eq. exists p.
  split; [rewrite <- (overview_write_path app []); exact Hp|]. split; [done|].
  unfold overview_write, tagpage_content. simpl.
  by destruct (bool_decide ("md" ∈ tags_extension (config app))).
Qed.

(** X10.  After a build that succeeds, every name of the output
    directory that ends in [md] or [rst] is a file that this build has
    written: what an earlier build left there under such a name is gone
    or written anew. *)
Theorem only_written_pages_remain (app : App) (fs fsR fs' : FS)
    (all_tags : list (string * Tag)) (pages : list Entry) :
  tags_create_tags (config app) = true →
  fs_wf fs →
  clean app (Path_of (tags_output_dir (config app))) fs = (fsR, Ok ()) →
  assign_entries app fsR = (fsR, Ok (all_tags, pages)) →
  update_tags app fs = (fs', Ok ()) →
  ∃ d, resolve fs' (outdir_of app) = Ok d
       ∧ node_at fs' d = Some Dir
       ∧ ∀ n, removable n = true → is_Some (fs' !! (d ++ [n])) →
              ∃ w, w ∈ page_writes app all_tags pages
                   ∧ resolve fsR w.1 = Ok (d ++ [n])
                   ∧ fs' !! (d ++ [n]) = Some (File w.2).
Proof.
  intros Hon Hwf Hclean Hassign Hrun.
  destruct (build_writes _ _ _ _ _ _ Hon Hclean Hassign Hrun) as (Hs & Hall & Hlook).
  destruct (clean_ok app fs fsR Hwf Hclean) as (d & Hd & Hdir & Hnone).
  exists d. split; [by apply (walk_same_dirs _ _ _ _ _ Hs)|]. split; [by apply Hs|].
  intros n Hn. rewrite Hlook.
  destruct (last_write fsR _ (d ++ [n])) as [c|] eqn:Hl.
  - intros _. apply last_write_Some in Hl as (w & Hw & Hq & <-). by exists w.
  - rewrite Hnone by done. by intros [? ?].
Qed.

Lemma os_mkdir_keeps path fs q x :
  fs !! q = Some x → (os_mkdir path fs).1 !! q = Some x.
Proof.
  intros Hq. unfold os_mkdir. destruct (path_error path); [done|].
  destruct (resolve fs path) as [p|e]; [|done].
  destruct (node_at fs p) eqn:Hn; [done|]. destruct (too_long _); [done|]. simpl.
  rewrite lookup_insert_ne; [done|]. intros ->. destruct q; simpl in Hn; congruence.
Qed.

Lemma makedirs_from_keeps comps : ∀ pre fs q x,
  fs !! q = Some x → (makedirs_from pre comps fs).1 !! q = Some x.
Proof.
  induction comps as [|c comps IH]; intros pre fs q x Hq; simpl; [done|].
  rewrite bind_eq. unfold os_path_exists at 1. rewrite bind_eq.
  destruct (match resolve fs (pre +:+ c) with Ok p => _ | Raise _ => false end).
  - destruct comps; [done|]. unfold ret at 1. by apply IH.
  - pose proof (os_mkdir_keeps (pre +:+ c) fs q x Hq) as Hk.
    destruct (os_mkdir (pre +:+ c) fs) as [fs' [[]|e]]; [|done]. by apply IH.
Qed.

(** The clean-up keeps every file and directory but the names of the
    output directory that end in [md] or [rst]. *)
Lemma clean_frame app fs fsR :
  fs_wf fs →
  clean app (Path_of (tags_output_dir (config app))) fs = (fsR, Ok ()) →
  ∃ d, resolve fsR (outdir_of app) = Ok d
     ∧ ∀ q x, fs !! q = Some x → (∀ n, q = d ++ [n] → removable n = false) →
              fsR !! q = Some x.
Proof.
  intros Hwf. unfold clean. fold (outdir_of app). rewrite bind_eq.
  unfold os_path_exists at 1. rewrite bind_eq.
  set (ex := match resolve fs (outdir_of app) with Ok p => _ | Raise _ => false end).
  assert (∃ fsA r, (if negb ex then os_makedirs (outdir_of app) else ret ()) fs = (fsA, r)
                   ∧ fs_wf fsA ∧ ∀ q x, fs !! q = Some x → fsA !! q = Some x)
    as (fsA & r & -> & HwfA & Hkeep).
  { destruct (negb ex).
    - pose proof (makedirs_from_wf (str_split slash (outdir_of app)) EmptyString fs Hwf).
      pose proof (makedirs_from_keeps (str_split slash (outdir_of app)) EmptyString fs).
      unfold os_makedirs. destruct (makedirs_from _ _ fs) as [fsA r]. by exists fsA, r.
    - by exists fs, (Ok ()). }
  destruct r as [[]|e]; [|done]. rewrite bind_eq. unfold os_listdir at 1.
  destruct (resolve fsA (outdir_of app)) as [d|e] eqn:Hd; [|done].
  destruct (node_at fsA d) as [[c|]|] eqn:Hdir; try done.
  intros Hloop. apply (sweep_ok (outdir_of app) d) in Hloop as [-> Hs]; try done.
  - exists d. split; [by apply (walk_same_dirs _ _ _ _ _ Hs)|].
    intros q x Hq Hnot. rewrite swept_lookup.
    destruct (existsb _ _) eqn:Hex; [|by apply Hkeep].
    apply existsb_exists in Hex as (n & _ & [Hr ->%bool_decide_eq_true]%andb_prop).
    rewrite (Hnot n) in Hr; done.
  - intros n Hin%elem_of_dir_names _. apply HwfA in Hin.
    apply Forall_app in Hin as [_ Hin]. by inversion Hin.
Qed.

(** X11.  When no declared tag holds a slash, a build that succeeds
    keeps every file and every directory that was there before, with
    its content, but for the entries of the output directory whose
    names end in [md] or [rst].  (Those are removed or written anew,
    documents among them when the output directory holds documents.) *)
Theorem other_files_kept (app : App) (fs fsR fs' : FS)
    (all_tags : list (string * Tag)) (pages : list Entry) :
  tags_create_tags (config app) = true →
  fs_wf fs →
  clean app (Path_of (tags_output_dir (config app))) fs = (fsR, Ok ()) →
  assign_entries app fsR = (fsR, Ok (all_tags, pages)) →
  update_tags app fs = (fs', Ok ()) →
  Forall (λ t, str_mem slash t = false) all_tags.*1 →
  ∃ d, resolve fs' (outdir_of app) = Ok d
       ∧ ∀ q x, fs !! q = Some x → (∀ n, q = d ++ [n] → removable n = false) →
                fs' !! q = Some x.
Proof.
  intros Hon Hwf Hclean Hassign Hrun Hsl.
  destruct (build_writes _ _ _ _ _ _ Hon Hclean Hassign Hrun) as (Hs & Hall & Hlook).
  destruct (clean_ok app fs fsR Hwf Hclean) as (d & Hd & Hdir & _).
  destruct (clean_frame app fs fsR Hwf Hclean) as (d' & Hd' & Hkeep).
  rewrite Hd in Hd'. simplify_eq.
  pose proof (assign_entries_registry _ _ _ _ _ Hassign) as [_ Hreg].
  assert (registry_ok all_tags) as Hok by (rewrite Hreg; apply registry_of_ok).
  exists d'. split; [by apply (walk_same_dirs _ _ _ _ _ Hs)|].
  intros q x Hq Hnot. rewrite Hlook, last_write_None; [by apply Hkeep|].
  intros w Hw Hres.
  destruct (page_write_child app all_tags pages w Hsl Hok Hw) as (n & Hn & Hcl & Hr).
  rewrite Hn, (resolve_child _ _ _ _ Hd Hdir Hcl) in Hres. simplify_eq.
  by rewrite (Hnot n) in Hr.
Qed.

(** ** Documents that cannot be loaded *)

Lemma mfold_assign_entry_first_failure fs before p after e : ∀ acc,
  Forall (λ q, ∃ x, Entry_init q fs = (fs, Ok x)) before →
  Entry_init p fs = (fs, Raise e) →
  mfold (before ++ p :: after) assign_entry acc fs = (fs, Raise e).
Proof.
  induction before as [|q before IH]; intros acc Hall Hp; simpl.
  - by rewrite bind_eq, assign_entry_eq, Hp.
  - apply Forall_cons in Hall as [[x Hq] Hall].
    rewrite bind_eq, assign_entry_eq, Hq. by apply IH.
Qed.

(** X12.  A build stops at the first document, in the order of
    discovery, that cannot be loaded, and raises the exception of that
    document: nothing in the module catches it.  The clean-up has
    happened by then and no page has been written.  A directory whose
    name ends like a document is such a case: it is found like a file,
    and opening it raises [IsADirectoryError], before its name is looked
    at. *)
Theorem first_failing_document (app : App) (fs fsR : FS)
    (before after : list string) (entrypath : string) :
  tags_create_tags (config app) = true →
  clean app (Path_of (tags_output_dir (config app))) fs = (fsR, Ok ()) →
  discover app fsR = (fsR, Ok (before ++ entrypath :: after)) →
  Forall (λ q, ∃ x, Entry_init q fsR = (fsR, Ok x)) before →
  (∀ e, Entry_init entrypath fsR = (fsR, Raise e) →
        update_tags app fs = (fsR, Raise e))
  ∧ (∀ q, resolve fsR (as_posix (Path_of entrypath)) = Ok q →
          node_at fsR q = Some Dir →
          update_tags app fs = (fsR, Raise IsADirectoryError)).
Proof.
  intros Hon Hclean Hfound Hbefore.
  assert (∀ e, Entry_init entrypath fsR = (fsR, Raise e) →
               update_tags app fs = (fsR, Raise e)) as Hfail.
  { intros e He. unfold update_tags. rewrite Hon, bind_eq, Hclean.
    unfold generate. rewrite bind_eq. unfold assign_entries. rewrite bind_eq, Hfound.
    by rewrite (mfold_assign_entry_first_failure fsR before entrypath after e). }
  split; [done|]. intros q Hq Hdir. apply Hfail.
  unfold Entry_init. rewrite bind_eq. unfold open_read. by rewrite Hq, Hdir.
Qed.

(** ** A directory in the way of the clean-up *)

Lemma sweep_directory dir d n names : ∀ fs,
  resolve fs dir = Ok d → node_at fs d = Some Dir →
  NoDup names → n ∈ names → removable n = true →
  fs !! (d ++ [n]) = Some Dir →
  (∀ m, m ∈ names → clean_name m = true ∧ is_Some (fs !! (d ++ [m]))) →
  ∃ fs1,
    mfor names (λ file, if removable file then os_remove (os_path_join dir file) else ret ()) fs
    = (fs1, Raise IsADirectoryError)
    ∧ ∀ q, fs1 !! q = fs !! q
           ∨ ∃ m c, q = d ++ [m] ∧ removable m = true ∧ fs !! q = Some (File c)
                    ∧ fs1 !! q = None.
Proof.
  induction names as [|m names IH]; intros fs Hd Hdir Hnd Hin Hr Hn Hall.
  { by apply elem_of_nil in Hin. }
  apply NoDup_cons in Hnd as [Hm Hnd]. cbn [mfor]. rewrite bind_eq.
  destruct (Hall m) as [Hcl [x Hx]]; [by left|].
  destruct (removable m) eqn:Hrm.
  - unfold os_remove. rewrite (resolve_child fs dir d m Hd Hdir Hcl).
    assert (node_at fs (d ++ [m]) = Some x) as ->.
    { destruct d; simpl; done. }
    destruct x as [c|].
    + apply elem_of_cons in Hin as [->|Hin]; [congruence|].
      pose proof (same_dirs_delete_file _ _ _ Hx) as Hs.
      assert (∀ k, k ∈ names → d ++ [m] ≠ d ++ [k]) as Hne.
      { intros k Hk [= ->]%(inj (app d)). done. }
      destruct (IH (delete (d ++ [m]) fs)) as (fs1 & Hrun & Hframe); try done.
      * by apply (walk_same_dirs _ _ _ _ _ Hs).
      * by apply Hs.
      * rewrite lookup_delete_ne; [done|]. by apply Hne.
      * intros k Hk. destruct (Hall k) as [? ?]; [by right|]. split; [done|].
        rewrite lookup_delete_ne; [done|]. by apply Hne.
      * exists fs1. split; [exact Hrun|]. intros q.
        destruct (decide (q = d ++ [m])) as [->|Hq].
        -- right. exists m, c. repeat split; try done.
           destruct (Hframe (d ++ [m])) as [->|(k & c' & _ & _ & _ & ->)]; [|done].
           apply lookup_delete_eq.
        -- destruct (Hframe q) as [->|(k & c' & -> & Hk & Hc' & Hnone)].
           ++ left. by apply lookup_delete_ne.
           ++ right. exists k, c'. repeat split; try done.
              by rewrite lookup_delete_ne in Hc'.
    + exists fs. split; [done|]. intros q. by left.
  - apply elem_of_cons in Hin as [->|Hin]; [congruence|]. unfold ret at 1.
    apply IH; try done. intros k Hk. apply Hall. by right.
Qed.

(** X13.  The clean-up removes by the end of the name alone.  When the
    output directory holds a directory whose name ends in [md] or [rst],
    the build raises [IsADirectoryError] during the clean-up: files with
    such names may be gone by then, nothing else has changed and no page
    is written. *)
Theorem cleanup_directory_aborts (app : App) (fs : FS) (d : list string) (n : string) :
  tags_create_tags (config app) = true →
  fs_wf fs →
  resolve fs (outdir_of app) = Ok d →
  node_at fs d = Some Dir →
  removable n = true →
  fs !! (d ++ [n]) = Some Dir →
  ∃ fs1,
    update_tags app fs = (fs1, Raise IsADirectoryError)
    ∧ ∀ q, fs1 !! q = fs !! q
           ∨ ∃ m c, q = d ++ [m] ∧ removable m = true ∧ fs !! q = Some (File c)
                    ∧ fs1 !! q = None.
Proof.
  intros Hon Hwf Hd Hdir Hr Hn.
  destruct (sweep_directory (outdir_of app) d n (dir_names fs d) fs Hd Hdir
              (NoDup_dir_names fs d)) as (fs1 & Hsweep & Hframe); try done.
  { apply elem_of_dir_names. by eexists. }
  { intros m Hm%elem_of_dir_names. split; [|done]. apply Hwf in Hm.
    apply Forall_app in Hm as [_ Hm]. by inversion Hm. }
  exists fs1. split; [|done].
  unfold update_tags. rewrite Hon, bind_eq. unfold clean. fold (outdir_of app).
  rewrite bind_eq. unfold os_path_exists at 1.
  rewrite Hd, Hdir, bool_decide_eq_true_2 by by eexists.
  simpl negb. cbv iota. unfold ret at 1. rewrite !bind_eq.
  unfold os_listdir at 1. rewrite Hd, Hdir.
  change (mfor (dir_names fs d) _ fs)
    with (mfor (dir_names fs d)
            (λ file, if removable file then os_remove (os_path_join (outdir_of app) file)
                     else ret ()) fs).
  by rewrite Hsweep.
Qed.

(** ** Builds that succeed *)

Lemma name_fits_inv dir n :
  name_fits dir n = true → too_long n = false ∧ path_error (os_path_join dir n) = None.
Proof.
  unfold name_fits, accepted. intros [Hl%negb_true_iff Hp]%andb_prop.
  split; [done|]. by destruct (path_error _).
Qed.

Lemma open_write_child dir d n content fs :
  resolve fs dir = Ok d → node_at fs d = Some Dir →
  clean_name n = true → name_fits dir n = true →
  fs !! (d ++ [n]) ≠ Some Dir →
  open_write (os_path_join dir n) content fs = (<[d ++ [n] := File content]> fs, Ok ()).
Proof.
  intros Hd Hdir Hcl [Hl Hp]%name_fits_inv Hnd.
  unfold open_write. rewrite Hp, (resolve_child fs dir d n Hd Hdir Hcl).
  assert (node_at fs (d ++ [n]) = fs !! (d ++ [n])) as -> by (by destruct d).
  rewrite last_last, Hl. by destruct (fs !! (d ++ [n])) as [[c|]|].
Qed.

Lemma write_all_succeeds dir d ws : ∀ fs,
  resolve fs dir = Ok d → node_at fs d = Some Dir →
  (∀ w, w ∈ ws → ∃ n, w.1 = os_path_join dir n ∧ clean_name n = true
                      ∧ name_fits dir n = true
                      ∧ fs !! (d ++ [n]) ≠ Some Dir) →
  ∃ fs', write_all ws fs = (fs', Ok ()).
Proof.
  unfold write_all. induction ws as [|w ws IH]; intros fs Hd Hdir Hall; simpl.
  { by exists fs. }
  rewrite bind_eq. destruct (Hall w) as (n & Hn & Hcl & Hfit & Hnd); [by left|].
  rewrite Hn, (open_write_child dir d n w.2 fs Hd Hdir Hcl Hfit Hnd).
  assert (node_at fs (d ++ [n]) = fs !! (d ++ [n])) as Hat by (by destruct d).
  assert (d ++ [n] ≠ []) as Hne by (by destruct d).
  assert (node_at fs (d ++ [n]) ≠ Some Dir) as Hnd' by by rewrite Hat.
  pose proof (same_dirs_insert_file fs (d ++ [n]) w.2 Hne Hnd') as Hs.
  apply IH.
  - by apply (walk_same_dirs _ _ _ _ _ Hs).
  - by apply Hs.
  - intros w' Hw'. destruct (Hall w') as (n' & Hn' & Hcl' & Hfit' & Hnd''); [by right|].
    exists n'. split; [done|]. split; [done|]. split; [done|]. rewrite lookup_insert.
    destruct (decide (d ++ [n] = d ++ [n'])); [done|done].
Qed.

Lemma page_write_fits app all_tags pages w :
  Forall (λ t, str_mem slash t = false) all_tags.*1 →
  Forall (λ t, name_fits (outdir_of app) (tag_file_stem t +:+ "." +:+ dialect app) = true)
         all_tags.*1 →
  name_fits (outdir_of app) ("tagsindex." +:+ dialect app) = true →
  registry_ok all_tags →
  w ∈ page_writes app all_tags pages →
  ∃ n, w.1 = os_path_join (outdir_of app) n ∧ clean_name n = true
       ∧ removable n = true ∧ name_fits (outdir_of app) n = true.
Proof.
  intros Hsl Hfit Hover Hok [Hw|Hw%list_elem_of_singleton]%elem_of_app.
  - apply list_elem_of_fmap in Hw as (T & -> & HT).
    unfold dict_values in HT. apply list_elem_of_fmap in HT as ([k T'] & -> & Hk).
    destruct (Hok _ _ Hk) as [HnT _].
    assert (k ∈ all_tags.*1) as Hin by (apply list_elem_of_fmap; by exists (k, T')).
    exists (tag_file_stem (name T') +:+ "." +:+ dialect app).
    rewrite tag_write_path. split; [done|]. simpl in HnT. rewrite HnT.
    pose proof (proj1 (Forall_forall _ _) Hsl _ Hin) as Hk1.
    pose proof (proj1 (Forall_forall _ _) Hfit _ Hin) as Hk2. simpl in Hk1, Hk2.
    split; [|split; [|done]]; apply page_name_clean; try apply dialect_cases.
    all: unfold tag_file_stem; by rewrite str_mem_replace.
  - subst w. rewrite overview_write_path. exists ("tagsindex." +:+ dialect app).
    split; [done|]. split; [|split; [|done]]; by destruct (dialect_cases app) as [-> | ->].
Qed.

(** X14.  Once the clean-up has succeeded and every found document has
    been loaded, the build succeeds when no declared tag holds a slash
    and the names of the pages are names that the output directory can
    hold (at most 255 bytes, no NUL character, the whole path below
    4096 bytes): every page then goes directly into the output
    directory, under a name that the clean-up has freed. *)
Theorem plain_tags_build_succeeds (app : App) (fs fsR : FS)
    (all_tags : list (string * Tag)) (pages : list Entry) :
  tags_create_tags (config app) = true →
  fs_wf fs →
  clean app (Path_of (tags_output_dir (config app))) fs = (fsR, Ok ()) →
  assign_entries app fsR = (fsR, Ok (all_tags, pages)) →
  Forall (λ t, str_mem slash t = false) all_tags.*1 →
  Forall (λ t, name_fits (outdir_of app) (tag_file_stem t +:+ "." +:+ dialect app) = true)
         all_tags.*1 →
  name_fits (outdir_of app) ("tagsindex." +:+ dialect app) = true →
  ∃ fs', update_tags app fs = (fs', Ok ()).
Proof.
  intros Hon Hwf Hclean Hassign Hsl Hfit Hover.
  destruct (clean_ok app fs fsR Hwf Hclean) as (d & Hd & Hdir & Hnone).
  pose proof (assign_entries_registry _ _ _ _ _ Hassign) as [_ Hreg].
  assert (registry_ok all_tags) as Hok by (rewrite Hreg; apply registry_of_ok).
  destruct (write_all_succeeds (outdir_of app) d (page_writes app all_tags pages) fsR Hd Hdir)
    as [fs' Hfs'].
  { intros w Hw. destruct (page_write_fits app all_tags pages w Hsl Hfit Hover Hok Hw)
      as (n & Hn & Hcl & Hr & Hf). exists n. split; [done|]. split; [done|].
    split; [done|]. by rewrite Hnone. }
  exists fs'. unfold update_tags. rewrite Hon, bind_eq, Hclean.
  by rewrite generate_eq, bind_eq, Hassign.
Qed.

(** ** The title lines *)

Lemma str_repeat_length c n : String.length (str_repeat c n) = n.
Proof. induction n as [|n IH]; simpl; by rewrite ?IH. Qed.

(** X15.  In a page for reStructuredText the title is underlined over
    its whole length: the line of [#] under the title of a tag page and
    under the title of the overview page is as long as the title. *)
Theorem rst_title_underline (self : Tag) (items : list Entry) (all_tags : list (string * Tag))
    (extension : list string) (srcdir outdir title header : string) :
  "md" ∉ extension →
  (∃ rest,
     (create_file_content self items extension srcdir title header).2
     = (title +:+ ": " +:+ name self)
       :: str_repeat "#"%char (String.length (title +:+ ": " +:+ name self))
       :: rest)
  ∧ (∃ rest,
       skipn 4 (tagpage_content all_tags outdir title extension header).2
       = title :: str_repeat "#"%char (String.length title) :: rest).
Proof.
  intros Hmd. unfold create_file_content, tagpage_content.
  rewrite !bool_decide_eq_false_2 by done. simpl. split; [|by eexists].
  assert (String.length (title +:+ ": " +:+ name self)
          = String.length (name self) + String.length title + 2) as ->.
  { rewrite !str_length_app. simpl. lia. }
  by eexists.
Qed.

(** ** What the globs find after the clean-up *)

Lemma walk_clean_eq fs comps : ∀ cur q,
  Forall (λ n, clean_name n = true) comps → walk fs cur comps = Ok q → q = cur ++ comps.
Proof.
  induction comps as [|c comps IH]; intros cur q Hc; simpl.
  { intros [= <-]. by rewrite app_nil_r. }
  apply Forall_cons in Hc as [(H1 & H2 & H3 & _)%clean_name_inv Hcs].
  destruct (node_at fs cur) as [[|]|]; try done.
  rewrite !bool_decide_eq_false_2 by done. simpl.
  intros H%IH; [|done]. by rewrite <- app_assoc in H.
Qed.

Lemma clean_wf app fs fsR :
  fs_wf fs →
  clean app (Path_of (tags_output_dir (config app))) fs = (fsR, Ok ()) →
  fs_wf fsR.
Proof.
  intros Hwf. unfold clean. fold (outdir_of app). rewrite bind_eq.
  unfold os_path_exists at 1. rewrite bind_eq.
  set (ex := match resolve fs (outdir_of app) with Ok p => _ | Raise _ => false end).
  assert (∃ fsA r, (if negb ex then os_makedirs (outdir_of app) else ret ()) fs = (fsA, r)
                   ∧ fs_wf fsA) as (fsA & r & -> & HwfA).
  { destruct (negb ex).
    - pose proof (makedirs_from_wf (str_split slash (outdir_of app)) EmptyString fs Hwf).
      unfold os_makedirs. destruct (makedirs_from _ _ fs) as [fsA r]. by exists fsA, r.
    - by exists fs, (Ok ()). }
  destruct r as [[]|e]; [|done]. rewrite bind_eq. unfold os_listdir at 1.
  destruct (resolve fsA (outdir_of app)) as [d|e] eqn:Hd; [|done].
  destruct (node_at fsA d) as [[c|]|] eqn:Hdir; try done.
  intros Hloop. apply (sweep_ok (outdir_of app) d) in Hloop as [-> Hs]; try done.
  - intros q. rewrite swept_lookup. destruct (existsb _ _); [by intros [? ?]|apply HwfA].
  - intros n Hin%elem_of_dir_names _. apply HwfA in Hin.
    apply Forall_app in Hin as [_ Hin]. by inversion Hin.
Qed.

Lemma is_dir_node fs p : is_dir fs p = true → node_at fs p = Some Dir.
Proof. unfold is_dir. by destruct (node_at fs p) as [[|]|]. Qed.

(** Proper names lead through directories to the node they spell. *)
Lemma walk_dirs fs rel : ∀ d,
  Forall (λ n, clean_name n = true) rel →
  (∀ k, k < length rel → is_dir fs (d ++ take k rel) = true) →
  walk fs d rel = Ok (d ++ rel).
Proof.
  induction rel as [|c rel IH]; intros d Hcl Hdirs; [by rewrite app_nil_r|].
  apply Forall_cons in Hcl as [(H1 & H2 & H3 & _)%clean_name_inv Hcl].
  cbn [walk]. pose proof (Hdirs 0) as H0. rewrite take_0, app_nil_r in H0.
  rewrite (is_dir_node fs d) by (apply H0; simpl; lia).
  rewrite !bool_decide_eq_false_2 by done. cbn [orb].
  rewrite IH; [by rewrite <- app_assoc|done|].
  intros k Hk. rewrite <- app_assoc. apply (Hdirs (S k)). simpl. lia.
Qed.

(** What a glob returns is the path of a node of the file system. *)
Lemma glob_recursive_resolves dir extension fs found p :
  fs_wf fs →
  glob_recursive dir extension fs = (fs, Ok found) → p ∈ found →
  ∃ q, resolve fs p = Ok q ∧ is_Some (fs !! q).
Proof.
  intros Hwf Hg Hp. destruct (resolve fs dir) as [d|e] eqn:Hd.
  2: { unfold glob_recursive in Hg. rewrite Hd in Hg. simplify_eq.
       by apply elem_of_nil in Hp. }
  destruct (is_dir fs d) eqn:Hdir.
  2: { unfold glob_recursive in Hg. rewrite Hd, Hdir in Hg. simplify_eq.
       by apply elem_of_nil in Hp. }
  destruct (proj1 (elem_of_glob_recursive dir extension fs d found p Hd Hdir Hg) Hp)
    as (rel & x & -> & Hsome & _ & _ & Hdirs).
  exists (d ++ rel ++ [x]). split; [|done].
  pose proof (Hwf _ Hsome) as Hcl. apply Forall_app in Hcl as [_ Hcl].
  unfold resolve in *.
  change (dir +:+ "/" +:+ str_join "/" (rel ++ [x]))
    with (dir +:+ String slash (str_join "/" (rel ++ [x]))).
  rewrite str_split_app, walk_app, Hd, str_split_join.
  - apply walk_dirs; [done|]. intros k Hk. rewrite length_app in Hk. simpl in Hk.
    rewrite take_app_le by lia. apply Hdirs. lia.
  - by destruct rel.
  - by apply clean_name_no_slash.
Qed.

Lemma discover_elem app fs found p :
  discover app fs = (fs, Ok found) → p ∈ found →
  ∃ extension found',
    extension ∈ tags_extension (config app)
    ∧ glob_recursive (srcdir app) extension fs = (fs, Ok found') ∧ p ∈ found'.
Proof.
  unfold discover.
  assert (∀ exts acc,
    (∀ q, q ∈ acc → ∃ extension found',
            extension ∈ tags_extension (config app)
            ∧ glob_recursive (srcdir app) extension fs = (fs, Ok found') ∧ q ∈ found') →
    (∀ x, x ∈ exts → x ∈ tags_extension (config app)) →
    mfold exts (λ result extension,
                  let* found := glob_recursive (srcdir app) extension in
                  ret (result ++ found)) acc fs = (fs, Ok found) →
    p ∈ found →
    ∃ extension found',
      extension ∈ tags_extension (config app)
      ∧ glob_recursive (srcdir app) extension fs = (fs, Ok found') ∧ p ∈ found') as Hgen.
  { induction exts as [|x exts IH]; intros acc Hacc Hsub; simpl.
    - intros [= <-]. apply Hacc.
    - rewrite !bind_eq. pose proof (glob_recursive_fs (srcdir app) x fs) as Hfs.
      destruct (glob_recursive (srcdir app) x fs) as [fs1 [fx|e]] eqn:Hg; [|done].
      simpl in Hfs. subst fs1. unfold ret at 1. apply IH.
      + intros q [Hq|Hq]%elem_of_app; [by apply Hacc|].
        exists x, fx. split; [apply Hsub; by left|done].
      + intros y Hy. apply Hsub. by right. }
  apply Hgen; [by intros q ?%elem_of_nil|done].
Qed.

(** X17.  After the clean-up the globs return no entry of the output
    directory itself whose name ends in [md] or [rst], although the
    output directory lies in the source tree: every path that they
    return is the path of a node that is there, and none is such an
    entry.  (What lies deeper, in a directory below the output
    directory, is not covered: the clean-up does not go there.) *)
Theorem old_pages_not_scanned (app : App) (fs fsR : FS) (found : list string) :
  fs_wf fs →
  clean app (Path_of (tags_output_dir (config app))) fs = (fsR, Ok ()) →
  discover app fsR = (fsR, Ok found) →
  ∃ d, resolve fsR (outdir_of app) = Ok d
       ∧ ∀ p, p ∈ found →
              ∃ q, resolve fsR p = Ok q ∧ is_Some (fsR !! q)
                   ∧ ∀ n, removable n = true → q ≠ d ++ [n].
Proof.
  intros Hwf Hclean Hfound.
  destruct (clean_ok app fs fsR Hwf Hclean) as (d & Hd & _ & Hnone).
  pose proof (clean_wf app fs fsR Hwf Hclean) as HwfR.
  exists d. split; [done|]. intros p Hp.
  destruct (discover_elem app fsR found p Hfound Hp) as (ext & found' & _ & Hglob & Hp').
  destruct (glob_recursive_resolves _ _ _ _ _ HwfR Hglob Hp') as (q & Hq & Hsome).
  exists q. split; [done|]. split; [done|]. intros n Hn ->.
  rewrite (Hnone n Hn) in Hsome. by destruct Hsome.
Qed.

(** ** A missing output directory *)

Lemma join_child_split fs dir d n :
  resolve fs dir = Ok d → node_at fs d = Some Dir → clean_name n = true →
  ∃ l, str_split slash (os_path_join dir n) = l ++ [n]
       ∧ walk fs [] l = Ok d
       ∧ Forall (λ c, str_mem slash c = false) l.
Proof.
  intros Hd Hdir Hn. pose proof (clean_name_inv _ Hn) as (Hne & _ & _ & Hsl).
  unfold os_path_join.
  assert (str_startswith n "/" = false) as ->.
  { destruct n as [|c n]; [done|]. simpl in *.
    apply orb_false_elim in Hsl as [Hc _]. unfold slash in Hc. by rewrite Hc. }
  unfold resolve in *.
  destruct (bool_decide (dir = EmptyString)) eqn:He.
  - apply bool_decide_eq_true in He as ->. simpl in *. simplify_eq.
    exists []. change (EmptyString +:+ n) with n.
    by rewrite (str_split_none slash n).
  - simpl. destruct (str_endswith dir "/") eqn:Hend.
    + apply str_endswith_inv in Hend as [dir' ->].
      rewrite str_app_assoc. change ("/" +:+ n) with (String slash n).
      change (dir' +:+ "/") with (dir' +:+ String slash EmptyString) in Hd.
      rewrite str_split_app. rewrite str_split_app, walk_app in Hd.
      simpl in Hd. rewrite (str_split_none slash n) by done.
      exists (str_split slash dir'). split; [done|]. split; [|apply str_split_no_sep].
      destruct (walk fs [] (str_split slash dir')) as [q|e]; [|done].
      destruct (node_at fs q) as [[|]|] eqn:Hq; by simplify_eq.
    + change (dir +:+ "/" +:+ n) with (dir +:+ String slash n).
      rewrite str_split_app, (str_split_none slash n) by done.
      exists (str_split slash dir). split; [done|]. split; [done|apply str_split_no_sep].
Qed.

Lemma walk_node fs cur c comps q :
  walk fs cur (c :: comps) = Ok q → node_at fs cur = Some Dir.
Proof. simpl. by destruct (node_at fs cur) as [[|]|]. Qed.

Lemma path_join_split s : str_join "/" (str_split slash s) = s.
Proof.
  induction s as [|c s IH]; [done|]. cbn [str_split].
  pose proof (str_split_nonempty slash s) as Hne.
  destruct (decide (c = slash)) as [->|].
  - destruct (str_split slash s) as [|h t]; [done|]. rewrite str_join_cons, IH. done.
  - destruct (str_split slash s) as [|h t]; [done|].
    rewrite <- IH. destruct t; [done|]. by rewrite !str_join_cons.
Qed.

(** [os.makedirs] on a path whose last component alone is missing. *)
Lemma makedirs_from_child fs d o : ∀ l2 pre l1,
  (∀ c, str_mem slash c = false → str_split slash (pre +:+ c) = l1 ++ [c]) →
  Forall (λ c, str_mem slash c = false) l2 →
  walk fs [] (l1 ++ l2) = Ok d → node_at fs d = Some Dir →
  clean_name o = true → fs !! (d ++ [o]) = None →
  too_long o = false → path_error (pre +:+ str_join "/" (l2 ++ [o])) = None →
  makedirs_from pre (l2 ++ [o]) fs = (<[d ++ [o] := Dir]> fs, Ok ()).
Proof.
  intros l2. induction l2 as [|c l2 IH];
    intros pre l1 Hpre Hl2 Hwalk Hdir Ho Hnone Hlong Hpath.
  - rewrite app_nil_r in Hwalk. pose proof (clean_name_inv _ Ho) as (_ & _ & _ & Hsl).
    assert (resolve fs (pre +:+ o) = Ok (d ++ [o])) as Hres.
    { unfold resolve. rewrite Hpre, walk_app, Hwalk by done. by apply walk_name. }
    assert (node_at fs (d ++ [o]) = None) as Hat by (by destruct d).
    simpl. rewrite bind_eq. unfold os_path_exists at 1. rewrite Hres, Hat.
    rewrite bool_decide_eq_false_2 by (by intros [? ?]).
    rewrite bind_eq. unfold os_mkdir. simpl in Hpath.
    by rewrite Hpath, Hres, Hat, last_last, Hlong.
  - apply Forall_cons in Hl2 as [Hc Hl2].
    replace (l1 ++ c :: l2) with ((l1 ++ [c]) ++ l2) in Hwalk by by rewrite <- app_assoc.
    pose proof Hwalk as Hw. rewrite walk_app in Hw.
    destruct (walk fs [] (l1 ++ [c])) as [q|] eqn:Hq; [|done].
    assert (node_at fs q = Some Dir) as Hnode.
    { destruct l2 as [|c' l2]; [simpl in Hw; by simplify_eq|]. by apply walk_node in Hw. }
    cbn [app makedirs_from]. rewrite bind_eq. unfold os_path_exists at 1.
    unfold resolve. rewrite Hpre, Hq, Hnode by done.
    rewrite bool_decide_eq_true_2 by by eexists.
    rewrite bind_eq.
    assert ((match l2 ++ [o] with [] => raise FileExistsError | _ :: _ => ret () end) fs
            = (fs, Ok ())) as -> by by destruct l2.
    apply (IH _ (l1 ++ [c])); try done.
    + intros c' Hc'. rewrite str_app_assoc. change ("/" +:+ c') with (String slash c').
      by rewrite str_split_app, Hpre, (str_split_none slash c').
    + rewrite <- Hpath, !str_app_assoc. f_equal.
      change ((c :: l2) ++ [o]) with (c :: (l2 ++ [o])).
      destruct (l2 ++ [o]) as [|y l] eqn:Hl; [by destruct l2|].
      by rewrite str_join_cons.
Qed.

Lemma walk_more_dirs fs fs' comps : ∀ cur q,
  (∀ p, node_at fs p = Some Dir → node_at fs' p = Some Dir) →
  walk fs cur comps = Ok q → walk fs' cur comps = Ok q.
Proof.
  induction comps as [|c comps IH]; intros cur q Hs; simpl; [done|].
  destruct (node_at fs cur) as [[|]|] eqn:Hn; try done.
  rewrite (Hs _ Hn).
  destruct (_ || _); [by apply IH|]. destruct (bool_decide _); by apply IH.
Qed.

Lemma as_posix_name o : clean_name o = true → as_posix (Path_of o) = o.
Proof.
  intros Ho. apply (as_posix_relative [o]); [done|]. by constructor.
Qed.

(** X18.  When the output directory is a single name in an existing
    source directory, nothing is there under that name, and the name is
    one that the source directory can hold (at most 255 bytes, no NUL
    character, the whole path below 4096 bytes), the clean-up makes the
    directory and changes nothing else. *)
Theorem missing_output_directory_created (app : App) (fs : FS) (s : list string) :
  clean_name (tags_output_dir (config app)) = true →
  name_fits (srcdir app) (tags_output_dir (config app)) = true →
  resolve fs (srcdir app) = Ok s →
  node_at fs s = Some Dir →
  (∀ q, fs !! (s ++ tags_output_dir (config app) :: q) = None) →
  resolve fs (outdir_of app) = Ok (s ++ [tags_output_dir (config app)])
  ∧ clean app (Path_of (tags_output_dir (config app))) fs
    = (<[s ++ [tags_output_dir (config app)] := Dir]> fs, Ok ()).
Proof.
  intros Ho [Hlong Hpath]%name_fits_inv Hs Hdir Hnone.
  set (o := tags_output_dir (config app)) in *.
  assert (outdir_of app = os_path_join (srcdir app) o) as Hout.
  { unfold outdir_of. fold o. by rewrite as_posix_name. }
  pose proof (resolve_child fs (srcdir app) s o Hs Hdir Ho) as Hres.
  assert (fs !! (s ++ [o]) = None) as Hno by apply (Hnone []).
  assert (node_at fs (s ++ [o]) = None) as Hat by (by destruct s).
  split; [by rewrite Hout|].
  unfold clean. rewrite as_posix_name by done. rewrite bind_eq.
  unfold os_path_exists at 1. rewrite Hres, Hat.
  rewrite bool_decide_eq_false_2 by (by intros [? ?]). simpl negb. cbv iota.
  rewrite bind_eq. unfold os_makedirs.
  destruct (join_child_split fs (srcdir app) s o Hs Hdir Ho) as (l & Hsplit & Hl & Hsl).
  rewrite Hsplit. rewrite (makedirs_from_child fs s o l EmptyString []); try done.
  2: { intros c Hc. change (EmptyString +:+ c) with c. by rewrite str_split_none. }
  2: { rewrite <- Hsplit, path_join_split. exact Hpath. }
  rewrite bind_eq. unfold os_listdir at 1.
  assert (s ++ [o] ≠ []) as Hne by (by destruct s).
  assert (same_dirs_new : ∀ q, node_at fs q = Some Dir →
            node_at (<[s ++ [o] := Dir]> fs) q = Some Dir).
  { intros q Hq. rewrite node_at_insert by done. by destruct (decide (s ++ [o] = q)). }
  assert (resolve (<[s ++ [o] := Dir]> fs) (os_path_join (srcdir app) o) = Ok (s ++ [o]))
    as ->.
  { apply resolve_child; [|by apply same_dirs_new|done].
    by apply (walk_more_dirs fs). }
  rewrite node_at_insert, decide_True by done.
  assert (dir_names (<[s ++ [o] := Dir]> fs) (s ++ [o]) = []) as ->.
  { apply elem_of_nil_inv. intros n Hn%elem_of_dir_names.
    rewrite lookup_insert_ne in Hn.
    - rewrite <- app_assoc in Hn. simpl in Hn. rewrite Hnone in Hn. by destruct Hn.
    - intros H. apply (f_equal length) in H. rewrite !length_app in H. simpl in H. lia. }
  done.
Qed.

(** ** The pages as files *)

Lemma open_write_iff path content fs fs' :
  open_write path content fs = (fs', Ok ())
  ↔ ∃ p, writable fs path p ∧ fs' = <[p := File content]> fs.
Proof.
  unfold open_write, writable. destruct (path_error path) as [e|].
  { split; [done|by intros (? & (? & _) & _)]. }
  destruct (resolve fs path) as [p|e].
  2: { split; [done|by intros (? & (_ & ? & _) & _)]. }
  destruct (node_at fs p) as [[c|]|] eqn:Hn.
  - split.
    + intros [= <-]. exists p. by rewrite Hn.
    + by intros (q & (_ & [= <-] & _) & ->).
  - split; [done|]. intros (q & (_ & [= <-] & Hq & _) & _). by rewrite Hn in Hq.
  - destruct (too_long _) eqn:Hl.
    + split; [done|]. intros (q & (_ & [= <-] & _ & Hq) & _).
      rewrite Hn in Hq. specialize (Hq eq_refl). congruence.
    + split.
      * intros [= <-]. exists p. by rewrite Hn, Hl.
      * by intros (q & (_ & [= <-] & _) & ->).
Qed.

Lemma open_write_raise path content fs fs' e :
  open_write path content fs = (fs', Raise e) → fs' = fs.
Proof. intros [[? _]|[_ ->]]%open_write_inv; done. Qed.

Lemma create_file_eq self items extension tags_output_dir srcdir title header fs :
  create_file self items extension tags_output_dir srcdir title header fs
  = open_write
      (join3 srcdir tags_output_dir
         (create_file_content self items extension srcdir title header).1)
      (str_join NL (create_file_content self items extension srcdir title header).2) fs.
Proof. unfold create_file. by destruct (create_file_content _ _ _ _ _ _). Qed.


Lemma create_file_filename self items extension srcdir title header :
  (create_file_content self items extension srcdir title header).1
  = str_replace " "%char "_"%char (name self)
    +:+ (if bool_decide ("md" ∈ extension) then ".md" else ".rst").
Proof. unfold create_file_content. by destruct (bool_decide _). Qed.

Lemma page_filename_clean stem (md : bool) :
  str_mem slash stem = false →
  clean_name (stem +:+ (if md then ".md" else ".rst")) = true.
Proof.
  intros Hs. destruct md.
  - apply (page_name_clean stem "md"); [done|by left].
  - apply (page_name_clean stem "rst"); [done|by right].
Qed.

Lemma last_write_elem fs ws w q :
  w ∈ ws → resolve fs w.1 = Ok q → is_Some (last_write fs ws q).
Proof.
  intros Hin Hres. induction ws as [|w' ws IH]; [by apply elem_of_nil in Hin|].
  simpl. apply elem_of_cons in Hin as [<-|Hin].
  - destruct (last_write fs ws q); [done|].
    unfold resolves_to. by rewrite Hres, bool_decide_eq_true_2.
  - destruct (IH Hin) as [c ->]. done.
Qed.

(** C7.  Generating the page of a tag writes exactly one file.  Its name
    is the name of the tag with every space replaced by an underscore,
    followed by [.md] when the configured extensions contain [md] and by
    [.rst] otherwise, also when both dialects are configured.  The call
    succeeds exactly when a file can be written at that name in the
    output directory, and then the file system is the old one with that
    one file set; when the call fails nothing is written.  In an output
    directory that exists, for a tag without a slash whose file name the
    directory can hold and where no directory has that name, the call
    succeeds and the file is an entry of the output directory.  After a
    build every name of the output directory that ends like a page is
    the page of one tag or the overview, in the one dialect. *)
Theorem create_file_one_file (self : Tag) (items : list Entry) (extension : list string)
    (output_dir : Path) (srcdir title header : string) (fs : FS) :
  let filename :=
    str_replace " "%char "_"%char (name self)
    +:+ (if bool_decide ("md" ∈ extension) then ".md" else ".rst") in
  let outdir := os_path_join srcdir (as_posix output_dir) in
  let page := create_file_content self items extension srcdir title header in
  let run := create_file self items extension output_dir srcdir title header fs in
  page.1 = filename
  ∧ (∀ fs', run = (fs', Ok ())
            ↔ ∃ p, writable fs (os_path_join outdir filename) p
                   ∧ fs' = <[p := File (str_join NL page.2)]> fs)
  ∧ (∀ fs' e, run = (fs', Raise e) → fs' = fs)
  ∧ (∀ d, resolve fs outdir = Ok d → node_at fs d = Some Dir →
          str_mem slash (name self) = false →
          name_fits outdir filename = true →
          fs !! (d ++ [filename]) ≠ Some Dir →
          run = (<[d ++ [filename] := File (str_join NL page.2)]> fs, Ok ()))
  ∧ (∀ app fs0 fsR fs1 all_tags pages,
       tags_create_tags (config app) = true →
       fs_wf fs0 →
       clean app (Path_of (tags_output_dir (config app))) fs0 = (fsR, Ok ()) →
       assign_entries app fsR = (fsR, Ok (all_tags, pages)) →
       update_tags app fs0 = (fs1, Ok ()) →
       Forall (λ t, str_mem slash t = false) all_tags.*1 →
       ∃ d, resolve fs1 (outdir_of app) = Ok d
            ∧ (∀ t, t ∈ all_tags.*1 →
                    ∃ c, fs1 !! (d ++ [tag_file_stem t +:+ "." +:+ dialect app])
                         = Some (File c))
            ∧ ∀ n, removable n = true → is_Some (fs1 !! (d ++ [n])) →
                   n = "tagsindex." +:+ dialect app
                   ∨ ∃ t, t ∈ all_tags.*1 ∧ n = tag_file_stem t +:+ "." +:+ dialect app).
Proof.
  intros filename outdir page run. subst run.
  assert (page.1 = filename) as Hname by apply create_file_filename.
  split; [done|]. split; [|split; [|split]].
  - intros fs'. rewrite create_file_eq. fold page. rewrite Hname. apply open_write_iff.
  - intros fs' e. rewrite create_file_eq. apply open_write_raise.
  - intros d Hd Hdir Hsl Hfit Hnd. rewrite create_file_eq. fold page. rewrite Hname.
    apply open_write_child; try done. apply page_filename_clean.
    by rewrite str_mem_replace.
  - intros app fs0 fsR fs1 all_tags pages Hon Hwf Hclean Hassign Hrun Hsl.
    destruct (build_writes _ _ _ _ _ _ Hon Hclean Hassign Hrun) as (Hs & Hall & Hlook).
    destruct (clean_ok app fs0 fsR Hwf Hclean) as (d & Hd & Hdir & Hnone).
    pose proof (assign_entries_registry _ _ _ _ _ Hassign) as [_ Hreg].
    assert (registry_ok all_tags) as Hok by (rewrite Hreg; apply registry_of_ok).
    exists d. split; [by apply (walk_same_dirs _ _ _ _ _ Hs)|]. split.
    + intros t Ht. apply list_elem_of_fmap in Ht as ([k T] & -> & HkT).
      destruct (Hok _ _ HkT) as [HnT _]. simpl in HnT. cbn [fst].
      assert (tag_write app pages T ∈ page_writes app all_tags pages) as Hin.
      { apply elem_of_app. left. apply list_elem_of_fmap. exists T. split; [done|].
        apply list_elem_of_fmap. by exists (k, T). }
      assert (str_mem slash k = false) as Hk.
      { apply (proj1 (Forall_forall _ _) Hsl). apply list_elem_of_fmap. by exists (k, T). }
      cbn [snd] in Hin.
      assert (resolve fsR (tag_write app pages T).1
              = Ok (d ++ [tag_file_stem k +:+ "." +:+ dialect app])) as Hres.
      { rewrite tag_write_path, HnT. apply resolve_child; [done|done|].
        apply page_name_clean; [|apply dialect_cases].
        unfold tag_file_stem. by rewrite str_mem_replace. }
      rewrite Hlook. destruct (last_write_elem _ _ _ _ Hin Hres) as [c ->]. by exists c.
    + intros n Hr. rewrite Hlook.
      destruct (last_write fsR _ (d ++ [n])) as [c|] eqn:Hl.
      2: { rewrite Hnone by done. by intros [? ?]. }
      intros _. apply last_write_Some in Hl as (w & Hw & Hq & _).
      apply elem_of_app in Hw as [Hw|Hw%list_elem_of_singleton].
      * right. apply list_elem_of_fmap in Hw as (T & -> & HT).
        apply list_elem_of_fmap in HT as ([k T'] & -> & HkT).
        destruct (Hok _ _ HkT) as [HnT _]. simpl in HnT. cbn [fst]. exists k.
        split; [apply list_elem_of_fmap; by exists (k, T')|].
        assert (str_mem slash k = false) as Hk.
        { apply (proj1 (Forall_forall _ _) Hsl). apply list_elem_of_fmap. by exists (k, T'). }
        cbn [snd] in Hq. rewrite tag_write_path, HnT in Hq. unfold tag_page_path in Hq.
        rewrite (resolve_child _ _ _ _ Hd Hdir) in Hq.
        -- injection Hq as Hq. by apply app_inv_head in Hq as [= <-].
        -- apply page_name_clean; [|apply dialect_cases].
           unfold tag_file_stem. by rewrite str_mem_replace.
      * left. subst w. rewrite overview_write_path in Hq. unfold overview_path in Hq.
        rewrite (resolve_child _ _ _ _ Hd Hdir) in Hq.
        -- injection Hq as Hq. by apply app_inv_head in Hq as [= <-].
        -- by destruct (dialect_cases app) as [-> | ->].
Qed.




(** ** What a page says of a document *)

Lemma str_app_inj a b c : a +:+ b = a +:+ c → b = c.
Proof.
  induction a as [|x a IH]; [done|]. rewrite !str_app_cons. intros [= H]. by apply IH.
Qed.

(** An entry is made from the parsed path alone. *)
Lemma Entry_init_Path p q fs : Path_of p = Path_of q → Entry_init p fs = Entry_init q fs.
Proof. intros H. unfold Entry_init. by rewrite H. Qed.

Lemma Entry_init_filepath p fs fs' E : Entry_init p fs = (fs', Ok E) → filepath E = Path_of p.
Proof.
  unfold Entry_init. rewrite bind_eq. destruct (open_read _ fs) as [fs0 [text|x]]; [|done].
  rewrite bind_eq. unfold ret, raise.
  repeat (destruct (str_endswith _ _)); rewrite ?bind_eq; by intros [= _ <-].
Qed.

Lemma mfold_assign_entry_made result : ∀ acc fs d pages,
  (mfold result assign_entry acc fs).2 = Ok (d, pages) →
  ∀ E, E ∈ pages → E ∈ acc.2 ∨ ∃ p, Entry_init p fs = (fs, Ok E).
Proof.
  induction result as [|p result IH]; intros acc fs d pages; simpl.
  - intros [= ->] E HE. by left.
  - unfold bind. rewrite assign_entry_eq. pose proof (Entry_init_fs p fs) as Hfs.
    destruct (Entry_init p fs) as [fs' [e|x]] eqn:He; simpl in Hfs; subst; [|done].
    intros H E HE. destruct (IH _ _ _ _ H E HE) as [Hin|Hmade]; [|by right].
    simpl in Hin. apply elem_of_app in Hin as [Hin|Hin%list_elem_of_singleton];
      [by left|subst E; right; by exists p].
Qed.

(** The scanned entries are those of the paths that were found; two of
    them with the same path are the same entry. *)
Lemma pages_same_path app fs d pages E D :
  assign_entries app fs = (fs, Ok (d, pages)) →
  E ∈ pages → D ∈ pages → filepath E = filepath D → E = D.
Proof.
  intros Ha HE HD Hpath. unfold assign_entries in Ha. rewrite bind_eq in Ha.
  pose proof (discover_fs app fs) as Hfs.
  destruct (discover app fs) as [fs1 [found|x]]; simpl in Hfs; subst; [|done].
  assert ((mfold found assign_entry ([], []) fs).2 = Ok (d, pages)) as Hm by by rewrite Ha.
  destruct (mfold_assign_entry_made _ _ _ _ _ Hm E HE) as [Hin|[p Hp]];
    [by apply elem_of_nil in Hin|].
  destruct (mfold_assign_entry_made _ _ _ _ _ Hm D HD) as [Hin|[q Hq]];
    [by apply elem_of_nil in Hin|].
  pose proof (Entry_init_filepath _ _ _ _ Hp) as HpE.
  pose proof (Entry_init_filepath _ _ _ _ Hq) as HqD.
  rewrite (Entry_init_Path p q) in Hp by congruence. congruence.
Qed.

Lemma outdir_leads app rel :
  outdir_in_srcdir app → rel ≠ [] → Forall (λ n, clean_name n = true) rel →
  abs_components (os_path_join (outdir_of app) ("../" +:+ str_join "/" rel))
  = abs_components (srcdir app) ++ rel.
Proof.
  intros Hout Hne Hrel. rewrite abs_components_join by done.
  change ("../" +:+ str_join "/" rel) with (".." +:+ String slash (str_join "/" rel)).
  rewrite str_split_app, str_split_join by (done || by apply clean_name_no_slash).
  change (str_split slash ".." ++ rel) with (".." :: rel). cbn [foldl].
  change (normpath_step (abs_components (outdir_of app)) "..")
    with (removelast (abs_components (outdir_of app))).
  rewrite Hout. by apply normpath_clean.
Qed.

(** C1, amended.  After a build pass that succeeds, for every scanned
    document [D] and every tag [t] that [D] declares, the page of [t]
    holds a line for [D]: after the indentation of the dialect, [../]
    and the names that lead to the file of [D], joined by slashes.  For
    an output directory that lies directly in the source directory this
    is the path of [D] relative to the output directory: followed from
    there it leads to the file of [D].  The page of [t] is the file at
    its name in the output directory, provided that the page of no
    other tag and not the overview page is written to the same file. *)
Theorem tag_page_lists_document (app : App) (fs fs1 fs' : FS)
    (all_tags : list (string * Tag)) (pages : list Entry) (D : Entry) (t : string) :
  tags_create_tags (config app) = true →
  fs_wf fs →
  str_startswith (srcdir app) "/" = true →
  outdir_in_srcdir app →
  clean app (Path_of (tags_output_dir (config app))) fs = (fs1, Ok ()) →
  assign_entries app fs1 = (fs1, Ok (all_tags, pages)) →
  update_tags app fs = (fs', Ok ()) →
  D ∈ pages →
  t ∈ tags D →
  (∀ t', t' ∈ all_tags.*1 → t' ≠ t →
         resolve fs1 (tag_page_path app t') ≠ resolve fs1 (tag_page_path app t)) →
  resolve fs1 (overview_path app) ≠ resolve fs1 (tag_page_path app t) →
  ∃ p content dir rel,
    resolve fs' (tag_page_path app t) = Ok p
    ∧ fs' !! p = Some (File (str_join NL content))
    ∧ (if bool_decide ("md" ∈ tags_extension (config app)) then "../" else "    ../")
      +:+ str_join "/" rel ∈ content
    ∧ rel ≠ []
    ∧ Forall (λ n, clean_name n = true) rel
    ∧ resolve fs1 (srcdir app) = Ok dir
    ∧ is_Some (fs1 !! (dir ++ rel))
    ∧ filepath D = Path_of (srcdir app +:+ "/" +:+ str_join "/" rel)
    ∧ abs_components (os_path_join (outdir_of app) ("../" +:+ str_join "/" rel))
      = abs_components (as_posix (filepath D)).
Proof.
  intros Hon Hwf Habs Hout Hclean Hassign Hrun HD Ht Htags Hover.
  pose proof (clean_wf app fs fs1 Hwf Hclean) as Hwf1.
  destruct (entry_line_refers app fs1 all_tags pages D Hwf1 Habs Hassign HD)
    as (dir & rel & Hdir & Hfile & Hne & Hrel & Hpath & Hline).
  pose proof (assign_entries_registry _ _ _ _ _ Hassign) as [_ Hreg].
  destruct (registry_of_declared pages D t HD Ht) as (T & HT & _).
  rewrite <- Hreg in HT.
  destruct (tag_page_written app fs fs1 fs' all_tags pages T t
              Hon Hclean Hassign Hrun HT Htags Hover) as (HnT & p & _ & Hp & Hpage).
  exists p, (create_file_content T (filter (λ item, name T ∈ tags item) pages)
               (tags_extension (config app)) (srcdir app)
               (tags_page_title (config app)) (tags_page_header (config app))).2,
         dir, rel.
  split; [done|]. split; [done|]. split.
  { rewrite <- Hline. apply entry_line_listed. apply list_elem_of_filter. by rewrite HnT. }
  repeat (split; [done|]).
  rewrite outdir_leads, Hpath by done.
  rewrite abs_components_as_posix by (by apply str_startswith_app_l).
  by rewrite abs_components_below.
Qed.

(** ** Repeated declarations in a build *)

Lemma occurrences_fmap {A B} `{EqDecision A} `{EqDecision B} (f : A → B) (D : A) l :
  (∀ x, x ∈ l → f x = f D → x = D) →
  occurrences (f D) (f <$> l) = occurrences D l.
Proof.
  unfold occurrences. induction l as [|x l IH]; intros Hinj; [done|].
  rewrite fmap_cons, !filter_cons.
  assert (length (filter (λ y, y = f D) (f <$> l)) = length (filter (λ y, y = D) l)) as Hl.
  { apply IH. intros; apply Hinj; [by right|done]. }
  destruct (decide (x = D)) as [->|Hne].
  - rewrite decide_True by done. simpl. by rewrite Hl.
  - rewrite decide_False; [done|]. intros Hf. apply Hne, Hinj; [by left|done].
Qed.

Lemma listed_items_elem extension (E : Entry) items :
  E ∈ listed_items extension items → E ∈ items.
Proof.
  unfold listed_items. destruct (bool_decide _); [done|]. by rewrite sorted_perm.
Qed.

(** C10, amended.  In a build that succeeds, a document that is scanned
    once and declares a tag [n > 1] times is [n] times among the items
    of that tag in the registry.  The row of the tag in the overview
    page that the build leaves shows the number of the items of the tag,
    which is the number of its declarations over all documents: it is
    [n] when no other document declares the tag.  The page of the tag,
    when the page of no other tag and not the overview is written to
    the same file, lists the document once: the build makes it from the
    scanned entries that declare the tag, not from the items of the
    registry. *)
Theorem duplicate_declarations (app : App) (fs fsR fs' : FS)
    (all_tags : list (string * Tag)) (pages : list Entry)
    (D : Entry) (t : string) (n : nat) :
  tags_create_tags (config app) = true →
  clean app (Path_of (tags_output_dir (config app))) fs = (fsR, Ok ()) →
  assign_entries app fsR = (fsR, Ok (all_tags, pages)) →
  update_tags app fs = (fs', Ok ()) →
  occurrences D pages = 1 →
  declarations t D = n →
  1 < n →
  ∃ T, dict_get t all_tags = Some T
     ∧ name T = t
     ∧ occurrences D (items T) = n
     ∧ length (items T) = sum_list (declarations t <$> pages)
     ∧ ((∀ E, E ∈ pages → t ∈ tags E → E = D) →
          items T = replicate n D ∧ length (items T) = n)
     ∧ (∃ p rows,
          resolve fs' (overview_path app) = Ok p
          ∧ fs' !! p = Some (File (str_join NL rows))
          ∧ (if bool_decide ("md" ∈ tags_extension (config app))
             then EmptyString else "    ")
            +:+ t +:+ " (" +:+ str_of_nat (length (items T)) +:+ ") <"
            +:+ str_replace " "%char "_"%char t
            +:+ (if bool_decide ("md" ∈ tags_extension (config app))
                 then ">" else ".rst>")
            ∈ rows)
     ∧ ((∀ t', t' ∈ all_tags.*1 → t' ≠ t →
               resolve fsR (tag_page_path app t') ≠ resolve fsR (tag_page_path app t)) →
        resolve fsR (overview_path app) ≠ resolve fsR (tag_page_path app t) →
        ∃ p listed,
          resolve fs' (tag_page_path app t) = Ok p
          ∧ fs' !! p
            = Some (File (str_join NL
                (page_head (tags_extension (config app)) t
                   (tags_page_title (config app)) (tags_page_header (config app))
                 ++ (entry_line (tags_extension (config app)) (srcdir app) <$> listed)
                 ++ page_foot (tags_extension (config app)))))
          ∧ listed = listed_items (tags_extension (config app))
                       (filter (λ item, t ∈ tags item) pages)
          ∧ occurrences D listed = 1
          ∧ (fs_wf fs → str_startswith (srcdir app) "/" = true →
             occurrences (entry_line (tags_extension (config app)) (srcdir app) D)
               (entry_line (tags_extension (config app)) (srcdir app) <$> listed) = 1)).
Proof.
  intros Hon Hclean Hassign Hrun Hocc Hn Hgt.
  destruct (duplicate_registry app fsR fsR all_tags pages D t n Hassign Hocc Hn Hgt)
    as (T & HT & HnT & HoccT & Hfilter & _ & Hlen & Hrow & Honly).
  assert (t ∈ tags D) as HtD by (apply declarations_pos; lia).
  exists T. repeat (split; [done|]). split; [|split].
  - intros Hall. destruct (Honly Hall) as [Hrep _]. split; [done|].
    by rewrite Hrep, length_replicate.
  - destruct (build_writes _ _ _ _ _ _ Hon Hclean Hassign Hrun) as (Hs & Hall & Hlook).
    unfold page_writes in Hall. apply Forall_app in Hall as [_ Hov].
    apply Forall_cons in Hov as [[p Hp] _].
    exists p, (tagpage_content all_tags (outdir_of app) (tags_overview_title (config app))
                 (tags_extension (config app)) (tags_index_head (config app))).2.
    split; [|split].
    + rewrite <- overview_write_path with (all_tags := all_tags).
      by apply (walk_same_dirs _ _ _ _ _ Hs).
    + rewrite Hlook. unfold page_writes. by rewrite (last_write_snoc _ _ _ p Hp).
    + pose proof (Hrow (outdir_of app) (tags_overview_title (config app))
                    (tags_extension (config app)) (tags_index_head (config app))) as Hin.
      unfold overview_row in Hin. rewrite HnT in Hin.
      by destruct (bool_decide ("md" ∈ tags_extension (config app))).
  - intros Htags Hover.
    destruct (tag_page_written app fs fsR fs' all_tags pages T t
                Hon Hclean Hassign Hrun HT Htags Hover) as (_ & p & _ & Hp & Hpage).
    exists p, (listed_items (tags_extension (config app))
                 (filter (λ item, t ∈ tags item) pages)).
    split; [done|]. split.
    { rewrite Hpage. unfold tag_write. cbn [snd].
      by rewrite create_file_content_shape, HnT. }
    split; [done|].
    assert (occurrences D (listed_items (tags_extension (config app))
                             (filter (λ item, t ∈ tags item) pages)) = 1) as Hone.
    { by rewrite occurrences_listed_items, occurrences_filter_tag. }
    split; [done|]. intros Hwf Habs. rewrite occurrences_fmap; [done|].
    intros E HE%listed_items_elem Hline. apply list_elem_of_filter in HE as [_ HE].
    assert (D ∈ pages) as HD.
    { destruct (decide (D ∈ pages)) as [|Hno]; [done|]. exfalso.
      unfold occurrences in Hocc.
      assert (filter (λ y, y = D) pages = []) as Hnil; [|by rewrite Hnil in Hocc].
      apply elem_of_nil_inv. intros x [-> Hx]%list_elem_of_filter. done. }
    pose proof (clean_wf app fs fsR Hwf Hclean) as HwfR.
    destruct (entry_line_refers app fsR all_tags pages E HwfR Habs Hassign HE)
      as (_ & relE & _ & _ & _ & _ & HpE & HlE).
    destruct (entry_line_refers app fsR all_tags pages D HwfR Habs Hassign HD)
      as (_ & relD & _ & _ & _ & _ & HpD & HlD).
    rewrite HlE, HlD in Hline. apply str_app_inj in Hline.
    apply (pages_same_path app fsR all_tags pages E D Hassign HE HD). congruence.
Qed.

(** ** The pages at work *)

(** C1 as stated fails.  A document tagged [tagsindex]: the page of the
    tag is written to [tagsindex.rst], and then the overview page is
    written over it; the file does not name the document. *)
Lemma tag_page_counterexample :
  let app := project ["rst"] in
  let fs1 := (clean app (Path_of "_tags") overview_clash).1 in
  let fs' := (update_tags app overview_clash).1 in
  let D := entry_of overview_clash "/docs/a.rst" in
  clean app (Path_of "_tags") overview_clash = (fs1, Ok ())
  ∧ assign_entries app fs1 = (fs1, Ok (registry_of [D], [D]))
  ∧ update_tags app overview_clash = (fs', Ok ())
  ∧ tags D = ["tagsindex"]
  ∧ filepath D = Path_of "/docs/a.rst"
  ∧ resolve fs' (tag_page_path app "tagsindex") = Ok ["docs"; "_tags"; "tagsindex.rst"]
  ∧ ∃ page, fs' !! ["docs"; "_tags"; "tagsindex.rst"] = Some (File page)
            ∧ str_contains "a.rst" page = false.
Proof.
  split; [apply run_ok; vm_compute; reflexivity|].
  split; [apply assign_entries_run; vm_compute; reflexivity|].
  split; [apply run_ok; vm_compute; reflexivity|].
  repeat split; try (vm_compute; reflexivity).
  eexists. split; vm_compute; reflexivity.
Qed.

(** The amended C1 on the two documents: [Beta.rst] has the line of
    [a.rst], which leads from [/docs/_tags] to [/docs/a.rst]. *)
Lemma tag_page_lists_document_witness :
  let app := project ["rst"] in
  let fs1 := (clean app (Path_of "_tags") two_docs).1 in
  let fs' := (update_tags app two_docs).1 in
  let D := entry_of two_docs "/docs/a.rst" in
  ∃ p content dir rel,
    resolve fs' (tag_page_path app "Beta") = Ok p
    ∧ fs' !! p = Some (File (str_join NL content))
    ∧ (if bool_decide ("md" ∈ tags_extension (config app)) then "../" else "    ../")
      +:+ str_join "/" rel ∈ content
    ∧ rel ≠ []
    ∧ Forall (λ n, clean_name n = true) rel
    ∧ resolve fs1 (srcdir app) = Ok dir
    ∧ is_Some (fs1 !! (dir ++ rel))
    ∧ filepath D = Path_of (srcdir app +:+ "/" +:+ str_join "/" rel)
    ∧ abs_components (os_path_join (outdir_of app) ("../" +:+ str_join "/" rel))
      = abs_components (as_posix (filepath D)).
Proof.
  apply (tag_page_lists_document (project ["rst"]) two_docs
           (clean (project ["rst"]) (Path_of "_tags") two_docs).1
           (update_tags (project ["rst"]) two_docs).1
           (registry_of [entry_of two_docs "/docs/b.rst"; entry_of two_docs "/docs/a.rst"])
           [entry_of two_docs "/docs/b.rst"; entry_of two_docs "/docs/a.rst"]
           (entry_of two_docs "/docs/a.rst") "Beta").
  - reflexivity.
  - apply fs_wf_check. vm_compute. reflexivity.
  - vm_compute. reflexivity.
  - unfold outdir_in_srcdir. vm_compute. reflexivity.
  - apply run_ok. vm_compute. reflexivity.
  - apply assign_entries_run. vm_compute. reflexivity.
  - apply run_ok. vm_compute. reflexivity.
  - apply list_elem_of_In. vm_compute. tauto.
  - apply list_elem_of_In. vm_compute. tauto.
  - intros t' Hin Hne. apply list_elem_of_In in Hin. vm_compute in Hin.
    destruct Hin as [<-|[<-|[]]]; [exfalso; apply Hne; reflexivity|].
    vm_compute. discriminate.
  - vm_compute. discriminate.
Defined.

(** Where the output directory lies deeper, the line of a document is
    still made from the path relative to the source directory: from
    [/docs/out/tags] the line [../a.rst] leads to [/docs/out/a.rst], not
    to the document. *)
Example nested_output_directory :
  let fs' := (update_tags nested_project one_doc).1 in
  update_tags nested_project one_doc = (fs', Ok ())
  ∧ fs' !! ["docs"; "out"; "tags"; "x.rst"]
    = Some (File (str_join NL
        [ "My tags: x"; "##########"; EmptyString; ".. toctree::"; "    :maxdepth: 1";
          "    :caption: With this tag"; EmptyString; "    ../a.rst"; EmptyString ]))
  ∧ abs_components (os_path_join (outdir_of nested_project) "../a.rst")
    = ["docs"; "out"; "a.rst"]
  ∧ abs_components "/docs/a.rst" = ["docs"; "a.rst"].
Proof.
  split; [apply run_ok; vm_compute; reflexivity|].
  repeat split; vm_compute; reflexivity.
Qed.



(** C7 on the tag [machine learning] with both dialects configured: one
    file, [machine_learning.md]; and on the two documents, where the
    pages in the output directory are those of the two tags and the
    overview. *)
Lemma create_file_one_file_witness :
  create_file (Tag_init "machine learning") [] ["rst"; "md"] (Path_of "_tags") "/docs"
    "My tags" "With this tag" empty_output
  = (<[ ["docs"; "_tags"] ++ ["machine_learning.md"] :=
          File (str_join NL
            (create_file_content (Tag_init "machine learning") [] ["rst"; "md"] "/docs"
               "My tags" "With this tag").2) ]> empty_output,
     Ok ())
  ∧ (let app := project ["rst"] in
     let fs1 := (update_tags app two_docs).1 in
     let all_tags :=
       registry_of [entry_of two_docs "/docs/b.rst"; entry_of two_docs "/docs/a.rst"] in
     ∃ d, resolve fs1 (outdir_of app) = Ok d
          ∧ (∀ t, t ∈ all_tags.*1 →
                  ∃ c, fs1 !! (d ++ [tag_file_stem t +:+ "." +:+ dialect app])
                       = Some (File c))
          ∧ ∀ n, removable n = true → is_Some (fs1 !! (d ++ [n])) →
                 n = "tagsindex." +:+ dialect app
                 ∨ ∃ t, t ∈ all_tags.*1 ∧ n = tag_file_stem t +:+ "." +:+ dialect app).
Proof.
  destruct (create_file_one_file (Tag_init "machine learning") [] ["rst"; "md"]
              (Path_of "_tags") "/docs" "My tags" "With this tag" empty_output)
    as (_ & _ & _ & Hwrite & Hbuild).
  split.
  - apply (Hwrite ["docs"; "_tags"]).
    + vm_compute. reflexivity.
    + vm_compute. reflexivity.
    + vm_compute. reflexivity.
    + vm_compute. reflexivity.
    + vm_compute. discriminate.
  - apply (Hbuild (project ["rst"]) two_docs
             (clean (project ["rst"]) (Path_of "_tags") two_docs).1
             (update_tags (project ["rst"]) two_docs).1
             (registry_of [entry_of two_docs "/docs/b.rst"; entry_of two_docs "/docs/a.rst"])
             [entry_of two_docs "/docs/b.rst"; entry_of two_docs "/docs/a.rst"]).
    + reflexivity.
    + apply fs_wf_check. vm_compute. reflexivity.
    + apply run_ok. vm_compute. reflexivity.
    + apply assign_entries_run. vm_compute. reflexivity.
    + apply run_ok. vm_compute. reflexivity.
    + apply Forall_forall. intros t Hin. apply list_elem_of_In in Hin. vm_compute in Hin.
      destruct Hin as [<-|[<-|[]]]; vm_compute; reflexivity.
Defined.

(** C10 as stated fails, in three ways.  One document declares [x]
    twice and another declares it once: the overview counts three, not
    two.  The extension [rst] is configured twice: the document is
    scanned twice, the overview counts four and the page of the tag
    lists the document twice.  The tag is named [tagsindex]: its page is
    written over by the overview and does not name the document. *)
Lemma duplicate_count_counterexample :
  (let app := project ["rst"] in
   let A := entry_of repeated_tag "/docs/a.rst" in
   let B := entry_of repeated_tag "/docs/b.rst" in
   let fsR := (clean app (Path_of "_tags") repeated_tag).1 in
   let fs' := (update_tags app repeated_tag).1 in
   update_tags app repeated_tag = (fs', Ok ())
   ∧ assign_entries app fsR = (fsR, Ok (registry_of [B; A], [B; A]))
   ∧ tags A = ["x"; "x"]
   ∧ declarations "x" A = 2
   ∧ occurrences A [B; A] = 1
   ∧ (∃ T, dict_get "x" (registry_of [B; A]) = Some T
           ∧ occurrences A (items T) = 2
           ∧ length (items T) = 3)
   ∧ ∃ page, fs' !! ["docs"; "_tags"; "tagsindex.rst"] = Some (File page)
             ∧ str_contains "x (3) <x.rst>" page = true
             ∧ str_contains "x (2) <x.rst>" page = false)
  ∧ (let app := project ["rst"; "rst"] in
     let D := entry_of repeated_alone "/docs/a.rst" in
     let fsR := (clean app (Path_of "_tags") repeated_alone).1 in
     let fs' := (update_tags app repeated_alone).1 in
     update_tags app repeated_alone = (fs', Ok ())
     ∧ assign_entries app fsR = (fsR, Ok (registry_of [D; D], [D; D]))
     ∧ declarations "x" D = 2
     ∧ occurrences D [D; D] = 2
     ∧ (∃ T, dict_get "x" (registry_of [D; D]) = Some T
             ∧ occurrences D (items T) = 4)
     ∧ fs' !! ["docs"; "_tags"; "x.rst"]
       = Some (File (str_join NL
           [ "My tags: x"; "##########"; EmptyString; ".. toctree::";
             "    :maxdepth: 1"; "    :caption: With this tag"; EmptyString;
             "    ../a.rst"; "    ../a.rst"; EmptyString ]))
     ∧ ∃ page, fs' !! ["docs"; "_tags"; "tagsindex.rst"] = Some (File page)
               ∧ str_contains "x (4) <x.rst>" page = true
               ∧ str_contains "x (2) <x.rst>" page = false)
  ∧ (let app := project ["rst"] in
     let D := entry_of repeated_clash "/docs/a.rst" in
     let fsR := (clean app (Path_of "_tags") repeated_clash).1 in
     let fs' := (update_tags app repeated_clash).1 in
     update_tags app repeated_clash = (fs', Ok ())
     ∧ assign_entries app fsR = (fsR, Ok (registry_of [D], [D]))
     ∧ declarations "tagsindex" D = 2
     ∧ occurrences D [D] = 1
     ∧ resolve fs' (tag_page_path app "tagsindex") = Ok ["docs"; "_tags"; "tagsindex.rst"]
     ∧ ∃ page, fs' !! ["docs"; "_tags"; "tagsindex.rst"] = Some (File page)
               ∧ str_contains "a.rst" page = false).
Proof.
  split; [|split].
  - split; [apply run_ok; vm_compute; reflexivity|].
    split; [apply assign_entries_run; vm_compute; reflexivity|].
    repeat split; try (vm_compute; reflexivity).
    + eexists. repeat split; vm_compute; reflexivity.
    + eexists. repeat split; vm_compute; reflexivity.
  - split; [apply run_ok; vm_compute; reflexivity|].
    split; [apply assign_entries_run; vm_compute; reflexivity|].
    repeat split; try (vm_compute; reflexivity).
    + eexists. repeat split; vm_compute; reflexivity.
    + eexists. repeat split; vm_compute; reflexivity.
  - split; [apply run_ok; vm_compute; reflexivity|].
    split; [apply assign_entries_run; vm_compute; reflexivity|].
    repeat split; try (vm_compute; reflexivity).
    eexists. repeat split; vm_compute; reflexivity.
Qed.

(** The amended C10 on a document that declares [x] twice, alone. *)
Lemma duplicate_declarations_witness :
  let app := project ["rst"] in
  let fs' := (update_tags app repeated_alone).1 in
  let D := entry_of repeated_alone "/docs/a.rst" in
  ∃ T, dict_get "x" (registry_of [D]) = Some T
     ∧ name T = "x"
     ∧ occurrences D (items T) = 2
     ∧ length (items T) = sum_list (declarations "x" <$> [D])
     ∧ items T = replicate 2 D
     ∧ (∃ p rows,
          resolve fs' (overview_path app) = Ok p
          ∧ fs' !! p = Some (File (str_join NL rows))
          ∧ (if bool_decide ("md" ∈ tags_extension (config app))
             then EmptyString else "    ")
            +:+ "x" +:+ " (" +:+ str_of_nat (length (items T)) +:+ ") <"
            +:+ str_replace " "%char "_"%char "x"
            +:+ (if bool_decide ("md" ∈ tags_extension (config app))
                 then ">" else ".rst>")
            ∈ rows)
     ∧ ∃ p listed,
         resolve fs' (tag_page_path app "x") = Ok p
         ∧ fs' !! p
           = Some (File (str_join NL
               (page_head (tags_extension (config app)) "x"
                  (tags_page_title (config app)) (tags_page_header (config app))
                ++ (entry_line (tags_extension (config app)) (srcdir app) <$> listed)
                ++ page_foot (tags_extension (config app)))))
         ∧ listed = listed_items (tags_extension (config app))
                      (filter (λ item, "x" ∈ tags item) [D])
         ∧ occurrences D listed = 1
         ∧ occurrences (entry_line (tags_extension (config app)) (srcdir app) D)
             (entry_line (tags_extension (config app)) (srcdir app) <$> listed) = 1.
Proof.
  assert (clean (project ["rst"]) (Path_of "_tags") repeated_alone
          = ((clean (project ["rst"]) (Path_of "_tags") repeated_alone).1, Ok ())) as Hclean.
  { apply run_ok. vm_compute. reflexivity. }
  assert (assign_entries (project ["rst"])
            (clean (project ["rst"]) (Path_of "_tags") repeated_alone).1
          = ((clean (project ["rst"]) (Path_of "_tags") repeated_alone).1,
             Ok (registry_of [entry_of repeated_alone "/docs/a.rst"],
                 [entry_of repeated_alone "/docs/a.rst"]))) as Hassign.
  { apply assign_entries_run. vm_compute. reflexivity. }
  assert (update_tags (project ["rst"]) repeated_alone
          = ((update_tags (project ["rst"]) repeated_alone).1, Ok ())) as Hrun.
  { apply run_ok. vm_compute. reflexivity. }
  assert (occurrences (entry_of repeated_alone "/docs/a.rst")
            [entry_of repeated_alone "/docs/a.rst"] = 1) as Hocc.
  { vm_compute. reflexivity. }
  assert (declarations "x" (entry_of repeated_alone "/docs/a.rst") = 2) as Hn.
  { vm_compute. reflexivity. }
  destruct (duplicate_declarations (project ["rst"]) repeated_alone
              (clean (project ["rst"]) (Path_of "_tags") repeated_alone).1
              (update_tags (project ["rst"]) repeated_alone).1
              (registry_of [entry_of repeated_alone "/docs/a.rst"])
              [entry_of repeated_alone "/docs/a.rst"]
              (entry_of repeated_alone "/docs/a.rst") "x" 2
              eq_refl Hclean Hassign Hrun Hocc Hn ltac:(lia))
    as (T & HT & HnT & HoccT & Hlen & Honly & Hover & Hpage).
  exists T. repeat (split; [assumption|]). split.
  { apply Honly. intros E HE _. apply list_elem_of_singleton in HE. exact HE. }
  split; [assumption|].
  destruct Hpage as (p & listed & Hp & Hfile & Hl & Ho & Hline).
  { intros t' Hin Hne. apply list_elem_of_In in Hin. vm_compute in Hin.
    destruct Hin as [<-|[]]. exfalso. apply Hne. reflexivity. }
  { vm_compute. discriminate. }
  exists p, listed. repeat (split; [assumption|]).
  apply Hline; [apply fs_wf_check|]; vm_compute; reflexivity.
Defined.

(** ** The further statements on the worked inputs *)

(** X2 on a document in a subdirectory and a tag with a space. *)
Lemma plaintext_link_target_witness :
  ∃ refuri,
    _get_plaintext_node "machine learning" (doc_tag_dir (project ["rst"]) "/docs/sub/a.rst")
    = nodes_reference refuri "machine learning"
    ∧ str_startswith refuri "/" = false
    ∧ abs_components (os_path_join (as_posix (Path_parent (Path_of "/docs/sub/a.rst"))) refuri)
      = abs_components (os_path_join (outdir_of (project ["rst"]))
                          (tag_file_stem "machine learning" +:+ ".html")).
Proof.
  apply (plaintext_link_target (project ["rst"]) "/docs/sub/a.rst" "machine learning");
    reflexivity.
Defined.

(** X3 on the same document, with the stand-in for the role. *)
Lemma badge_link_target_witness :
  ∃ target,
    _get_badge_node fnmatch_plain role_stub (config (project ["rst"])) "machine learning"
      (doc_tag_dir (project ["rst"]) "/docs/sub/a.rst")
    = role_stub (_get_tag_color fnmatch_plain (config (project ["rst"])) "machine learning")
        ("bdg-ref-"
         +:+ _get_tag_color fnmatch_plain (config (project ["rst"])) "machine learning")
        "machine learning" ("machine learning" +:+ " <" +:+ target +:+ ">")
    ∧ str_startswith target "/" = false
    ∧ abs_components (os_path_join (as_posix (Path_parent (Path_of "/docs/sub/a.rst"))) target)
      = abs_components (os_path_join (outdir_of (project ["rst"]))
                          (tag_file_stem "machine learning")).
Proof.
  apply (badge_link_target fnmatch_plain role_stub (project ["rst"]) "/docs/sub/a.rst"
           "machine learning"); reflexivity.
Defined.

(** X4 on the first of the two documents. *)
Lemma entry_tags_trimmed_witness :
  str_strip "Alpha" = "Alpha" ∧ str_mem ","%char "Alpha" = false.
Proof.
  apply (entry_tags_trimmed "/docs/a.rst" two_docs two_docs
           (entry_of two_docs "/docs/a.rst") "Alpha").
  - apply Entry_init_run. vm_compute. reflexivity.
  - apply list_elem_of_In. vm_compute. tauto.
Defined.

(** X5 on the document without a declaration. *)
Lemma no_marker_no_tags_witness : tags (entry_of untagged "/docs/a.rst") = [].
Proof.
  apply (no_marker_no_tags "/docs/a.rst" untagged untagged
           ("Title" +:+ NL +:+ NL +:+ "Text." +:+ NL) (entry_of untagged "/docs/a.rst")).
  - apply open_read_run. vm_compute. reflexivity.
  - apply Entry_init_run. vm_compute. reflexivity.
  - vm_compute. reflexivity.
Defined.

(** X6 on the match in the first of the two documents, which starts at
    the second newline after the title. *)
Lemma rst_directive_starts_line_witness :
  (6 = 0 ∧ str_startswith doc_a ".. tags::" = true)
  ∨ str_startswith (str_drop 6 doc_a) (NL +:+ ".. tags::") = true.
Proof.
  apply (rst_directive_starts_line doc_a {| m_start := 6; m_end := 28; group1 := " Alpha, Beta" |}).
  vm_compute. reflexivity.
Defined.

(** X7 on the two documents. *)
Lemma registry_keys_witness :
  let pages := [entry_of two_docs "/docs/b.rst"; entry_of two_docs "/docs/a.rst"] in
  (registry_of pages).*1 = distinct (declared_tags pages)
  ∧ NoDup (registry_of pages).*1
  ∧ (∀ t, t ∈ (registry_of pages).*1 ↔ ∃ D, D ∈ pages ∧ t ∈ tags D)
  ∧ (∀ t T, (t, T) ∈ registry_of pages → name T = t ∧ items T = declared_items t pages).
Proof.
  apply (registry_keys (project ["rst"]) two_docs two_docs).
  apply assign_entries_run. vm_compute. reflexivity.
Defined.

(** X8 on the two documents. *)
Lemma overview_written_witness :
  let app := project ["rst"] in
  let fs' := (update_tags app two_docs).1 in
  let all_tags :=
    registry_of [entry_of two_docs "/docs/b.rst"; entry_of two_docs "/docs/a.rst"] in
  ∃ p, resolve fs' (overview_path app) = Ok p
       ∧ fs' !! p = Some (File (overview_write app all_tags).2)
       ∧ ∀ T, T ∈ dict_values all_tags →
              overview_row ["rst"] T
              ∈ (tagpage_content all_tags (outdir_of app) "Tags overview" ["rst"] "Tags").2.
Proof.
  apply (overview_written (project ["rst"]) two_docs
           (clean (project ["rst"]) (Path_of "_tags") two_docs).1
           (update_tags (project ["rst"]) two_docs).1
           (registry_of [entry_of two_docs "/docs/b.rst"; entry_of two_docs "/docs/a.rst"])
           [entry_of two_docs "/docs/b.rst"; entry_of two_docs "/docs/a.rst"]).
  - reflexivity.
  - apply run_ok. vm_compute. reflexivity.
  - apply assign_entries_run. vm_compute. reflexivity.
  - apply run_ok. vm_compute. reflexivity.
Defined.

(** X9 on the document without a declaration. *)
Lemma no_tags_only_overview_witness :
  let app := project ["rst"] in
  let fsR := (clean app (Path_of "_tags") untagged).1 in
  (@nil (string * Tag)) = []
  ∧ ∃ p, resolve fsR (overview_path app) = Ok p
         ∧ (update_tags app untagged).1 = <[p := File (overview_write app []).2]> fsR
         ∧ (overview_write app []).2
           = str_join NL
               (if bool_decide ("md" ∈ tags_extension (config app)) then
                  [ "(tagoverview)="; EmptyString;
                    "# " +:+ tags_overview_title (config app); EmptyString;
                    "```{toctree}"; "---";
                    "caption: " +:+ tags_index_head (config app);
                    "maxdepth: 1"; "---"; "```"; EmptyString ]
                else
                  [ ":orphan:"; EmptyString; ".. _tagoverview:"; EmptyString;
                    tags_overview_title (config app);
                    str_repeat "#"%char (String.length (tags_overview_title (config app)));
                    EmptyString; ".. toctree::";
                    "    :caption: " +:+ tags_index_head (config app);
                    "    :maxdepth: 1"; EmptyString; EmptyString ]).
Proof.
  apply (no_tags_only_overview (project ["rst"]) untagged
           (clean (project ["rst"]) (Path_of "_tags") untagged).1
           (update_tags (project ["rst"]) untagged).1
           [] [entry_of untagged "/docs/a.rst"]).
  - reflexivity.
  - apply run_ok. vm_compute. reflexivity.
  - apply assign_entries_run. vm_compute. reflexivity.
  - apply run_ok. vm_compute. reflexivity.
  - intros D HD. apply list_elem_of_In in HD. vm_compute in HD.
    destruct HD as [<-|[]]. reflexivity.
Defined.

(** X10 on the output directory with a page of an earlier build. *)
Lemma only_written_pages_remain_witness :
  let app := project ["rst"] in
  let fsR := (clean app (Path_of "_tags") stale_page).1 in
  let fs' := (update_tags app stale_page).1 in
  let pages := [entry_of stale_page "/docs/b.rst"; entry_of stale_page "/docs/a.rst"] in
  ∃ d, resolve fs' (outdir_of app) = Ok d
       ∧ node_at fs' d = Some Dir
       ∧ ∀ n, removable n = true → is_Some (fs' !! (d ++ [n])) →
              ∃ w, w ∈ page_writes app (registry_of pages) pages
                   ∧ resolve fsR w.1 = Ok (d ++ [n])
                   ∧ fs' !! (d ++ [n]) = Some (File w.2).
Proof.
  apply (only_written_pages_remain (project ["rst"]) stale_page
           (clean (project ["rst"]) (Path_of "_tags") stale_page).1
           (update_tags (project ["rst"]) stale_page).1
           (registry_of [entry_of stale_page "/docs/b.rst"; entry_of stale_page "/docs/a.rst"])
           [entry_of stale_page "/docs/b.rst"; entry_of stale_page "/docs/a.rst"]).
  - reflexivity.
  - apply fs_wf_check. vm_compute. reflexivity.
  - apply run_ok. vm_compute. reflexivity.
  - apply assign_entries_run. vm_compute. reflexivity.
  - apply run_ok. vm_compute. reflexivity.
Defined.

(** X11 on the same input: the text file in the output directory and the
    documents stay. *)
Lemma other_files_kept_witness :
  let app := project ["rst"] in
  let fs' := (update_tags app stale_page).1 in
  ∃ d, resolve fs' (outdir_of app) = Ok d
       ∧ ∀ q x, stale_page !! q = Some x → (∀ n, q = d ++ [n] → removable n = false) →
                fs' !! q = Some x.
Proof.
  apply (other_files_kept (project ["rst"]) stale_page
           (clean (project ["rst"]) (Path_of "_tags") stale_page).1
           (update_tags (project ["rst"]) stale_page).1
           (registry_of [entry_of stale_page "/docs/b.rst"; entry_of stale_page "/docs/a.rst"])
           [entry_of stale_page "/docs/b.rst"; entry_of stale_page "/docs/a.rst"]).
  - reflexivity.
  - apply fs_wf_check. vm_compute. reflexivity.
  - apply run_ok. vm_compute. reflexivity.
  - apply assign_entries_run. vm_compute. reflexivity.
  - apply run_ok. vm_compute. reflexivity.
  - apply Forall_forall. intros t Hin. apply list_elem_of_In in Hin. vm_compute in Hin.
    destruct Hin as [<-|[<-|[]]]; vm_compute; reflexivity.
Defined.

(** X12 on the directory named like a document, which is found first. *)
Lemma first_failing_document_witness :
  let app := project ["rst"] in
  let fsR := (clean app (Path_of "_tags") directory_document).1 in
  (∀ e, Entry_init "/docs/sub.rst" fsR = (fsR, Raise e) →
        update_tags app directory_document = (fsR, Raise e))
  ∧ (∀ q, resolve fsR (as_posix (Path_of "/docs/sub.rst")) = Ok q →
          node_at fsR q = Some Dir →
          update_tags app directory_document = (fsR, Raise IsADirectoryError)).
Proof.
  apply (first_failing_document (project ["rst"]) directory_document
           (clean (project ["rst"]) (Path_of "_tags") directory_document).1
           [] ["/docs/a.rst"] "/docs/sub.rst").
  - reflexivity.
  - apply run_ok. vm_compute. reflexivity.
  - apply discover_run. vm_compute. reflexivity.
  - constructor.
Defined.

(** X13 on the output directory that holds the directory [first]. *)
Lemma cleanup_directory_aborts_witness :
  ∃ fs1,
    update_tags (project ["rst"]) blocked_cleanup = (fs1, Raise IsADirectoryError)
    ∧ ∀ q, fs1 !! q = blocked_cleanup !! q
           ∨ ∃ m c, q = ["docs"; "_tags"] ++ [m] ∧ removable m = true
                    ∧ blocked_cleanup !! q = Some (File c) ∧ fs1 !! q = None.
Proof.
  apply (cleanup_directory_aborts (project ["rst"]) blocked_cleanup ["docs"; "_tags"] "first").
  - reflexivity.
  - apply fs_wf_check. vm_compute. reflexivity.
  - vm_compute. reflexivity.
  - vm_compute. reflexivity.
  - vm_compute. reflexivity.
  - vm_compute. reflexivity.
Defined.

(** X14 on the two documents. *)
Lemma plain_tags_build_succeeds_witness :
  ∃ fs', update_tags (project ["rst"]) two_docs = (fs', Ok ()).
Proof.
  apply (plain_tags_build_succeeds (project ["rst"]) two_docs
           (clean (project ["rst"]) (Path_of "_tags") two_docs).1
           (registry_of [entry_of two_docs "/docs/b.rst"; entry_of two_docs "/docs/a.rst"])
           [entry_of two_docs "/docs/b.rst"; entry_of two_docs "/docs/a.rst"]).
  - reflexivity.
  - apply fs_wf_check. vm_compute. reflexivity.
  - apply run_ok. vm_compute. reflexivity.
  - apply assign_entries_run. vm_compute. reflexivity.
  - apply Forall_forall. intros t Hin. apply list_elem_of_In in Hin. vm_compute in Hin.
    destruct Hin as [<-|[<-|[]]]; vm_compute; reflexivity.
  - apply Forall_forall. intros t Hin. apply list_elem_of_In in Hin. vm_compute in Hin.
    destruct Hin as [<-|[<-|[]]]; vm_compute; reflexivity.
  - vm_compute. reflexivity.
Defined.

(** X15 on the tag [machine learning] and the default titles. *)
Lemma rst_title_underline_witness :
  (∃ rest,
     (create_file_content (Tag_init "machine learning") [] ["rst"] "/docs" "My tags"
        "With this tag").2
     = ("My tags" +:+ ": " +:+ "machine learning")
       :: str_repeat "#"%char (String.length ("My tags" +:+ ": " +:+ "machine learning"))
       :: rest)
  ∧ (∃ rest,
       skipn 4 (tagpage_content [] "/docs/_tags" "My tags" ["rst"] "With this tag").2
       = "My tags" :: str_repeat "#"%char (String.length "My tags") :: rest).
Proof.
  apply (rst_title_underline (Tag_init "machine learning") [] [] ["rst"] "/docs" "/docs/_tags"
           "My tags" "With this tag").
  intros Hin. apply list_elem_of_In in Hin. vm_compute in Hin.
  destruct Hin as [Hin|[]]. discriminate.
Defined.

(** X16 on the notebook. *)
Lemma notebook_tags_one_line_witness : str_mem nl "a" = false.
Proof.
  apply (notebook_tags_one_line "/docs/n.ipynb" notebook notebook
           (entry_of notebook "/docs/n.ipynb") "a").
  - apply Entry_init_run. vm_compute. reflexivity.
  - vm_compute. reflexivity.
  - vm_compute. reflexivity.
  - apply list_elem_of_In. vm_compute. tauto.
Defined.

(** X17 on the output directory with a page of an earlier build. *)
Lemma old_pages_not_scanned_witness :
  let app := project ["rst"] in
  let fsR := (clean app (Path_of "_tags") stale_page).1 in
  ∃ d, resolve fsR (outdir_of app) = Ok d
       ∧ ∀ p, p ∈ ["/docs/b.rst"; "/docs/a.rst"] →
              ∃ q, resolve fsR p = Ok q ∧ is_Some (fsR !! q)
                   ∧ ∀ n, removable n = true → q ≠ d ++ [n].
Proof.
  apply (old_pages_not_scanned (project ["rst"]) stale_page
           (clean (project ["rst"]) (Path_of "_tags") stale_page).1
           ["/docs/b.rst"; "/docs/a.rst"]).
  - apply fs_wf_check. vm_compute. reflexivity.
  - apply run_ok. vm_compute. reflexivity.
  - apply discover_run. vm_compute. reflexivity.
Defined.

Lemma two_docs_no_tags_dir q : two_docs !! ("docs" :: "_tags" :: q) = None.
Proof.
  destruct (two_docs !! _) as [x|] eqn:H; [|reflexivity].
  apply elem_of_map_to_list in H.
  assert ((map_to_list two_docs).*1 = [["docs"; "b.rst"]; ["docs"; "a.rst"]; ["docs"]])
    as Hkeys by (vm_compute; reflexivity).
  apply (list_elem_of_fmap_2 fst) in H. rewrite Hkeys in H. simpl in H.
  apply list_elem_of_In in H. simpl in H.
  destruct H as [H|[H|[H|[]]]]; inversion H.
Qed.

(** X18 on the two documents, where no output directory exists yet. *)
Lemma missing_output_directory_created_witness :
  resolve two_docs (outdir_of (project ["rst"])) = Ok (["docs"] ++ ["_tags"])
  ∧ clean (project ["rst"]) (Path_of "_tags") two_docs
    = (<[["docs"] ++ ["_tags"] := Dir]> two_docs, Ok ()).
Proof.
  apply (missing_output_directory_created (project ["rst"]) two_docs ["docs"]).
  - vm_compute. reflexivity.
  - vm_compute. reflexivity.
  - vm_compute. reflexivity.
  - vm_compute. reflexivity.
  - apply two_docs_no_tags_dir.
Defined.

(** X19 on the argument of the first of the two documents. *)
Lemma one_line_directive_agrees_witness :
  extract_tags _rst_regex (".. tags:: " +:+ "Alpha, Beta")
  = str_strip <$> str_split separator "Alpha, Beta".
Proof. apply (one_line_directive_agrees "Alpha, Beta"). vm_compute. reflexivity. Defined.
